(** * serial-scanner: the payload codec and the scanner session

    A shallow embedding of [src/qr-utils.js] (CRC-32, [encodeQRPayload],
    [decodeQRPayload]) and of the session state of [src/scanner.js]
    ([processBarcode], [drawOverlays], [stopScanner], [setTargetSerials],
    [resetFoundSerials], ...), with the properties of the specification
    stated and proved over it.

    JavaScript strings are sequences of UTF-16 code units; numbers that
    take part in bit operations are integers, with the 32-bit conversions
    of the language written out. *)

From Stdlib Require Import ZArith NArith List String Ascii Bool Lia.
Import ListNotations.

Open Scope list_scope.
Open Scope Z_scope.

(** ** JavaScript strings *)

Definition code_unit := N.
Definition jsstring := list code_unit.

(** A string literal of the source, as code units. *)
Definition js (s : string) : jsstring :=
  map N_of_ascii (list_ascii_of_string s).

Definition code_unit_eqb (a b : code_unit) : bool := N.eqb a b.

Fixpoint jsstring_eqb (a b : jsstring) : bool :=
  match a, b with
  | [], [] => true
  | x :: a', y :: b' => code_unit_eqb x y && jsstring_eqb a' b'
  | _, _ => false
  end.

(** [String.prototype.padStart] with a one-character filler. *)
Definition padStart (targetLength : nat) (fill : code_unit) (s : jsstring)
  : jsstring :=
  repeat fill (targetLength - List.length s) ++ s.

(** ** 32-bit integer operations of JavaScript *)

Definition ToUint32 (z : Z) : Z := z mod 2 ^ 32.

Definition ToInt32 (z : Z) : Z :=
  let u := z mod 2 ^ 32 in
  if u <? 2 ^ 31 then u else u - 2 ^ 32.

(** [a ^ b], [a & b] and [a >>> n]. *)
Definition bitxor (a b : Z) : Z := ToInt32 (Z.lxor (ToInt32 a) (ToInt32 b)).
Definition bitand (a b : Z) : Z := ToInt32 (Z.land (ToInt32 a) (ToInt32 b)).
Definition ushr (a n : Z) : Z := Z.shiftr (ToUint32 a) (n mod 32).

(** ** CRC-32 (qr-utils.js, lines 7-32) *)

(** The inner loop of the table initialiser: [j] rounds on [crc]. *)
Fixpoint crc_rounds (j : nat) (crc : Z) : Z :=
  match j with
  | O => crc
  | S j' =>
      crc_rounds j'
        (if bitand crc 1 =? 0 then ushr crc 1
         else bitxor 0xEDB88320 (ushr crc 1))
  end.

Definition CRC32_TABLE_init : list Z :=
  map (fun i => ushr (crc_rounds 8 (Z.of_nat i)) 0) (seq 0 256).

Definition CRC32_TABLE : list Z := Eval vm_compute in CRC32_TABLE_init.

Definition table_get (i : Z) : Z := nth (Z.to_nat i) CRC32_TABLE 0.

(** Digit of [Number.prototype.toString(radix)]: [0-9] then [a-z]. *)
Definition radix_digit (d : Z) : code_unit :=
  if d <? 10 then Z.to_N (48 + d) else Z.to_N (87 + d).

Fixpoint to_radix (radix : Z) (fuel : nat) (n : Z) (acc : jsstring)
  : jsstring :=
  match fuel with
  | O => acc
  | S f =>
      let acc' := radix_digit (n mod radix) :: acc in
      if n <? radix then acc' else to_radix radix f (n / radix) acc'
  end.

(** The digits of an integer [n >= 0] in base [radix], most significant
    first, without leading zeros: [n.toString(radix)] for such an [n] (in
    base 10, while the number is below 10^21). *)
Definition integer_toString (radix n : Z) : jsstring :=
  to_radix radix (S (Z.to_nat (Z.log2 n))) n [].

(** One iteration of the loop of [calculateCRC32]. *)
Definition crc_step (crc : Z) (c : code_unit) : Z :=
  let byte := bitand (Z.of_N c) 0xFF in
  bitxor (table_get (bitand (bitxor crc byte) 0xFF)) (ushr crc 8).

Definition calculateCRC32 (str : jsstring) : jsstring :=
  let crc := fold_left crc_step str 0xFFFFFFFF in
  let crc := ushr (bitxor crc 0xFFFFFFFF) 0 in
  padStart 8 48%N (integer_toString 16 crc).

(** ** Numbers

    A JSON number denotes an IEEE-754 double: the decimal value of the
    literal rounded to nearest, ties to even.  No NaN arises from JSON
    text.  A finite non-zero double is [m * 2^e], kept canonical:
    [2^52 <= m < 2^53] with [-1074 <= e <= 971], or [0 < m < 2^52] with
    [e = -1074]. *)

Inductive double : Type :=
| DZero (neg : bool)
| DFinite (neg : bool) (m e : Z)
| DInfinity (neg : bool).

Definition div_half_even (n d : Z) : Z :=
  let q := n / d in
  let r := n mod d in
  if 2 * r <? d then q
  else if d <? 2 * r then q + 1
  else if Z.even q then q else q + 1.

(** The fraction [a / (b * 2^e)]. *)
Definition scale2 (a b e : Z) : Z * Z :=
  if e <? 0 then (a * 2 ^ (- e), b) else (a, b * 2 ^ e).

(** The double nearest to [a / b], for [a >= 0] and [b > 0]. *)
Definition round_to_double (neg : bool) (a b : Z) : double :=
  if a =? 0 then DZero neg
  else
    let e0 := Z.log2 a - Z.log2 b - 52 in
    let '(n0, d0) := scale2 a b e0 in
    let e1 := if n0 / d0 <? 2 ^ 52 then e0 - 1 else e0 in
    let e := Z.max e1 (-1074) in
    let '(n, d) := scale2 a b e in
    let m := div_half_even n d in
    if m =? 0 then DZero neg
    else
      let '(m', e') := if m =? 2 ^ 53 then (2 ^ 52, e + 1) else (m, e) in
      if 971 <? e' then DInfinity neg else DFinite neg m' e'.

(** The fraction [a / (b * 10^n)]. *)
Definition scale10 (a b n : Z) : Z * Z :=
  if n <? 0 then (a * 10 ^ (- n), b) else (a, b * 10 ^ n).

(** The double denoted by the decimal [digits * 10^exp10]. *)
Definition decimal_to_double (neg : bool) (digits exp10 : Z) : double :=
  let '(a, b) := scale10 digits 1 (- exp10) in
  round_to_double neg a b.

(** The least [n], from [n0] on, with [a / b < 10^n]. *)
Fixpoint decimal_exponent (fuel : nat) (a b n0 : Z) : Z :=
  match fuel with
  | O => n0
  | S f =>
      let '(x, y) := scale10 a b n0 in
      if x <? y then n0 else decimal_exponent f a b (n0 + 1)
  end.

(** [Number::toString], step 5: the shortest digit string [s] (of [k]
    digits) and exponent [n] such that [s * 10^(n-k)] rounds to the
    double, the closest such [s] when several have [k] digits. *)
Fixpoint shortest_digits (fuel : nat) (k : Z) (m e a b n0 : Z) : Z * Z * Z :=
  let '(x, y) := scale10 a b (n0 - k) in
  let lo := x / y in
  let r := x mod y in
  let hi := if lo + 1 =? 10 ^ k then (10 ^ (k - 1), n0 + 1) else (lo + 1, n0) in
  let rounds (c : Z * Z) :=
    match decimal_to_double false (fst c) (snd c - k) with
    | DFinite _ m' e' => (m' =? m) && (e' =? e)
    | _ => false
    end in
  let lo_ok := rounds (lo, n0) in
  let hi_ok := rounds hi in
  let pick_lo := (2 * r <? y) || ((2 * r =? y) && Z.even lo) in
  match fuel with
  | O => (lo, n0, k)
  | S f =>
      if lo_ok && (negb hi_ok || pick_lo) then (lo, n0, k)
      else if hi_ok then (fst hi, snd hi, k)
      else shortest_digits f (k + 1) m e a b n0
  end.

(** [Number::toString], steps 6 onwards: the layout of [k] digits [s]
    with decimal exponent [n]. *)
Definition layout_digits (s n k : Z) : jsstring :=
  let ds := integer_toString 10 s in
  if (k <=? n) && (n <=? 21) then ds ++ repeat 48%N (Z.to_nat (n - k))
  else if (0 <? n) && (n <=? 21) then
    firstn (Z.to_nat n) ds ++ js "." ++ skipn (Z.to_nat n) ds
  else if (-6 <? n) && (n <=? 0) then
    js "0." ++ repeat 48%N (Z.to_nat (- n)) ++ ds
  else
    let e := n - 1 in
    let tail :=
      js "e" ++ (if e <? 0 then js "-" else js "+")
        ++ integer_toString 10 (Z.abs e) in
    if k =? 1 then ds ++ tail
    else firstn 1 ds ++ js "." ++ skipn 1 ds ++ tail.

Definition Number_toString (d : double) : jsstring :=
  match d with
  | DZero _ => js "0"
  | DInfinity neg => (if neg then js "-" else []) ++ js "Infinity"
  | DFinite neg m e =>
      let '(a, b) := scale2 m 1 (- e) in
      let n0 := decimal_exponent 640 a b (-324) in
      let '(s, n, k) := shortest_digits 17 1 m e a b n0 in
      (if neg then js "-" else []) ++ layout_digits s n k
  end.

(** [ToBoolean] and [SameValueZero] on numbers. *)
Definition Number_truthy (d : double) : bool :=
  match d with DZero _ => false | _ => true end.

Definition Number_sameValueZero (x y : double) : bool :=
  match x, y with
  | DZero _, DZero _ => true
  | DFinite n1 m1 e1, DFinite n2 m2 e2 =>
      Bool.eqb n1 n2 && (m1 =? m2) && (e1 =? e2)
  | DInfinity n1, DInfinity n2 => Bool.eqb n1 n2
  | _, _ => false
  end.

(** ** JSON values

    The values [JSON.parse] can return.  An object keeps its members in
    source order, duplicates included; reading a property takes the last
    member of that name, as [JSON.parse] overwrites. *)

#[warnings="-register-all"]
Inductive json : Type :=
| JNull
| JBool (b : bool)
| JNumber (d : double)
| JString (s : jsstring)
| JArray (elements : list json)
| JObject (members : list (jsstring * json)).

Inductive parse_result : Type :=
| Parsed (v : json) (rest : jsstring)
| SyntaxError
| OutOfFuel.

(** *** [JSON.parse] *)

Definition is_ws (c : code_unit) : bool :=
  ((c =? 32) || (c =? 9) || (c =? 10) || (c =? 13))%N.

Fixpoint skip_ws (inp : jsstring) : jsstring :=
  match inp with
  | c :: r => if is_ws c then skip_ws r else inp
  | [] => []
  end.

Definition hex_value (c : code_unit) : option N :=
  (if (48 <=? c) && (c <=? 57) then Some (c - 48)
   else if (97 <=? c) && (c <=? 102) then Some (c - 87)
   else if (65 <=? c) && (c <=? 70) then Some (c - 55)
   else None)%N.

Definition hex4 (h1 h2 h3 h4 : code_unit) : option code_unit :=
  match hex_value h1, hex_value h2, hex_value h3, hex_value h4 with
  | Some a, Some b, Some c, Some d =>
      Some (((a * 16 + b) * 16 + c) * 16 + d)%N
  | _, _, _, _ => None
  end.

(** The character after a backslash, other than [u]. *)
Definition unescape (e : code_unit) : option code_unit :=
  (if e =? 34 then Some 34          (* quote *)
   else if e =? 92 then Some 92     (* backslash *)
   else if e =? 47 then Some 47     (* slash *)
   else if e =? 98 then Some 8      (* b *)
   else if e =? 102 then Some 12    (* f *)
   else if e =? 110 then Some 10    (* n *)
   else if e =? 114 then Some 13    (* r *)
   else if e =? 116 then Some 9     (* t *)
   else None)%N.

Definition cons_parsed (c : code_unit) (p : option (jsstring * jsstring))
  : option (jsstring * jsstring) :=
  match p with
  | Some (s, rest) => Some (c :: s, rest)
  | None => None
  end.

(** The characters of a string literal, after its opening quote, up to
    and including the closing quote. *)
Fixpoint parse_string_chars (inp : jsstring) : option (jsstring * jsstring) :=
  match inp with
  | [] => None
  | c :: r =>
      if (c =? 34)%N then Some ([], r)
      else if (c =? 92)%N then
        match r with
        | [] => None
        | e :: r1 =>
            if (e =? 117)%N then
              match r1 with
              | h1 :: h2 :: h3 :: h4 :: r2 =>
                  match hex4 h1 h2 h3 h4 with
                  | Some u => cons_parsed u (parse_string_chars r2)
                  | None => None
                  end
              | _ => None
              end
            else
              match unescape e with
              | Some u => cons_parsed u (parse_string_chars r1)
              | None => None
              end
        end
      else if (c <? 32)%N then None
      else cons_parsed c (parse_string_chars r)
  end.

Definition is_digit (c : code_unit) : bool := ((48 <=? c) && (c <=? 57))%N.

Fixpoint take_digits (inp : jsstring) : list Z * jsstring :=
  match inp with
  | c :: r =>
      if is_digit c then
        let '(ds, rest) := take_digits r in (Z.of_N c - 48 :: ds, rest)
      else ([], inp)
  | [] => ([], [])
  end.

Definition digits_value (ds : list Z) : Z :=
  fold_left (fun a d => 10 * a + d) ds 0.

Definition is_nil {A : Type} (l : list A) : bool :=
  match l with [] => true | _ => false end.

(** A number literal: an optional minus sign; an integer part, a single
    zero or digits that do not start with zero; an optional fraction, a
    dot and at least one digit; an optional exponent, [e] or [E], an
    optional sign and at least one digit. *)
Definition parse_number (inp : jsstring) : option (double * jsstring) :=
  let '(neg, r0) :=
    match inp with
    | c :: r => if (c =? 45)%N then (true, r) else (false, inp)
    | [] => (false, inp)
    end in
  let '(ip, r1) := take_digits r0 in
  match ip with
  | [] => None
  | d :: ip' =>
      if (d =? 0) && negb (is_nil ip') then None
      else
        let '(fp, r2, frac_ok) :=
          match r1 with
          | c :: r =>
              if (c =? 46)%N then
                let '(fp, r') := take_digits r in (fp, r', negb (is_nil fp))
              else ([], r1, true)
          | [] => ([], r1, true)
          end in
        let '(ex, r3, exp_ok) :=
          match r2 with
          | c :: r =>
              if ((c =? 101) || (c =? 69))%N then
                let '(eneg, r') :=
                  match r with
                  | sg :: r' =>
                      if (sg =? 43)%N then (false, r')
                      else if (sg =? 45)%N then (true, r')
                      else (false, r)
                  | [] => (false, r)
                  end in
                let '(ed, r'') := take_digits r' in
                ((if eneg then - digits_value ed else digits_value ed),
                 r'', negb (is_nil ed))
              else (0, r2, true)
          | [] => (0, r2, true)
          end in
        if frac_ok && exp_ok then
          Some (decimal_to_double neg (digits_value (ip ++ fp))
                  (ex - Z.of_nat (List.length fp)), r3)
        else None
  end.

Fixpoint strip_prefix (p inp : jsstring) : option jsstring :=
  match p, inp with
  | [], _ => Some inp
  | x :: p', y :: inp' => if (x =? y)%N then strip_prefix p' inp' else None
  | _ :: _, [] => None
  end.

Definition parse_literal (inp : jsstring) : parse_result :=
  match strip_prefix (js "true") inp with
  | Some r => Parsed (JBool true) r
  | None =>
      match strip_prefix (js "false") inp with
      | Some r => Parsed (JBool false) r
      | None =>
          match strip_prefix (js "null") inp with
          | Some r => Parsed JNull r
          | None =>
              match parse_number inp with
              | Some (d, r) => Parsed (JNumber d) r
              | None => SyntaxError
              end
          end
      end
  end.

(** Recursive descent; every recursive call spends one unit of fuel, and
    two calls in a row consume at least one character, so that twice the
    length of the text, plus one, is fuel enough. *)
Fixpoint parse_value (fuel : nat) (inp : jsstring) : parse_result :=
  match fuel with
  | O => OutOfFuel
  | S f =>
      match skip_ws inp with
      | [] => SyntaxError
      | c :: r =>
          if (c =? 123)%N then           (* { *)
            match skip_ws r with
            | c' :: r' =>
                if (c' =? 125)%N then Parsed (JObject []) r'
                else parse_members f r []
            | [] => SyntaxError
            end
          else if (c =? 91)%N then       (* [ *)
            match skip_ws r with
            | c' :: r' =>
                if (c' =? 93)%N then Parsed (JArray []) r'
                else parse_elements f r []
            | [] => SyntaxError
            end
          else if (c =? 34)%N then
            match parse_string_chars r with
            | Some (s, rest) => Parsed (JString s) rest
            | None => SyntaxError
            end
          else parse_literal (c :: r)
      end
  end

with parse_members (fuel : nat) (inp : jsstring)
       (acc : list (jsstring * json)) : parse_result :=
  match fuel with
  | O => OutOfFuel
  | S f =>
      match skip_ws inp with
      | [] => SyntaxError
      | q :: r =>
          if (q =? 34)%N then
            match parse_string_chars r with
            | None => SyntaxError
            | Some (key, r1) =>
                match skip_ws r1 with
                | [] => SyntaxError
                | colon :: r2 =>
                    if (colon =? 58)%N then
                      match parse_value f r2 with
                      | Parsed v r3 =>
                          match skip_ws r3 with
                          | [] => SyntaxError
                          | sep :: r4 =>
                              if (sep =? 44)%N then
                                parse_members f r4 (acc ++ [(key, v)])
                              else if (sep =? 125)%N then
                                Parsed (JObject (acc ++ [(key, v)])) r4
                              else SyntaxError
                          end
                      | failure => failure
                      end
                    else SyntaxError
                end
            end
          else SyntaxError
      end
  end

with parse_elements (fuel : nat) (inp : jsstring) (acc : list json)
  : parse_result :=
  match fuel with
  | O => OutOfFuel
  | S f =>
      match parse_value f inp with
      | Parsed v r1 =>
          match skip_ws r1 with
          | [] => SyntaxError
          | sep :: r2 =>
              if (sep =? 44)%N then parse_elements f r2 (acc ++ [v])
              else if (sep =? 93)%N then Parsed (JArray (acc ++ [v])) r2
              else SyntaxError
          end
      | failure => failure
      end
  end.

(** [JSON.parse(text)]; [None] is the thrown [SyntaxError]. *)
Definition JSON_parse (text : jsstring) : option json :=
  match parse_value (S (2 * List.length text)) text with
  | Parsed v rest =>
      match skip_ws rest with
      | [] => Some v
      | _ :: _ => None
      end
  | _ => None
  end.

(** *** [JSON.stringify] *)

Definition is_high_surrogate (c : code_unit) : bool :=
  ((0xD800 <=? c) && (c <=? 0xDBFF))%N.

Definition is_low_surrogate (c : code_unit) : bool :=
  ((0xDC00 <=? c) && (c <=? 0xDFFF))%N.

(** A backslash, [u] and four lower-case hex digits. *)
Definition unicode_escape (c : code_unit) : jsstring :=
  [92; 117]%N ++ padStart 4 48%N (integer_toString 16 (Z.of_N c)).

(** The body of [QuoteJSONString]: the two-character escapes, a unicode
    escape for the other control characters and for a surrogate that is
    not part of a pair, the character itself otherwise. *)
Fixpoint quote_chars (s : jsstring) : jsstring :=
  match s with
  | [] => []
  | c :: r =>
      if (c =? 8)%N then [92; 98]%N ++ quote_chars r
      else if (c =? 9)%N then [92; 116]%N ++ quote_chars r
      else if (c =? 10)%N then [92; 110]%N ++ quote_chars r
      else if (c =? 12)%N then [92; 102]%N ++ quote_chars r
      else if (c =? 13)%N then [92; 114]%N ++ quote_chars r
      else if (c =? 34)%N then [92; 34]%N ++ quote_chars r
      else if (c =? 92)%N then [92; 92]%N ++ quote_chars r
      else if is_high_surrogate c then
        match r with
        | l :: r' =>
            if is_low_surrogate l then c :: l :: quote_chars r'
            else unicode_escape c ++ quote_chars r
        | [] => unicode_escape c
        end
      else if (c <? 32)%N || is_low_surrogate c then
        unicode_escape c ++ quote_chars r
      else c :: quote_chars r
  end.

Definition QuoteJSONString (s : jsstring) : jsstring :=
  34%N :: quote_chars s ++ [34%N].

(** [JSON.stringify(v)] without indentation, for values whose objects
    list their properties in creation order under distinct names that
    are not array indices (the payload object has the names [s], [src]
    and [cs]). *)
Fixpoint JSON_stringify (v : json) : jsstring :=
  match v with
  | JNull => js "null"
  | JBool b => if b then js "true" else js "false"
  | JNumber d =>
      match d with
      | DInfinity _ => js "null"
      | _ => Number_toString d
      end
  | JString s => QuoteJSONString s
  | JArray l =>
      js "["
        ++ (fix elements (l : list json) : jsstring :=
              match l with
              | [] => []
              | x :: r =>
                  match r with
                  | [] => JSON_stringify x
                  | _ :: _ => JSON_stringify x ++ js "," ++ elements r
                  end
              end) l
        ++ js "]"
  | JObject ms =>
      js "{"
        ++ (fix members (ms : list (jsstring * json)) : jsstring :=
              match ms with
              | [] => []
              | (k, x) :: r =>
                  let m := QuoteJSONString k ++ js ":" ++ JSON_stringify x in
                  match r with
                  | [] => m
                  | _ :: _ => m ++ js "," ++ members r
                  end
              end) ms
        ++ js "}"
  end.

(** *** Conversions of the language on parsed values *)

(** A property read [payload.key] on a non-null parsed value, for a name
    that no built-in prototype defines ([s], [src], [cs], [toString] on
    the own properties); [None] is [undefined]. *)
Definition get_property (v : json) (key : jsstring) : option json :=
  match v with
  | JObject ms =>
      fold_left
        (fun found m => if jsstring_eqb (fst m) key then Some (snd m) else found)
        ms None
  | _ => None
  end.

Definition ToBoolean (v : option json) : bool :=
  match v with
  | None => false
  | Some JNull => false
  | Some (JBool b) => b
  | Some (JNumber d) => Number_truthy d
  | Some (JString s) => negb (is_nil s)
  | Some (JArray _) => true
  | Some (JObject _) => true
  end.

(** [v === str] for a string [str]. *)
Definition strict_equals_string (v : option json) (str : jsstring) : bool :=
  match v with
  | Some (JString s) => jsstring_eqb s str
  | _ => false
  end.

(** [ToString(ToPrimitive(v))]; [None] is the [TypeError] of an object
    that has neither a callable [toString] nor a primitive [valueOf]: a
    parsed object whose own [toString] property hides the inherited
    method.  An array joins its elements with commas, [null] elements as
    empty strings. *)
Fixpoint ToString (v : json) : option jsstring :=
  match v with
  | JNull => Some (js "null")
  | JBool b => Some (if b then js "true" else js "false")
  | JNumber d => Some (Number_toString d)
  | JString s => Some s
  | JArray l =>
      (fix join (l : list json) : option jsstring :=
         match l with
         | [] => Some []
         | x :: r =>
             let sx := match x with JNull => Some [] | _ => ToString x end in
             match r with
             | [] => sx
             | _ :: _ =>
                 match sx, join r with
                 | Some a, Some b => Some (a ++ js "," ++ b)
                 | _, _ => None
                 end
             end
         end) l
  | JObject ms =>
      match get_property (JObject ms) (js "toString") with
      | Some _ => None
      | None => Some (js "[object Object]")
      end
  end.

(** ** The payload codec (qr-utils.js, lines 39-81) *)

Definition SOURCE_TAG : jsstring := js "lablup-inventory".

Definition encodeQRPayload (serialNumber : jsstring) : jsstring :=
  let s := serialNumber in
  let src := SOURCE_TAG in
  let cs := calculateCRC32 (s ++ src) in
  JSON_stringify
    (JObject [(js "s", JString s); (js "src", JString src);
              (js "cs", JString cs)]).

Record decode_result : Type := {
  valid : bool;
  serialNumber : json;          (* [JNull] is the [null] of a failure *)
  error : option string
}.

(** The four error texts; the specification calls them NotStructured,
    MissingFields, UnknownSource and ChecksumMismatch. *)
Definition NotStructured : string := "Not JSON".
Definition MissingFields : string := "Missing required fields".
Definition UnknownSource : string := "Unknown source".
Definition ChecksumMismatch : string := "Checksum mismatch".

Definition failure (e : string) : decode_result :=
  {| valid := false; serialNumber := JNull; error := Some e |}.

Definition success (s : json) : decode_result :=
  {| valid := true; serialNumber := s; error := None |}.

(** How a call ends: with a value, or with an uncaught [TypeError]. *)
Inductive completion (A : Type) : Type :=
| Returns (a : A)
| Throws_TypeError.
Arguments Returns {A} a.
Arguments Throws_TypeError {A}.

Definition decodeQRPayload (rawData : jsstring) : completion decode_result :=
  match JSON_parse rawData with
  | None => Returns (failure NotStructured)
  | Some JNull => Throws_TypeError         (* [payload.s] on [null] *)
  | Some payload =>
      let s := get_property payload (js "s") in
      let src := get_property payload (js "src") in
      let cs := get_property payload (js "cs") in
      if negb (ToBoolean s) || negb (ToBoolean src) || negb (ToBoolean cs)
      then Returns (failure MissingFields)
      else if negb (strict_equals_string src SOURCE_TAG)
      then Returns (failure UnknownSource)
      else
        match s with
        | None => Returns (failure MissingFields)
        | Some sv =>
            match ToString sv with
            | None => Throws_TypeError     (* [payload.s + payload.src] *)
            | Some str =>
                let expectedChecksum := calculateCRC32 (str ++ SOURCE_TAG) in
                if negb (strict_equals_string cs expectedChecksum)
                then Returns (failure ChecksumMismatch)
                else Returns (success sv)
            end
        end
  end.

(** ** The scanner session (scanner.js)

    The module-level variables of [scanner.js] form the session state.
    Time is the value of [Date.now()], passed in.  Calls of the two
    callbacks and of the vibration request are collected as events, in
    call order.  Timers, the camera stream and the drawing surface are
    outside the state, apart from whether the overlay has a surface to
    draw on. *)

Inductive BorderState : Type := idle | searching | found.

Definition BorderState_eqb (a b : BorderState) : bool :=
  match a, b with
  | idle, idle | searching, searching | found, found => true
  | _, _ => false
  end.

(** Detector geometry: pixel coordinates, taken as integers. *)
Record point : Type := { px : Z; py : Z }.
Record rect : Type := { rx : Z; ry : Z; rwidth : Z; rheight : Z }.

Record barcode : Type := {
  rawValue : jsstring;
  cornerPoints : option (list point);
  boundingBox : option rect
}.

Record bounds : Type := {
  bounds_x : Z; bounds_y : Z; bounds_width : Z; bounds_height : Z;
  bounds_cornerPoints : option (list point)
}.

Record qrdata : Type := {
  qbounds : option bounds;
  lastSeen : Z;
  isTarget : bool
}.

Inductive event : Type :=
| FoundCall (serial : json) (allFound : list json)   (* onFoundCallback *)
| BorderCall (state : BorderState)                   (* onBorderStateChange *)
| Vibrate.                                           (* triggerFoundFeedback *)

Definition QR_VISIBILITY_TIMEOUT : Z := 500.
Definition BORDER_DEBOUNCE_MS : Z := 300.

(** [SameValueZero], the key equality of [Set] and [Map].  Two parsed
    arrays or objects are distinct objects, hence never the same key. *)
Definition sameValueZero (a b : json) : bool :=
  match a, b with
  | JNull, JNull => true
  | JBool x, JBool y => Bool.eqb x y
  | JNumber x, JNumber y => Number_sameValueZero x y
  | JString x, JString y => jsstring_eqb x y
  | _, _ => false
  end.

(** [Set]: the elements in insertion order. *)
Definition Set_has (s : list json) (v : json) : bool :=
  existsb (sameValueZero v) s.

Definition Set_add (s : list json) (v : json) : list json :=
  if Set_has s v then s else s ++ [v].

Definition Set_of (l : list json) : list json := fold_left Set_add l [].

(** [Map]: the entries in insertion order; [set] on a present key keeps
    the entry's place. *)
Fixpoint Map_set (m : list (json * qrdata)) (k : json) (d : qrdata)
  : list (json * qrdata) :=
  match m with
  | [] => [(k, d)]
  | (k', d') :: m' =>
      if sameValueZero k' k then (k', d) :: m' else (k', d') :: Map_set m' k d
  end.

Record scanner : Type := {
  isScanning : bool;
  targetSerials : list json;
  foundSerials : list json;
  overlayReady : bool;   (* canvasCtx, canvasElement and videoElement set *)
  visibleQRs : list (json * qrdata);
  currentBorderState : BorderState;
  lastFoundTime : Z;
  onFoundCallback : bool;        (* a callback is registered *)
  onBorderStateChange : bool
}.

Definition initial : scanner := {|
  isScanning := false;
  targetSerials := [];
  foundSerials := [];
  overlayReady := false;
  visibleQRs := [];
  currentBorderState := idle;
  lastFoundTime := 0;
  onFoundCallback := false;
  onBorderStateChange := false
|}.

Definition with_isScanning (b : bool) (st : scanner) : scanner :=
  {| isScanning := b; targetSerials := targetSerials st;
     foundSerials := foundSerials st; overlayReady := overlayReady st;
     visibleQRs := visibleQRs st;
     currentBorderState := currentBorderState st;
     lastFoundTime := lastFoundTime st;
     onFoundCallback := onFoundCallback st;
     onBorderStateChange := onBorderStateChange st |}.

Definition with_targetSerials (t : list json) (st : scanner) : scanner :=
  {| isScanning := isScanning st; targetSerials := t;
     foundSerials := foundSerials st; overlayReady := overlayReady st;
     visibleQRs := visibleQRs st;
     currentBorderState := currentBorderState st;
     lastFoundTime := lastFoundTime st;
     onFoundCallback := onFoundCallback st;
     onBorderStateChange := onBorderStateChange st |}.

Definition with_foundSerials (f : list json) (st : scanner) : scanner :=
  {| isScanning := isScanning st; targetSerials := targetSerials st;
     foundSerials := f; overlayReady := overlayReady st;
     visibleQRs := visibleQRs st;
     currentBorderState := currentBorderState st;
     lastFoundTime := lastFoundTime st;
     onFoundCallback := onFoundCallback st;
     onBorderStateChange := onBorderStateChange st |}.

Definition with_overlayReady (b : bool) (st : scanner) : scanner :=
  {| isScanning := isScanning st; targetSerials := targetSerials st;
     foundSerials := foundSerials st; overlayReady := b;
     visibleQRs := visibleQRs st;
     currentBorderState := currentBorderState st;
     lastFoundTime := lastFoundTime st;
     onFoundCallback := onFoundCallback st;
     onBorderStateChange := onBorderStateChange st |}.

Definition with_visibleQRs (m : list (json * qrdata)) (st : scanner)
  : scanner :=
  {| isScanning := isScanning st; targetSerials := targetSerials st;
     foundSerials := foundSerials st; overlayReady := overlayReady st;
     visibleQRs := m;
     currentBorderState := currentBorderState st;
     lastFoundTime := lastFoundTime st;
     onFoundCallback := onFoundCallback st;
     onBorderStateChange := onBorderStateChange st |}.

Definition with_currentBorderState (b : BorderState) (st : scanner)
  : scanner :=
  {| isScanning := isScanning st; targetSerials := targetSerials st;
     foundSerials := foundSerials st; overlayReady := overlayReady st;
     visibleQRs := visibleQRs st;
     currentBorderState := b;
     lastFoundTime := lastFoundTime st;
     onFoundCallback := onFoundCallback st;
     onBorderStateChange := onBorderStateChange st |}.

Definition with_lastFoundTime (t : Z) (st : scanner) : scanner :=
  {| isScanning := isScanning st; targetSerials := targetSerials st;
     foundSerials := foundSerials st; overlayReady := overlayReady st;
     visibleQRs := visibleQRs st;
     currentBorderState := currentBorderState st;
     lastFoundTime := t;
     onFoundCallback := onFoundCallback st;
     onBorderStateChange := onBorderStateChange st |}.

Definition with_onFoundCallback (b : bool) (st : scanner) : scanner :=
  {| isScanning := isScanning st; targetSerials := targetSerials st;
     foundSerials := foundSerials st; overlayReady := overlayReady st;
     visibleQRs := visibleQRs st;
     currentBorderState := currentBorderState st;
     lastFoundTime := lastFoundTime st;
     onFoundCallback := b;
     onBorderStateChange := onBorderStateChange st |}.

Definition with_onBorderStateChange (b : bool) (st : scanner) : scanner :=
  {| isScanning := isScanning st; targetSerials := targetSerials st;
     foundSerials := foundSerials st; overlayReady := overlayReady st;
     visibleQRs := visibleQRs st;
     currentBorderState := currentBorderState st;
     lastFoundTime := lastFoundTime st;
     onFoundCallback := onFoundCallback st;
     onBorderStateChange := b |}.

(** *** processBarcode (lines 125-172) *)

Definition min_of (l : list Z) (d : Z) : Z := fold_left Z.min l d.
Definition max_of (l : list Z) (d : Z) : Z := fold_left Z.max l d.

Definition extract_bounds (b : barcode) : option bounds :=
  match cornerPoints b with
  | Some (p :: ps) =>
      if (List.length (p :: ps) =? 4)%nat then
        let xs := map px ps in
        let ys := map py ps in
        Some {| bounds_x := min_of xs (px p);
                bounds_y := min_of ys (py p);
                bounds_width := max_of xs (px p) - min_of xs (px p);
                bounds_height := max_of ys (py p) - min_of ys (py p);
                bounds_cornerPoints := Some (p :: ps) |}
      else
        match boundingBox b with
        | Some r =>
            Some {| bounds_x := rx r; bounds_y := ry r;
                    bounds_width := rwidth r; bounds_height := rheight r;
                    bounds_cornerPoints := None |}
        | None => None
        end
  | _ =>
      match boundingBox b with
      | Some r =>
          Some {| bounds_x := rx r; bounds_y := ry r;
                  bounds_width := rwidth r; bounds_height := rheight r;
                  bounds_cornerPoints := None |}
      | None => None
      end
  end.

(** The state after the call and the callbacks it made; a [TypeError] of
    [decodeQRPayload] passes through, before any assignment. *)
Definition processBarcode (b : barcode) (now : Z) (st : scanner)
  : completion (scanner * list event) :=
  match decodeQRPayload (rawValue b) with
  | Throws_TypeError => Throws_TypeError
  | Returns parsed =>
      if negb (valid parsed) then Returns (st, [])
      else
        let serial := serialNumber parsed in
        let target := Set_has (targetSerials st) serial in
        let st1 :=
          with_visibleQRs
            (Map_set (visibleQRs st) serial
               {| qbounds := extract_bounds b; lastSeen := now;
                  isTarget := target |}) st in
        if target && negb (Set_has (foundSerials st1) serial) then
          let st2 := with_foundSerials (Set_add (foundSerials st1) serial) st1 in
          Returns
            (st2,
             Vibrate ::
             (if onFoundCallback st2
              then [FoundCall serial (foundSerials st2)] else []))
        else Returns (st1, [])
  end.

(** The loop of [scanFrame] once detection has resolved (lines 114-119):
    each barcode with the time at which it is processed; an exception
    ends the loop and is swallowed. *)
Fixpoint processBarcodes (bs : list (barcode * Z)) (st : scanner)
  : scanner * list event :=
  match bs with
  | [] => (st, [])
  | (b, now) :: rest =>
      match processBarcode b now st with
      | Throws_TypeError => (st, [])
      | Returns (st1, evs) =>
          let '(st2, evs') := processBarcodes rest st1 in (st2, evs ++ evs')
      end
  end.

(** *** drawOverlays (lines 177-278) *)

(** Whether lines 211-254 complete for an entry that has bounds.  The
    canvas calls themselves do not fail; computing the label text does
    for some serials that are not strings: an array has a [length] but no
    [substring] method, so one with more than 20 elements raises a
    [TypeError], and so does any serial without a string conversion.
    For a parsed object with an own [length] property the comparison
    [serial.length > 20] depends on number conversions outside this
    model: [object_label] says whether the label of such a serial
    completes. *)
Definition label_completes (object_label : json -> bool) (serial : json)
  : bool :=
  match serial with
  | JString _ => true
  | JArray l =>
      (List.length l <=? 20)%nat
      && match ToString serial with Some _ => true | None => false end
  | JObject _ =>
      match get_property serial (js "length") with
      | Some _ => object_label serial
      | None => match ToString serial with Some _ => true | None => false end
      end
  | _ => true
  end.

Record loop_result : Type := {
  entries_left : list (json * qrdata);    (* the map after the loop *)
  entries_live : list (json * qrdata);    (* the entries read as visible *)
  hasVisibleTarget : bool;
  loop_lastFoundTime : Z;
  threw : bool
}.

(** The [for] loop over [visibleQRs.entries()] (lines 199-255): an
    expired entry is deleted and skipped; a live one marks the target
    flag and is drawn; an exception leaves the entries not yet visited
    in place. *)
Fixpoint draw_loop (object_label : json -> bool) (now : Z)
    (entries : list (json * qrdata)) (hasTarget : bool) (lft : Z)
  : loop_result :=
  match entries with
  | [] =>
      {| entries_left := []; entries_live := [];
         hasVisibleTarget := hasTarget;
         loop_lastFoundTime := lft; threw := false |}
  | (serial, data) :: rest =>
      if now - lastSeen data >? QR_VISIBILITY_TIMEOUT then
        draw_loop object_label now rest hasTarget lft
      else
        let hasTarget' := if isTarget data then true else hasTarget in
        let lft' := if isTarget data then now else lft in
        let drawn :=
          match qbounds data with
          | Some _ => label_completes object_label serial
          | None => true
          end in
        if drawn then
          let res := draw_loop object_label now rest hasTarget' lft' in
          {| entries_left := (serial, data) :: entries_left res;
             entries_live := (serial, data) :: entries_live res;
             hasVisibleTarget := hasVisibleTarget res;
             loop_lastFoundTime := loop_lastFoundTime res;
             threw := threw res |}
        else
          {| entries_left := (serial, data) :: rest;
             entries_live := [(serial, data)];
             hasVisibleTarget := hasTarget';
             loop_lastFoundTime := lft'; threw := true |}
  end.

(** The state after one call, the callbacks made, and whether the call
    ended by an exception (which also ends the animation loop). *)
Definition drawOverlays (object_label : json -> bool) (now : Z)
    (st : scanner) : scanner * list event * bool :=
  if negb (overlayReady st) then (st, [], false)
  else
    let res :=
      draw_loop object_label now (visibleQRs st) false (lastFoundTime st) in
    let st1 :=
      with_lastFoundTime (loop_lastFoundTime res)
        (with_visibleQRs (entries_left res) st) in
    if threw res then (st1, [], true)
    else if negb (is_nil (targetSerials st1)) && onBorderStateChange st1 then
      let newState :=
        if hasVisibleTarget res then found
        else if now - lastFoundTime st1 <? BORDER_DEBOUNCE_MS then found
        else searching in
      if negb (BorderState_eqb newState (currentBorderState st1)) then
        (with_currentBorderState newState st1, [BorderCall newState], false)
      else (st1, [], false)
    else (st1, [], false).

(** *** startScanner, stopScanner (lines 45-103, 283-315) *)

(** [startScanner], taken at its completion: whether the container
    element exists, whether the canvas gave a 2d context, and whether the
    camera stream started.  Without a container or a camera the call
    throws and scanning stays off. *)
Definition startScanner (containerFound contextOk cameraOk : bool)
    (st : scanner) : scanner * list event :=
  if isScanning st then (st, [])
  else if negb containerFound then (st, [])
  else
    let st1 := with_overlayReady contextOk st in
    if negb cameraOk then (st1, [])
    else
      let st2 := with_isScanning true st1 in
      if negb (is_nil (targetSerials st2)) && onBorderStateChange st2 then
        (with_currentBorderState searching st2, [BorderCall searching])
      else (st2, []).

Definition stopScanner (st : scanner) : scanner * list event :=
  if negb (isScanning st) then (st, [])
  else
    let st1 :=
      with_currentBorderState idle
        (with_visibleQRs [] (with_isScanning false st)) in
    (st1, if onBorderStateChange st1 then [BorderCall idle] else []).

(** *** setTargetSerials, resetFoundSerials (lines 330-347, 365-373) *)

(** [String.prototype.split] on a separator class. *)
Fixpoint split (sep : code_unit -> bool) (inp : jsstring) : list jsstring :=
  match inp with
  | [] => [[]]
  | c :: r =>
      if sep c then [] :: split sep r
      else
        match split sep r with
        | h :: t => (c :: h) :: t
        | [] => [[c]]
        end
  end.

(** White space and line terminators, as [String.prototype.trim] strips
    them. *)
Definition is_trimmed (c : code_unit) : bool :=
  ((c =? 9) || (c =? 10) || (c =? 11) || (c =? 12) || (c =? 13)
   || (c =? 32) || (c =? 0xA0) || (c =? 0x1680)
   || ((0x2000 <=? c) && (c <=? 0x200A))
   || (c =? 0x2028) || (c =? 0x2029) || (c =? 0x202F) || (c =? 0x205F)
   || (c =? 0x3000) || (c =? 0xFEFF))%N.

Fixpoint trim_start (s : jsstring) : jsstring :=
  match s with
  | c :: r => if is_trimmed c then trim_start r else s
  | [] => []
  end.

Definition trim (s : jsstring) : jsstring :=
  rev (trim_start (rev (trim_start s))).

Definition parse_serials (input : jsstring) : list jsstring :=
  filter (fun s => negb (is_nil s))
    (map trim (split (fun c => (c =? 10)%N || (c =? 44)%N) input)).

(** The state after the call, the callbacks made and the returned count. *)
Definition setTargetSerials (input : jsstring) (st : scanner)
  : scanner * list event * nat :=
  let serials := parse_serials input in
  let st1 :=
    with_lastFoundTime 0
      (with_visibleQRs []
         (with_foundSerials []
            (with_targetSerials (Set_of (map JString serials)) st))) in
  if isScanning st1 && onBorderStateChange st1 then
    let st2 :=
      with_currentBorderState
        (if negb (is_nil serials) then searching else idle) st1 in
    (st2, [BorderCall (currentBorderState st2)], List.length serials)
  else (st1, [], List.length serials).

Definition resetFoundSerials (st : scanner) : scanner * list event :=
  let st1 :=
    with_lastFoundTime 0 (with_visibleQRs [] (with_foundSerials [] st)) in
  if isScanning st1 && negb (is_nil (targetSerials st1))
     && onBorderStateChange st1
  then (with_currentBorderState searching st1, [BorderCall searching])
  else (st1, []).

Definition setOnFoundCallback (callback : bool) (st : scanner) : scanner :=
  with_onFoundCallback callback st.

Definition setOnBorderStateChange (callback : bool) (st : scanner)
  : scanner :=
  with_onBorderStateChange callback st.

(** *** Sessions: sequences of calls *)

Inductive operation : Type :=
| StartScanner (containerFound contextOk cameraOk : bool)
| StopScanner
| SetTargetSerials (input : jsstring)
| ResetFoundSerials
| SetOnFoundCallback (callback : bool)
| SetOnBorderStateChange (callback : bool)
| ScanResults (bs : list (barcode * Z))
| RenderTick (object_label : json -> bool) (now : Z).

Definition step (op : operation) (st : scanner) : scanner * list event :=
  match op with
  | StartScanner c x m => startScanner c x m st
  | StopScanner => stopScanner st
  | SetTargetSerials input => fst (setTargetSerials input st)
  | ResetFoundSerials => resetFoundSerials st
  | SetOnFoundCallback cb => (setOnFoundCallback cb st, [])
  | SetOnBorderStateChange cb => (setOnBorderStateChange cb st, [])
  | ScanResults bs => processBarcodes bs st
  | RenderTick object_label now => fst (drawOverlays object_label now st)
  end.

Fixpoint run (ops : list operation) (st : scanner) : scanner * list event :=
  match ops with
  | [] => (st, [])
  | op :: rest =>
      let '(st1, evs) := step op st in
      let '(st2, evs') := run rest st1 in
      (st2, evs ++ evs')
  end.

Definition reachable (st : scanner) : Prop :=
  exists ops, fst (run ops initial) = st.


(** ** Auxiliary definitions of the proofs *)

(** The unicode escape of [c] is a backslash, [u] and four hex digits
    that [hex4] reads back as [c]. *)
Definition escape_reads_back (c : code_unit) : bool :=
  match unicode_escape c with
  | [b; u; h1; h2; h3; h4] =>
      (b =? 92)%N && (u =? 117)%N
      && match hex4 h1 h2 h3 h4 with
         | Some c' => (c' =? c)%N
         | None => false
         end
  | _ => false
  end.

(** The code units that [quote_chars] writes as unicode escapes. *)
Definition escaped_range (c : code_unit) : Prop :=
  (c < 32 \/ 0xD800 <= c <= 0xDFFF)%N.

(** The payload object of [encodeQRPayload], with arbitrary strings in
    its three fields. *)
Definition payload_object (s src cs : jsstring) : json :=
  JObject [(js "s", JString s); (js "src", JString src); (js "cs", JString cs)].

(** The checksum loop on unsigned 32-bit states: [ustep] is [crc_step]
    through [ToUint32], on the low byte of the character. *)
Definition low_byte (c : code_unit) : Z := Z.land (ToUint32 (Z.of_N c)) 255.

Definition ustep (u b : Z) : Z :=
  Z.lxor (table_get (Z.land (Z.lxor u b) 255)) (Z.shiftr u 8).

(** The index of the table entry whose top byte is [x]. *)
Definition top_index (x : Z) : nat :=
  match find (fun k => Z.shiftr (nth k CRC32_TABLE 0) 24 =? x) (seq 0 256) with
  | Some k => k
  | None => 256
  end.

Definition table_entry_ok (k : nat) : bool :=
  let t := nth k CRC32_TABLE 0 in
  (0 <=? t) && (t <? 2 ^ 32) && (top_index (Z.shiftr t 24) =? k)%nat.

(** Reading lower-case hex digits back as a number. *)
Definition hex_digit_value (c : code_unit) : Z :=
  if (c <? 58)%N then Z.of_N c - 48 else Z.of_N c - 87.

Definition hex_read (s : jsstring) (a : Z) : Z :=
  fold_left (fun a c => 16 * a + hex_digit_value c) s a.

(** [one_change differ a b]: the strings [a] and [b] have the same
    length and differ at exactly one position, by characters that
    [differ] accepts. *)
Fixpoint one_change (differ : code_unit -> code_unit -> bool)
    (a b : jsstring) : bool :=
  match a, b with
  | x :: a', y :: b' =>
      if (x =? y)%N then one_change differ a' b'
      else differ x y && jsstring_eqb a' b'
  | _, _ => false
  end.

Definition any_change (x y : code_unit) : bool := true.

Definition low_byte_change (x y : code_unit) : bool :=
  negb (low_byte x =? low_byte y).

(** The three fields of a payload when all are strings. *)
Definition string_fields (p : json) : option (jsstring * jsstring * jsstring) :=
  match get_property p (js "s"), get_property p (js "src"),
        get_property p (js "cs") with
  | Some (JString s), Some (JString src), Some (JString cs) =>
      Some (s, src, cs)
  | _, _, _ => None
  end.

Inductive field : Type := field_s | field_src | field_cs.

(** The fields [new] are the fields [old] with one character of the
    field [f] changed; in [s], by a character with another low byte. *)
Definition field_changed (f : field)
    (old new : jsstring * jsstring * jsstring) : bool :=
  let '(s, src, cs) := old in
  let '(s', src', cs') := new in
  match f with
  | field_s =>
      one_change low_byte_change s s' && jsstring_eqb src src'
      && jsstring_eqb cs cs'
  | field_src =>
      jsstring_eqb s s' && one_change any_change src src'
      && jsstring_eqb cs cs'
  | field_cs =>
      jsstring_eqb s s' && jsstring_eqb src src'
      && one_change any_change cs cs'
  end.

Definition expected_error (f : field) : string :=
  match f with
  | field_src => UnknownSource
  | _ => ChecksumMismatch
  end.

(** *** Sessions *)

(** FoundSet within TargetSet: every found serial is a member of the
    target set. *)
Definition found_within_targets (st : scanner) : bool :=
  forallb (Set_has (targetSerials st)) (foundSerials st).

(** The calls of a session: no reset and no change of targets. *)
Definition session_op (op : operation) : bool :=
  match op with
  | SetTargetSerials _ | ResetFoundSerials => false
  | _ => true
  end.

(** The calls of a session that leave the callbacks as they are. *)
Definition scan_op (op : operation) : bool :=
  match op with
  | StartScanner _ _ _ | StopScanner | ScanResults _ | RenderTick _ _ => true
  | _ => false
  end.

(** The number of found notifications that carry the serial [v]. *)
Definition count_found (v : json) (evs : list event) : nat :=
  List.length
    (filter (fun e => match e with
                      | FoundCall s _ => sameValueZero s v
                      | _ => false
                      end) evs).

(** The state last passed to the border callback; [idle], the initial
    state of the user interface, when there was no call yet. *)
Definition last_reported (evs : list event) : BorderState :=
  fold_left (fun b e => match e with BorderCall b' => b' | _ => b end)
    evs idle.

Definition keeps_border_callback (op : operation) : bool :=
  match op with
  | SetOnBorderStateChange false => false
  | _ => true
  end.

(** Render ticks at the times [ts], in order. *)
Fixpoint render_ticks (object_label : json -> bool) (ts : list Z)
    (st : scanner) : scanner :=
  match ts with
  | [] => st
  | t :: rest =>
      render_ticks object_label rest (fst (fst (drawOverlays object_label t st)))
  end.

(** The times [ts] do not decrease and none is before [from]. *)
Fixpoint nondecreasing (from : Z) (ts : list Z) : bool :=
  match ts with
  | [] => true
  | t :: rest => (from <=? t) && nondecreasing t rest
  end.

(** The last of the ticks [ts] that sees an entry detected at [T0],
    that is, comes no later than the visibility timeout after it;
    [lft] when there is none. *)
Definition last_sighting (T0 lft : Z) (ts : list Z) : Z :=
  fold_left
    (fun l t => if t - T0 <=? QR_VISIBILITY_TIMEOUT then t else l) ts lft.

(** A detector result for the payload of a serial, without geometry. *)
Definition barcode_of (serial : string) : barcode :=
  {| rawValue := encodeQRPayload (js serial); cornerPoints := None;
     boundingBox := None |}.

Definition every_label (v : json) : bool := true.

(** The found notifications of [evs] carry the FoundSet as it was right
    after their serial was added, on the way from [f] to [f']. *)
Definition snapshots_between (f f' : list json) (evs : list event) : Prop :=
  forall s snap,
    In (FoundCall s snap) evs ->
    (exists earlier, snap = f ++ earlier ++ [s])
    /\ (exists later, f' = snap ++ later).

(** The number of found notifications for [serial] on the way from the
    FoundSet [f] to [f']: one if the serial is new in [f'], none
    otherwise. *)
Definition found_count_law (serial : jsstring) (f f' : list json)
    (evs : list event) : Prop :=
  count_found (JString serial) evs
  = (if Set_has f (JString serial) then 0
     else if Set_has f' (JString serial) then 1 else 0)%nat.

(** The entries that a call of [drawOverlays] reads as visible. *)
Definition entries_read (object_label : json -> bool) (now : Z)
    (st : scanner) : list (json * qrdata) :=
  if overlayReady st then
    entries_live
      (draw_loop object_label now (visibleQRs st) false (lastFoundTime st))
  else [].

Definition last_reported_from (b : BorderState) (evs : list event)
  : BorderState :=
  fold_left (fun b e => match e with BorderCall b' => b' | _ => b end) evs b.

(** The border state is the state last reported, and nothing was
    reported while no callback was registered. *)
Definition border_in_step (st : scanner) (b : BorderState) : Prop :=
  currentBorderState st = b
  /\ (onBorderStateChange st = false -> b = idle).

(** The state of the tracker and of the border between render ticks,
    after a target [serial] was detected at [T0] and nothing else:
    either the entry is still in the map, or a tick has removed it. *)
Definition sighting_state (serial : jsstring) (T0 : Z) (bounds : option bounds)
    (st : scanner) (removed : bool) : Prop :=
  overlayReady st = true
  /\ onBorderStateChange st = true
  /\ is_nil (targetSerials st) = false
  /\ visibleQRs st
     = if removed then []
       else [(JString serial,
              {| qbounds := bounds; lastSeen := T0; isTarget := true |})].

(** A digit or a letter from [a] to [f]. *)
Definition is_lower_hex (c : code_unit) : bool :=
  (((48 <=? c) && (c <=? 57)) || ((97 <=? c) && (c <=? 102)))%N.

(** *** Frames *)

(** A readable code of another scheme: [decodeQRPayload] returns, with a
    result that is not valid. *)
Definition is_foreign (b : barcode) : bool :=
  match decodeQRPayload (rawValue b) with
  | Returns parsed => negb (valid parsed)
  | Throws_TypeError => false
  end.

(** *** getScannerState (lines 352-360) *)

Record scanner_state : Type := {
  state_isScanning : bool;
  targetCount : nat;
  foundCount : nat;
  state_foundSerials : list json;
  state_targetSerials : list json
}.

Definition getScannerState (st : scanner) : scanner_state :=
  {| state_isScanning := isScanning st;
     targetCount := List.length (targetSerials st);
     foundCount := List.length (foundSerials st);
     state_foundSerials := foundSerials st;
     state_targetSerials := targetSerials st |}.

Definition isScannerActive (st : scanner) : bool := isScanning st.

Definition is_string (v : json) : bool :=
  match v with JString _ => true | _ => false end.

(** The sets of a session as the code builds them: serial strings, each
    once, the found ones among the targets. *)
Definition sets_well_formed (st : scanner) : Prop :=
  forallb is_string (targetSerials st) = true
  /\ NoDup (targetSerials st)
  /\ NoDup (foundSerials st)
  /\ incl (foundSerials st) (targetSerials st).

(** The target flag of every visible entry is its membership in
    TargetSet, and a visible target is in FoundSet. *)
Definition visible_flags_agree (st : scanner) : Prop :=
  forall k d,
    In (k, d) (visibleQRs st) ->
    isTarget d = Set_has (targetSerials st) k
    /\ (isTarget d = true -> Set_has (foundSerials st) k = true).

(** Render ticks come from the animation loop, which runs only while
    scanning: [ops] has its render ticks at scanning states. *)
Fixpoint ticks_while_scanning (ops : list operation) (st : scanner) : bool :=
  match ops with
  | [] => true
  | op :: rest =>
      match op with
      | RenderTick _ _ => isScanning st
      | _ => true
      end && ticks_while_scanning rest (fst (step op st))
  end.

(** The border state is [idle] while no border callback is registered,
    while scanning is off and while TargetSet is empty. *)
Definition idle_when_inactive (st : scanner) : Prop :=
  (onBorderStateChange st = false -> currentBorderState st = idle)
  /\ (isScanning st = false -> currentBorderState st = idle)
  /\ (is_nil (targetSerials st) = true -> currentBorderState st = idle).

(** The first and the last character of a string are not white space. *)
Definition trimmed (s : jsstring) : Prop :=
  match s with c :: _ => is_trimmed c = false | [] => True end
  /\ match rev s with c :: _ => is_trimmed c = false | [] => True end.

(** ** The label generator (src/unnamed/part_000: the PDF generator
    module)

    Lengths are millimetres.  The QR bitmap ([QRCode.toDataURL]) and the
    font metric behind the horizontal position of the text
    ([pdf.getTextWidth]) belong to libraries; an image is recorded by
    the payload it encodes and a text by its string and baseline. *)

Definition A4_WIDTH_MM : Z := 210.
Definition A4_HEIGHT_MM : Z := 297.
Definition QR_SIZE_MM : Z := 40.
Definition LABEL_HEIGHT_MM : Z := 8.
Definition CELL_HEIGHT_MM : Z := QR_SIZE_MM + LABEL_HEIGHT_MM + 5.
Definition CELL_WIDTH_MM : Z := QR_SIZE_MM + 10.
Definition MARGIN_MM : Z := 10.

(** [Math.floor] of a quotient of positive integers. *)
Definition COLS : Z := (A4_WIDTH_MM - 2 * MARGIN_MM) / CELL_WIDTH_MM.
Definition ROWS : Z := (A4_HEIGHT_MM - 2 * MARGIN_MM) / CELL_HEIGHT_MM.
Definition PER_PAGE : Z := COLS * ROWS.

(** [parseSerialNumbers] (lines 46-51). *)
Definition parseSerialNumbers (input : jsstring) : list jsstring :=
  filter (fun s => negb (is_nil s))
    (map trim (split (fun c => (c =? 10)%N || (c =? 44)%N) input)).

Record placement : Type := {
  pageIndex : Z;
  positionOnPage : Z;
  col : Z;
  row : Z;
  qr_x : Z;
  qr_y : Z;
  textY : Z;
  cell_x : Z;
  cell_y : Z
}.

(** The positions computed in the loop of [generatePDF] for the label
    of index [i] (lines 74-108). *)
Definition place (i : Z) : placement :=
  let pageIndex := i / PER_PAGE in
  let positionOnPage := i mod PER_PAGE in
  let col := positionOnPage mod COLS in
  let row := positionOnPage / COLS in
  let x := MARGIN_MM + col * CELL_WIDTH_MM + (CELL_WIDTH_MM - QR_SIZE_MM) / 2 in
  let y := MARGIN_MM + row * CELL_HEIGHT_MM in
  {| pageIndex := pageIndex; positionOnPage := positionOnPage;
     col := col; row := row; qr_x := x; qr_y := y;
     textY := y + QR_SIZE_MM + 5;
     cell_x := MARGIN_MM + col * CELL_WIDTH_MM;
     cell_y := MARGIN_MM + row * CELL_HEIGHT_MM |}.







(** Two cells of one page overlap in more than an edge. *)
Definition cells_overlap (p q : placement) : bool :=
  (pageIndex p =? pageIndex q)
  && (cell_x p <? cell_x q + CELL_WIDTH_MM)
  && (cell_x q <? cell_x p + CELL_WIDTH_MM)
  && (cell_y p <? cell_y q + CELL_HEIGHT_MM)
  && (cell_y q <? cell_y p + CELL_HEIGHT_MM).


(** ** The user interface store (ui.js)

    The scanner part of the Alpine store, together with the scanner
    module it drives.  The two callbacks that [init] registers copy the
    found list and the border state into the store.  Asynchronous
    methods are taken at their completion. *)

Inductive app_mode : Type := mode_scanner | mode_generator.

Definition app_mode_eqb (a b : app_mode) : bool :=
  match a, b with
  | mode_scanner, mode_scanner | mode_generator, mode_generator => true
  | _, _ => false
  end.

Record store : Type := {
  mode : app_mode;
  scannerActive : bool;
  searchInput : jsstring;
  borderState : BorderState;
  store_foundSerials : list json;
  store_targetCount : nat;
  scannerError : option jsstring;
  cameraAvailable : bool
}.

Definition initial_store : store := {|
  mode := mode_scanner;
  scannerActive := false;
  searchInput := [];
  borderState := idle;
  store_foundSerials := [];
  store_targetCount := 0;
  scannerError := None;
  cameraAvailable := true
|}.

(** The callbacks registered by [init] (lines 51-57), applied to the
    calls that a scanner operation made. *)
Definition on_event (ui : store) (e : event) : store :=
  match e with
  | FoundCall _ allFound =>
      {| mode := mode ui; scannerActive := scannerActive ui;
         searchInput := searchInput ui; borderState := borderState ui;
         store_foundSerials := allFound;
         store_targetCount := store_targetCount ui;
         scannerError := scannerError ui;
         cameraAvailable := cameraAvailable ui |}
  | BorderCall state =>
      {| mode := mode ui; scannerActive := scannerActive ui;
         searchInput := searchInput ui; borderState := state;
         store_foundSerials := store_foundSerials ui;
         store_targetCount := store_targetCount ui;
         scannerError := scannerError ui;
         cameraAvailable := cameraAvailable ui |}
  | Vibrate => ui
  end.

Definition on_events (ui : store) (evs : list event) : store :=
  fold_left on_event evs ui.

(** [String.prototype.includes]. *)
Fixpoint includes (hay needle : jsstring) : bool :=
  match strip_prefix needle hay with
  | Some _ => true
  | None =>
      match hay with
      | [] => false
      | _ :: hay' => includes hay' needle
      end
  end.

(** [getCameraErrorMessage] (lines 130-147), on the text of the error
    ([err.message || err.toString()]). *)
Definition getCameraErrorMessage (message : jsstring) : jsstring :=
  if includes message (js "NotAllowedError") || includes message (js "Permission")
  then js "Camera permission denied. Please allow camera access in your browser settings."
  else if includes message (js "NotFoundError") || includes message (js "not found")
  then js "No camera found on this device."
  else if includes message (js "NotReadableError") || includes message (js "in use")
  then js "Camera is in use by another application."
  else if includes message (js "OverconstrainedError")
  then js "Camera does not meet the required constraints."
  else js "Camera error: " ++ message.

Definition set_scannerActive (b : bool) (ui : store) : store :=
  {| mode := mode ui; scannerActive := b;
     searchInput := searchInput ui; borderState := borderState ui;
     store_foundSerials := store_foundSerials ui;
     store_targetCount := store_targetCount ui;
     scannerError := scannerError ui;
     cameraAvailable := cameraAvailable ui |}.

Definition set_searchInput (t : jsstring) (ui : store) : store :=
  {| mode := mode ui; scannerActive := scannerActive ui;
     searchInput := t; borderState := borderState ui;
     store_foundSerials := store_foundSerials ui;
     store_targetCount := store_targetCount ui;
     scannerError := scannerError ui;
     cameraAvailable := cameraAvailable ui |}.

Definition set_borderState (b : BorderState) (ui : store) : store :=
  {| mode := mode ui; scannerActive := scannerActive ui;
     searchInput := searchInput ui; borderState := b;
     store_foundSerials := store_foundSerials ui;
     store_targetCount := store_targetCount ui;
     scannerError := scannerError ui;
     cameraAvailable := cameraAvailable ui |}.

Definition set_store_foundSerials (f : list json) (ui : store) : store :=
  {| mode := mode ui; scannerActive := scannerActive ui;
     searchInput := searchInput ui; borderState := borderState ui;
     store_foundSerials := f;
     store_targetCount := store_targetCount ui;
     scannerError := scannerError ui;
     cameraAvailable := cameraAvailable ui |}.

Definition set_store_targetCount (n : nat) (ui : store) : store :=
  {| mode := mode ui; scannerActive := scannerActive ui;
     searchInput := searchInput ui; borderState := borderState ui;
     store_foundSerials := store_foundSerials ui;
     store_targetCount := n;
     scannerError := scannerError ui;
     cameraAvailable := cameraAvailable ui |}.

Definition set_scannerError (e : option jsstring) (ui : store) : store :=
  {| mode := mode ui; scannerActive := scannerActive ui;
     searchInput := searchInput ui; borderState := borderState ui;
     store_foundSerials := store_foundSerials ui;
     store_targetCount := store_targetCount ui;
     scannerError := e;
     cameraAvailable := cameraAvailable ui |}.

Definition set_mode (m : app_mode) (ui : store) : store :=
  {| mode := m; scannerActive := scannerActive ui;
     searchInput := searchInput ui; borderState := borderState ui;
     store_foundSerials := store_foundSerials ui;
     store_targetCount := store_targetCount ui;
     scannerError := scannerError ui;
     cameraAvailable := cameraAvailable ui |}.

Definition set_cameraAvailable (b : bool) (ui : store) : store :=
  {| mode := mode ui; scannerActive := scannerActive ui;
     searchInput := searchInput ui; borderState := borderState ui;
     store_foundSerials := store_foundSerials ui;
     store_targetCount := store_targetCount ui;
     scannerError := scannerError ui;
     cameraAvailable := b |}.

Definition app_state : Type := (store * scanner)%type.

(** [init] (lines 46-58). *)
Definition ui_init (camera : bool) (a : app_state) : app_state :=
  let '(ui, sc) := a in
  (set_cameraAvailable camera ui,
   setOnBorderStateChange true (setOnFoundCallback true sc)).

(** [updateSearchTargets] (lines 89-92). *)
Definition ui_updateSearchTargets (a : app_state) : app_state :=
  let '(ui, sc) := a in
  let '(sc1, evs, count) := setTargetSerials (searchInput ui) sc in
  (set_store_foundSerials [] (set_store_targetCount count (on_events ui evs)),
   sc1).

(** The store's [startScanner] (lines 61-77): the scanner's
    [startScanner] throws for a missing container, with its own message,
    or for a camera failure, with the message of that error. *)
Definition ui_startScanner (containerFound contextOk cameraOk : bool)
    (cameraMessage : jsstring) (a : app_state) : app_state :=
  let '(ui, sc) := a in
  if scannerActive ui then a
  else
    let ui1 := set_scannerError None ui in
    let '(sc1, evs) := startScanner containerFound contextOk cameraOk sc in
    let ui2 := on_events ui1 evs in
    if isScanning sc then
      (* the scanner returns at once *)
      let ui3 := set_scannerActive true ui2 in
      if negb (is_nil (trim (searchInput ui3)))
      then ui_updateSearchTargets (ui3, sc1) else (ui3, sc1)
    else if negb containerFound then
      (set_scannerError
         (Some (getCameraErrorMessage (js "Container element not found")))
         ui2, sc1)
    else if negb cameraOk then
      (set_scannerError (Some (getCameraErrorMessage cameraMessage)) ui2, sc1)
    else
      let ui3 := set_scannerActive true ui2 in
      if negb (is_nil (trim (searchInput ui3)))
      then ui_updateSearchTargets (ui3, sc1) else (ui3, sc1).

(** The store's [stopScanner] (lines 80-86). *)
Definition ui_stopScanner (a : app_state) : app_state :=
  let '(ui, sc) := a in
  if negb (scannerActive ui) then a
  else
    let '(sc1, evs) := stopScanner sc in
    (set_borderState idle (set_scannerActive false (on_events ui evs)), sc1).

(** [resetSearch] (lines 95-98). *)
Definition ui_resetSearch (a : app_state) : app_state :=
  let '(ui, sc) := a in
  let '(sc1, evs) := resetFoundSerials sc in
  (set_store_foundSerials [] (on_events ui evs), sc1).

(** [switchMode] (lines 150-159). *)
Definition ui_switchMode (newMode : app_mode) (a : app_state) : app_state :=
  let '(ui, sc) := a in
  if app_mode_eqb newMode (mode ui) then a
  else
    let '(ui1, sc1) :=
      if app_mode_eqb (mode ui) mode_scanner && scannerActive ui
      then ui_stopScanner a else a in
    (set_mode newMode ui1, sc1).

Inductive ui_action : Type :=
| Init (camera : bool)
| ClickStart (containerFound contextOk cameraOk : bool)
    (cameraMessage : jsstring)
| ClickStop
| TypeSearch (text : jsstring)       (* the bound search input *)
| UpdateSearchTargets
| ResetSearch
| SwitchMode (newMode : app_mode)
| Frame (bs : list (barcode * Z))    (* a detection result arrives *)
| Animation (object_label : json -> bool) (now : Z).

Definition ui_step (act : ui_action) (a : app_state) : app_state :=
  match act with
  | Init camera => ui_init camera a
  | ClickStart c x m msg => ui_startScanner c x m msg a
  | ClickStop => ui_stopScanner a
  | TypeSearch t => (set_searchInput t (fst a), snd a)
  | UpdateSearchTargets => ui_updateSearchTargets a
  | ResetSearch => ui_resetSearch a
  | SwitchMode m => ui_switchMode m a
  | Frame bs =>
      let '(sc1, evs) := processBarcodes bs (snd a) in
      (on_events (fst a) evs, sc1)
  | Animation object_label now =>
      let '(sc1, evs, _) := drawOverlays object_label now (snd a) in
      (on_events (fst a) evs, sc1)
  end.

Definition ui_run (acts : list ui_action) (a : app_state) : app_state :=
  fold_left (fun a act => ui_step act a) acts a.

(** The store shows what the scanner holds. *)
Definition store_mirrors (a : app_state) : Prop :=
  let '(ui, sc) := a in
  onFoundCallback sc = true
  /\ onBorderStateChange sc = true
  /\ store_foundSerials ui = foundSerials sc
  /\ borderState ui = currentBorderState sc
  /\ scannerActive ui = isScanning sc
  /\ (List.length (targetSerials sc) <= store_targetCount ui)%nat.

(** * Properties *)

(** ** Strings *)

Lemma jsstring_eqb_refl (s : jsstring) : jsstring_eqb s s = true.
Proof.
  induction s as [|c s IH]; simpl; [reflexivity|].
  unfold code_unit_eqb. rewrite N.eqb_refl. exact IH.
Qed.

Lemma jsstring_eqb_eq (a b : jsstring) : jsstring_eqb a b = true <-> a = b.
Proof.
  split.
  - revert b. induction a as [|x a IH]; intros [|y b] H; simpl in H;
      try discriminate; [reflexivity|].
    apply andb_true_iff in H. destruct H as [Hxy Hab].
    apply N.eqb_eq in Hxy. subst y. f_equal. apply IH. exact Hab.
  - intros <-. apply jsstring_eqb_refl.
Qed.

Lemma jsstring_eqb_neq (a b : jsstring) : a <> b -> jsstring_eqb a b = false.
Proof.
  intros H. destruct (jsstring_eqb a b) eqn:E; [|reflexivity].
  apply jsstring_eqb_eq in E. contradiction.
Qed.

Lemma padStart_length (n : nat) (fill : code_unit) (s : jsstring) :
  (n <= List.length (padStart n fill s))%nat.
Proof.
  unfold padStart. rewrite length_app, repeat_length. lia.
Qed.

Lemma calculateCRC32_not_nil (str : jsstring) :
  is_nil (calculateCRC32 str) = false.
Proof.
  unfold calculateCRC32.
  pose proof (padStart_length 8 48%N
    (integer_toString 16 (ushr (bitxor (fold_left crc_step str 4294967295)
                                  4294967295) 0))) as H.
  destruct (padStart _ _ _); simpl in *; [lia|reflexivity].
Qed.

(** ** The checksum

    The 32-bit operations of the language, read through [ToUint32], are
    the bitwise operations on the low 32 bits. *)


Lemma ToUint32_range (z : Z) : 0 <= ToUint32 z < 2 ^ 32.
Proof. unfold ToUint32. apply Z.mod_pos_bound. lia. Qed.

Lemma ToUint32_small (z : Z) : 0 <= z < 2 ^ 32 -> ToUint32 z = z.
Proof. intros H. unfold ToUint32. apply Z.mod_small. exact H. Qed.

Lemma ToUint32_ToInt32 (z : Z) : ToUint32 (ToInt32 z) = ToUint32 z.
Proof.
  unfold ToInt32, ToUint32.
  destruct (z mod 2 ^ 32 <? 2 ^ 31).
  - apply Z.mod_mod. lia.
  - replace (z mod 2 ^ 32 - 2 ^ 32) with (z mod 2 ^ 32 + (-1) * 2 ^ 32) by lia.
    rewrite Z.mod_add by lia. apply Z.mod_mod. lia.
Qed.

Lemma ToUint32_land_ones (z : Z) : ToUint32 z = Z.land z (Z.ones 32).
Proof. unfold ToUint32. rewrite Z.land_ones by lia. reflexivity. Qed.

Lemma ToUint32_lxor (a b : Z) :
  ToUint32 (Z.lxor a b) = Z.lxor (ToUint32 a) (ToUint32 b).
Proof.
  rewrite !ToUint32_land_ones. apply Z.bits_inj'. intros n Hn.
  rewrite Z.lxor_spec, !Z.land_spec, Z.lxor_spec.
  destruct (Z.testbit (Z.ones 32) n); 
    rewrite ?andb_true_r, ?andb_false_r; reflexivity.
Qed.

Lemma ToUint32_land (a b : Z) :
  ToUint32 (Z.land a b) = Z.land (ToUint32 a) (ToUint32 b).
Proof.
  rewrite !ToUint32_land_ones. apply Z.bits_inj'. intros n Hn.
  rewrite !Z.land_spec.
  destruct (Z.testbit a n), (Z.testbit b n), (Z.testbit (Z.ones 32) n);
    reflexivity.
Qed.

Lemma ToUint32_bitxor (a b : Z) :
  ToUint32 (bitxor a b) = Z.lxor (ToUint32 a) (ToUint32 b).
Proof.
  unfold bitxor. rewrite ToUint32_ToInt32, ToUint32_lxor, !ToUint32_ToInt32.
  reflexivity.
Qed.

Lemma ToUint32_bitand (a b : Z) :
  ToUint32 (bitand a b) = Z.land (ToUint32 a) (ToUint32 b).
Proof.
  unfold bitand. rewrite ToUint32_ToInt32, ToUint32_land, !ToUint32_ToInt32.
  reflexivity.
Qed.

Lemma land_255_range (a : Z) : 0 <= Z.land a 255 < 256.
Proof.
  change 255 with (Z.ones 8). rewrite Z.land_ones by lia.
  apply Z.mod_pos_bound. lia.
Qed.

Lemma ToInt32_small (z : Z) : 0 <= z < 2 ^ 31 -> ToInt32 z = z.
Proof.
  intros H. unfold ToInt32. rewrite Z.mod_small by lia.
  destruct (z <? 2 ^ 31) eqn:E; [reflexivity|]. apply Z.ltb_ge in E. lia.
Qed.

Lemma bitand_255 (a : Z) : bitand a 255 = Z.land (ToUint32 a) 255.
Proof.
  assert (Hr : 0 <= bitand a 255 < 2 ^ 32).
  { unfold bitand. change (ToInt32 255) with 255.
    pose proof (land_255_range (ToInt32 a)) as Hr'.
    rewrite ToInt32_small by lia. lia. }
  rewrite <- (ToUint32_small (bitand a 255) Hr), ToUint32_bitand.
  reflexivity.
Qed.

Lemma ushr_shiftr (a n : Z) : 0 <= n < 32 -> ushr a n = Z.shiftr (ToUint32 a) n.
Proof. intros H. unfold ushr. rewrite Z.mod_small by lia. reflexivity. Qed.

Lemma shiftr_range (u n : Z) : 0 <= n -> 0 <= u < 2 ^ 32 -> 0 <= Z.shiftr u n < 2 ^ 32.
Proof.
  intros Hn Hu. rewrite Z.shiftr_div_pow2 by lia.
  assert (0 < 2 ^ n) by (apply Z.pow_pos_nonneg; lia).
  split; [apply Z.div_pos; lia|].
  apply Z.le_lt_trans with u; [|lia].
  apply Z.div_le_upper_bound; nia.
Qed.

Lemma table_entries_ok : forallb table_entry_ok (seq 0 256) = true.
Proof. vm_compute. reflexivity. Qed.

Lemma table_get_ok (i : Z) :
  0 <= i < 256 ->
  0 <= table_get i < 2 ^ 32
  /\ top_index (Z.shiftr (table_get i) 24) = Z.to_nat i.
Proof.
  intros Hi.
  pose proof (proj1 (forallb_forall _ _) table_entries_ok (Z.to_nat i)) as H.
  unfold table_entry_ok in H. cbv zeta in H. 
  assert (Hin : In (Z.to_nat i) (seq 0 256)) by (apply in_seq; lia).
  specialize (H Hin).
  apply andb_true_iff in H. destruct H as [H H3].
  apply andb_true_iff in H. destruct H as [H1 H2].
  apply Z.leb_le in H1. apply Z.ltb_lt in H2. apply Nat.eqb_eq in H3.
  unfold table_get. split; [lia|exact H3].
Qed.

Lemma table_get_top_inj (i j : Z) :
  0 <= i < 256 -> 0 <= j < 256 ->
  Z.shiftr (table_get i) 24 = Z.shiftr (table_get j) 24 -> i = j.
Proof.
  intros Hi Hj E.
  destruct (table_get_ok i Hi) as [_ Ei].
  destruct (table_get_ok j Hj) as [_ Ej].
  rewrite E, Ej in Ei. lia.
Qed.

Lemma ToUint32_crc_step (crc : Z) (c : code_unit) :
  ToUint32 (crc_step crc c) = ustep (ToUint32 crc) (low_byte c).
Proof.
  unfold crc_step, ustep, low_byte.
  rewrite ToUint32_bitxor, !bitand_255, ToUint32_bitxor.
  rewrite ushr_shiftr by lia.
  pose proof (land_255_range (ToUint32 (Z.of_N c))) as Hb.
  rewrite (ToUint32_small (Z.land (ToUint32 (Z.of_N c)) 255)) by lia.
  set (i := Z.land _ 255).
  pose proof (land_255_range (Z.lxor (ToUint32 crc)
     (Z.land (ToUint32 (Z.of_N c)) 255))) as Hi. fold i in Hi.
  destruct (table_get_ok i Hi) as [Ht _].
  rewrite (ToUint32_small (table_get i)) by exact Ht.
  rewrite ToUint32_small; [reflexivity|].
  apply shiftr_range; [lia|apply ToUint32_range].
Qed.

Lemma lxor_cancel_l (a b c : Z) : Z.lxor a b = Z.lxor a c -> b = c.
Proof.
  intros H. 
  assert (Z.lxor a (Z.lxor a b) = Z.lxor a (Z.lxor a c)) by (rewrite H; reflexivity).
  rewrite <- !Z.lxor_assoc, Z.lxor_nilpotent, !Z.lxor_0_l in H0. exact H0.
Qed.

Lemma land_lxor_255 (a b : Z) :
  Z.land (Z.lxor a b) 255 = Z.lxor (Z.land a 255) (Z.land b 255).
Proof.
  apply Z.bits_inj'. intros n Hn.
  rewrite Z.lxor_spec, !Z.land_spec, Z.lxor_spec.
  destruct (Z.testbit 255 n); rewrite ?andb_true_r, ?andb_false_r; reflexivity.
Qed.

Lemma split_low_byte (u : Z) : u = 256 * Z.shiftr u 8 + Z.land u 255.
Proof.
  rewrite Z.shiftr_div_pow2 by lia. change 255 with (Z.ones 8).
  rewrite Z.land_ones by lia. change (2 ^ 8) with 256.
  apply Z.div_mod. lia.
Qed.

Lemma ustep_top (u b : Z) :
  0 <= u < 2 ^ 32 ->
  Z.shiftr (ustep u b) 24 = Z.shiftr (table_get (Z.land (Z.lxor u b) 255)) 24.
Proof.
  intros Hu. unfold ustep. rewrite Z.shiftr_lxor, Z.shiftr_shiftr by lia.
  rewrite (Z.shiftr_div_pow2 u) by lia. rewrite Z.div_small by (simpl; lia).
  apply Z.lxor_0_r.
Qed.

Lemma ustep_inj_state (u1 u2 b : Z) :
  0 <= u1 < 2 ^ 32 -> 0 <= u2 < 2 ^ 32 ->
  ustep u1 b = ustep u2 b -> u1 = u2.
Proof.
  intros H1 H2 E.
  assert (Ei : Z.land (Z.lxor u1 b) 255 = Z.land (Z.lxor u2 b) 255).
  { apply table_get_top_inj; try apply land_255_range.
    rewrite <- !ustep_top by assumption. rewrite E. reflexivity. }
  unfold ustep in E. rewrite Ei in E. apply lxor_cancel_l in E.
  rewrite !land_lxor_255 in Ei. rewrite (Z.lxor_comm _ (Z.land b 255)) in Ei.
  rewrite (Z.lxor_comm (Z.land u2 255)) in Ei. apply lxor_cancel_l in Ei.
  rewrite (split_low_byte u1), (split_low_byte u2). lia.
Qed.

Lemma ustep_inj_byte (u b1 b2 : Z) :
  0 <= b1 < 256 -> 0 <= b2 < 256 ->
  ustep u b1 = ustep u b2 -> b1 = b2.
Proof.
  intros H1 H2 E. unfold ustep in E.
  rewrite (Z.lxor_comm _ (Z.shiftr u 8)), (Z.lxor_comm (table_get _)) in E.
  apply lxor_cancel_l in E.
  assert (Ei : Z.land (Z.lxor u b1) 255 = Z.land (Z.lxor u b2) 255).
  { apply table_get_top_inj; try apply land_255_range. rewrite E. reflexivity. }
  rewrite !land_lxor_255 in Ei. apply lxor_cancel_l in Ei.
  change 255 with (Z.ones 8) in Ei. rewrite !Z.land_ones in Ei by lia.
  rewrite !Z.mod_small in Ei by (simpl; lia). exact Ei.
Qed.

Lemma low_byte_range (c : code_unit) : 0 <= low_byte c < 256.
Proof. apply land_255_range. Qed.

Lemma fold_left_cons {A B : Type} (f : A -> B -> A) (x : B) (l : list B)
    (a : A) :
  fold_left f (x :: l) a = fold_left f l (f a x).
Proof. reflexivity. Qed.

Lemma fold_crc_congr (l : jsstring) :
  forall a b : Z,
    ToUint32 a = ToUint32 b ->
    ToUint32 (fold_left crc_step l a) = ToUint32 (fold_left crc_step l b).
Proof.
  induction l as [|c l IH]; intros a b E.
  - exact E.
  - rewrite !fold_left_cons. apply IH.
    rewrite !ToUint32_crc_step, E. reflexivity.
Qed.

Lemma fold_crc_inj (l : jsstring) :
  forall a b : Z,
    ToUint32 (fold_left crc_step l a) = ToUint32 (fold_left crc_step l b) ->
    ToUint32 a = ToUint32 b.
Proof.
  induction l as [|c l IH]; intros a b E.
  - exact E.
  - rewrite !fold_left_cons in E. apply IH in E.
    rewrite !ToUint32_crc_step in E.
    apply ustep_inj_state in E; [exact E| |]; apply ToUint32_range.
Qed.

(** The state of the checksum loop tells apart two strings that differ in
    the low byte of one character. *)
Lemma fold_crc_single_change (pre post : jsstring) (c c' : code_unit) (a : Z) :
  low_byte c <> low_byte c' ->
  ToUint32 (fold_left crc_step (pre ++ c :: post) a)
  <> ToUint32 (fold_left crc_step (pre ++ c' :: post) a).
Proof.
  intros Hne E. rewrite !fold_left_app, !fold_left_cons in E.
  apply fold_crc_inj in E. rewrite !ToUint32_crc_step in E.
  apply ustep_inj_byte in E; [contradiction| |]; apply low_byte_range.
Qed.

Lemma hex_digit_value_radix_digit (d : Z) :
  0 <= d < 16 -> hex_digit_value (radix_digit d) = d.
Proof.
  intros H. unfold radix_digit, hex_digit_value.
  destruct (d <? 10) eqn:E.
  - apply Z.ltb_lt in E.
    destruct (Z.to_N (48 + d) <? 58)%N eqn:E'; [lia|].
    apply N.ltb_ge in E'. lia.
  - apply Z.ltb_ge in E.
    destruct (Z.to_N (87 + d) <? 58)%N eqn:E'; [|lia].
    apply N.ltb_lt in E'. lia.
Qed.

Lemma hex_read_to_radix (fuel : nat) :
  forall (n : Z) (acc : jsstring),
    0 <= n < 16 ^ Z.of_nat fuel ->
    hex_read (to_radix 16 fuel n acc) 0 = hex_read acc n.
Proof.
  induction fuel as [|f IH]; intros n acc Hn.
  - simpl in *. assert (n = 0) by lia. subst n. reflexivity.
  - cbn [to_radix]. 
    assert (Hd : 0 <= n mod 16 < 16) by (apply Z.mod_pos_bound; lia).
    destruct (n <? 16) eqn:E.
    + apply Z.ltb_lt in E. unfold hex_read. cbn [fold_left].
      rewrite hex_digit_value_radix_digit by exact Hd.
      rewrite Z.mod_small by lia. reflexivity.
    + apply Z.ltb_ge in E. rewrite IH.
      * unfold hex_read. cbn [fold_left].
        rewrite hex_digit_value_radix_digit by exact Hd.
        f_equal. pose proof (Z.div_mod n 16). lia.
      * rewrite Nat2Z.inj_succ, Z.pow_succ_r in Hn by lia.
        split; [apply Z.div_pos; lia|].
        apply Z.div_lt_upper_bound; lia.
Qed.

Lemma hex_read_integer_toString (n : Z) :
  0 <= n -> hex_read (integer_toString 16 n) 0 = n.
Proof.
  intros Hn. unfold integer_toString. rewrite hex_read_to_radix; [reflexivity|].
  split; [exact Hn|].
  rewrite Nat2Z.inj_succ, Z2Nat.id by apply Z.log2_nonneg.
  destruct (Z.eq_dec n 0) as [->|Hnz]; [reflexivity|].
  apply Z.lt_le_trans with (2 ^ Z.succ (Z.log2 n)).
  - apply Z.log2_spec. lia.
  - apply Z.pow_le_mono_l. lia.
Qed.

Lemma hex_read_padStart (k : nat) (s : jsstring) :
  hex_read (padStart k 48%N s) 0 = hex_read s 0.
Proof.
  unfold padStart, hex_read. rewrite fold_left_app. f_equal.
  induction (k - List.length s)%nat as [|m IH]; [reflexivity|].
  simpl. exact IH.
Qed.

Lemma calculateCRC32_state (str : jsstring) :
  hex_read (calculateCRC32 str) 0
  = Z.lxor (ToUint32 (fold_left crc_step str 0xFFFFFFFF)) 0xFFFFFFFF.
Proof.
  unfold calculateCRC32. rewrite hex_read_padStart.
  rewrite ushr_shiftr by lia. rewrite Z.shiftr_0_r.
  rewrite hex_read_integer_toString by apply ToUint32_range.
  rewrite ToUint32_bitxor. reflexivity.
Qed.

(** Changing the low byte of one character changes the checksum. *)
Lemma calculateCRC32_single_change (pre post : jsstring) (c c' : code_unit) :
  low_byte c <> low_byte c' ->
  calculateCRC32 (pre ++ c :: post) <> calculateCRC32 (pre ++ c' :: post).
Proof.
  intros Hne E.
  apply (f_equal (fun s => hex_read s 0)) in E.
  rewrite !calculateCRC32_state in E.
  rewrite (Z.lxor_comm _ 0xFFFFFFFF), (Z.lxor_comm (ToUint32 _)) in E.
  apply lxor_cancel_l in E.
  exact (fold_crc_single_change pre post c c' _ Hne E).
Qed.

(** ** JSON text of a string *)

Lemma escape_reads_back_control :
  forallb (fun k => escape_reads_back (N.of_nat k)) (seq 0 32) = true.
Proof. vm_compute. reflexivity. Qed.

Lemma escape_reads_back_surrogate :
  forallb (fun k => escape_reads_back (0xD800 + N.of_nat k)%N) (seq 0 2048)
  = true.
Proof. vm_compute. reflexivity. Qed.

Lemma escape_reads_back_range (c : code_unit) :
  escaped_range c -> escape_reads_back c = true.
Proof.
  intros [Hc|Hc].
  - pose proof (proj1 (forallb_forall _ _) escape_reads_back_control
                  (N.to_nat c)) as H.
    cbv beta in H. rewrite N2Nat.id in H. apply H. apply in_seq. lia.
  - pose proof (proj1 (forallb_forall _ _) escape_reads_back_surrogate
                  (N.to_nat (c - 0xD800))) as H.
    cbv beta in H. rewrite N2Nat.id in H.
    replace (0xD800 + (c - 0xD800))%N with c in H by lia.
    apply H. apply in_seq. lia.
Qed.

Lemma unicode_escape_hex4 (c : code_unit) :
  escaped_range c ->
  exists h1 h2 h3 h4,
    unicode_escape c = [92; 117; h1; h2; h3; h4]%N
    /\ hex4 h1 h2 h3 h4 = Some c.
Proof.
  intros Hc.
  pose proof (escape_reads_back_range c Hc) as H.
  unfold escape_reads_back in H.
  destruct (unicode_escape c) as [|b [|u [|h1 [|h2 [|h3 [|h4 [|x l]]]]]]];
    try discriminate.
  apply andb_true_iff in H. destruct H as [H H3].
  apply andb_true_iff in H. destruct H as [H1 H2].
  apply N.eqb_eq in H1, H2. subst b u.
  exists h1, h2, h3, h4. split; [reflexivity|].
  destruct (hex4 h1 h2 h3 h4) as [c'|]; [|discriminate].
  apply N.eqb_eq in H3. subst c'. reflexivity.
Qed.

Lemma parse_unicode_escape (c : code_unit) (tail : jsstring) :
  escaped_range c ->
  parse_string_chars (unicode_escape c ++ tail)
  = cons_parsed c (parse_string_chars tail).
Proof.
  intros Hc. destruct (unicode_escape_hex4 c Hc) as (h1 & h2 & h3 & h4 & E & H).
  rewrite E. simpl. rewrite H. reflexivity.
Qed.

Lemma parse_plain_char (c : code_unit) (tail : jsstring) :
  (c =? 34)%N = false -> (c =? 92)%N = false -> (c <? 32)%N = false ->
  parse_string_chars (c :: tail) = cons_parsed c (parse_string_chars tail).
Proof. intros H1 H2 H3. simpl. rewrite H1, H2, H3. reflexivity. Qed.

(** Reading back the quoted form of a string gives the string, whatever
    follows the closing quote. *)
Lemma parse_quote_chars_bounded (n : nat) :
  forall (s rest : jsstring),
    (List.length s <= n)%nat ->
    parse_string_chars (quote_chars s ++ 34%N :: rest) = Some (s, rest).
Proof.
  induction n as [|n IH]; intros s rest Hlen.
  - destruct s; [reflexivity|simpl in Hlen; lia].
  - destruct s as [|c r]; [reflexivity|].
    simpl in Hlen.
    assert (IHr : parse_string_chars (quote_chars r ++ 34%N :: rest)
                  = Some (r, rest)) by (apply IH; lia).
    cbn [quote_chars].
    destruct (c =? 8)%N eqn:E8;
      [apply N.eqb_eq in E8; subst c; simpl; rewrite IHr; reflexivity|].
    destruct (c =? 9)%N eqn:E9;
      [apply N.eqb_eq in E9; subst c; simpl; rewrite IHr; reflexivity|].
    destruct (c =? 10)%N eqn:E10;
      [apply N.eqb_eq in E10; subst c; simpl; rewrite IHr; reflexivity|].
    destruct (c =? 12)%N eqn:E12;
      [apply N.eqb_eq in E12; subst c; simpl; rewrite IHr; reflexivity|].
    destruct (c =? 13)%N eqn:E13;
      [apply N.eqb_eq in E13; subst c; simpl; rewrite IHr; reflexivity|].
    destruct (c =? 34)%N eqn:E34;
      [apply N.eqb_eq in E34; subst c; simpl; rewrite IHr; reflexivity|].
    destruct (c =? 92)%N eqn:E92;
      [apply N.eqb_eq in E92; subst c; simpl; rewrite IHr; reflexivity|].
    destruct (is_high_surrogate c) eqn:Ehi.
    + unfold is_high_surrogate in Ehi. apply andb_true_iff in Ehi.
      destruct Ehi as [Hlo Hhi]. apply N.leb_le in Hlo, Hhi.
      destruct r as [|l r'].
      * rewrite parse_unicode_escape by (unfold escaped_range; lia).
        reflexivity.
      * destruct (is_low_surrogate l) eqn:El.
        -- unfold is_low_surrogate in El. apply andb_true_iff in El.
           destruct El as [Hl1 Hl2]. apply N.leb_le in Hl1, Hl2.
           simpl app.
           rewrite parse_plain_char;
             [|assumption|assumption|apply N.ltb_ge; lia].
           rewrite parse_plain_char;
             [|apply N.eqb_neq; lia|apply N.eqb_neq; lia|apply N.ltb_ge; lia].
           rewrite IH by (simpl in Hlen; lia). reflexivity.
        -- rewrite <- app_assoc, parse_unicode_escape
             by (unfold escaped_range; lia).
           rewrite IHr. reflexivity.
    + destruct ((c <? 32)%N || is_low_surrogate c) eqn:Eesc.
      * assert (Hc : escaped_range c).
        { apply orb_true_iff in Eesc. destruct Eesc as [H|H].
          - apply N.ltb_lt in H. left. exact H.
          - unfold is_low_surrogate in H. apply andb_true_iff in H.
            destruct H as [H1 H2]. apply N.leb_le in H1, H2.
            right. lia. }
        rewrite <- app_assoc, parse_unicode_escape by exact Hc.
        rewrite IHr. reflexivity.
      * apply orb_false_iff in Eesc. destruct Eesc as [H32 _].
        simpl app. rewrite parse_plain_char by assumption.
        rewrite IHr. reflexivity.
Qed.

Lemma parse_quote_chars (s rest : jsstring) :
  parse_string_chars (quote_chars s ++ 34%N :: rest) = Some (s, rest).
Proof. apply (parse_quote_chars_bounded (List.length s)). lia. Qed.

(** ** JSON text of the payload object *)

Lemma QuoteJSONString_app (s rest : jsstring) :
  QuoteJSONString s ++ rest = 34%N :: quote_chars s ++ 34%N :: rest.
Proof. unfold QuoteJSONString. simpl. rewrite <- app_assoc. reflexivity. Qed.

Lemma parse_value_string (f : nat) (s rest : jsstring) :
  parse_value (S f) (QuoteJSONString s ++ rest) = Parsed (JString s) rest.
Proof.
  rewrite QuoteJSONString_app. simpl. rewrite parse_quote_chars. reflexivity.
Qed.

Lemma parse_members_unfold (f : nat) (r : jsstring)
    (acc : list (jsstring * json)) :
  parse_members (S f) (34%N :: r) acc
  = match parse_string_chars r with
    | None => SyntaxError
    | Some (key, r1) =>
        match skip_ws r1 with
        | [] => SyntaxError
        | colon :: r2 =>
            if (colon =? 58)%N then
              match parse_value f r2 with
              | Parsed v r3 =>
                  match skip_ws r3 with
                  | [] => SyntaxError
                  | sep :: r4 =>
                      if (sep =? 44)%N then
                        parse_members f r4 (acc ++ [(key, v)])
                      else if (sep =? 125)%N then
                        Parsed (JObject (acc ++ [(key, v)])) r4
                      else SyntaxError
                  end
              | failure => failure
              end
            else SyntaxError
        end
    end.
Proof. reflexivity. Qed.

Lemma parse_member_comma (f : nat) (k v rest : jsstring)
    (acc : list (jsstring * json)) :
  parse_members (S (S f))
    (QuoteJSONString k ++ 58%N :: QuoteJSONString v ++ 44%N :: rest) acc
  = parse_members (S f) rest (acc ++ [(k, JString v)]).
Proof.
  rewrite QuoteJSONString_app, parse_members_unfold, parse_quote_chars.
  cbn [skip_ws is_ws N.eqb Pos.eqb orb].
  rewrite parse_value_string. reflexivity.
Qed.

Lemma parse_member_last (f : nat) (k v rest : jsstring)
    (acc : list (jsstring * json)) :
  parse_members (S (S f))
    (QuoteJSONString k ++ 58%N :: QuoteJSONString v ++ 125%N :: rest) acc
  = Parsed (JObject (acc ++ [(k, JString v)])) rest.
Proof.
  rewrite QuoteJSONString_app, parse_members_unfold, parse_quote_chars.
  cbn [skip_ws is_ws N.eqb Pos.eqb orb].
  rewrite parse_value_string. reflexivity.
Qed.

Lemma stringify_payload_object (s src cs : jsstring) :
  JSON_stringify (payload_object s src cs)
  = 123%N :: QuoteJSONString (js "s") ++ 58%N :: QuoteJSONString s
      ++ 44%N :: QuoteJSONString (js "src") ++ 58%N :: QuoteJSONString src
      ++ 44%N :: QuoteJSONString (js "cs") ++ 58%N :: QuoteJSONString cs
      ++ [125%N].
Proof.
  unfold payload_object. cbn [JSON_stringify].
  repeat rewrite <- app_assoc. reflexivity.
Qed.

Lemma parse_payload_text (f : nat) (s src cs : jsstring) :
  parse_value (S (S (S (S (S f))))) (JSON_stringify (payload_object s src cs))
  = Parsed (payload_object s src cs) [].
Proof.
  rewrite stringify_payload_object.
  change (parse_value (S (S (S (S (S f))))) (123%N :: ?r))
    with (parse_members (S (S (S (S f)))) r []).
  rewrite parse_member_comma, parse_member_comma, parse_member_last.
  reflexivity.
Qed.

Lemma stringify_payload_length (s src cs : jsstring) :
  (4 <= List.length (JSON_stringify (payload_object s src cs)))%nat.
Proof.
  rewrite stringify_payload_object.
  rewrite (QuoteJSONString_app (js "s")).
  cbn [List.length]. rewrite length_app. cbn [List.length]. lia.
Qed.

Lemma JSON_parse_stringify_payload (s src cs : jsstring) :
  JSON_parse (JSON_stringify (payload_object s src cs))
  = Some (payload_object s src cs).
Proof.
  unfold JSON_parse.
  pose proof (stringify_payload_length s src cs) as Hlen.
  destruct (List.length (JSON_stringify (payload_object s src cs)))
    as [|[|[|[|f]]]]; try lia.
  replace (S (2 * S (S (S (S f)))))%nat
    with (S (S (S (S (S (4 + 2 * f))))))%nat by lia.
  rewrite parse_payload_text. reflexivity.
Qed.

(** What [decodeQRPayload] returns on the JSON text of a payload object
    with string fields: the four checks, in order. *)
Lemma decode_payload_object (s src cs : jsstring) :
  decodeQRPayload (JSON_stringify (payload_object s src cs))
  = if is_nil s || is_nil src || is_nil cs
    then Returns (failure MissingFields)
    else if negb (jsstring_eqb src SOURCE_TAG)
    then Returns (failure UnknownSource)
    else if negb (jsstring_eqb cs (calculateCRC32 (s ++ SOURCE_TAG)))
    then Returns (failure ChecksumMismatch)
    else Returns (success (JString s)).
Proof.
  unfold decodeQRPayload. rewrite JSON_parse_stringify_payload.
  change (get_property (payload_object s src cs) (js "s"))
    with (Some (JString s)).
  change (get_property (payload_object s src cs) (js "src"))
    with (Some (JString src)).
  change (get_property (payload_object s src cs) (js "cs"))
    with (Some (JString cs)).
  unfold payload_object. cbn [ToBoolean strict_equals_string ToString].
  rewrite !negb_involutive. reflexivity.
Qed.

(** ** C1: codec round trip *)

(** C1.  For every non-empty serial string [S], decoding the encoded
    payload returns a valid result whose serial number is [S]. *)
Theorem codec_round_trip (S : jsstring) :
  S <> [] ->
  decodeQRPayload (encodeQRPayload S) = Returns (success (JString S)).
Proof.
  intros HS. unfold encodeQRPayload.
  change (JObject _)
    with (payload_object S SOURCE_TAG (calculateCRC32 (S ++ SOURCE_TAG))).
  rewrite decode_payload_object.
  destruct S as [|c S']; [contradiction|].
  rewrite calculateCRC32_not_nil, !jsstring_eqb_refl. reflexivity.
Qed.

Lemma codec_round_trip_witness :
  js "SN-42" <> []
  /\ decodeQRPayload (encodeQRPayload (js "SN-42"))
     = Returns (success (JString (js "SN-42"))).
Proof.
  split; [discriminate|].
  apply (codec_round_trip (js "SN-42")). discriminate.
Defined.


(** ** The four stages of [decodeQRPayload] *)

(** On a payload whose three fields are strings, [decodeQRPayload]
    returns the result of the first check that fails, in the order
    missing field, source, checksum. *)
Lemma decode_string_fields (rawData : jsstring) (p : json)
    (s src cs : jsstring) :
  JSON_parse rawData = Some p ->
  string_fields p = Some (s, src, cs) ->
  decodeQRPayload rawData
  = if is_nil s || is_nil src || is_nil cs
    then Returns (failure MissingFields)
    else if negb (jsstring_eqb src SOURCE_TAG)
    then Returns (failure UnknownSource)
    else if negb (jsstring_eqb cs (calculateCRC32 (s ++ SOURCE_TAG)))
    then Returns (failure ChecksumMismatch)
    else Returns (success (JString s)).
Proof.
  intros Hp Hf. unfold decodeQRPayload. rewrite Hp.
  destruct p as [|b|d|str|l|ms]; try discriminate Hf.
  unfold string_fields in Hf.
  destruct (get_property (JObject ms) (js "s")) as [[| | |s0| |]|];
    try discriminate.
  destruct (get_property (JObject ms) (js "src")) as [[| | |src0| |]|];
    try discriminate.
  destruct (get_property (JObject ms) (js "cs")) as [[| | |cs0| |]|];
    try discriminate.
  injection Hf as -> -> ->.
  cbn [ToBoolean strict_equals_string ToString].
  rewrite !negb_involutive. reflexivity.
Qed.

Lemma one_change_spec (differ : code_unit -> code_unit -> bool)
    (a b : jsstring) :
  one_change differ a b = true ->
  exists pre c c' post,
    a = pre ++ c :: post /\ b = pre ++ c' :: post
    /\ c <> c' /\ differ c c' = true.
Proof.
  revert b. induction a as [|x a IH]; intros [|y b] H; simpl in H;
    try discriminate.
  destruct (x =? y)%N eqn:E.
  - apply N.eqb_eq in E. subst y.
    destruct (IH b H) as (pre & c & c' & post & -> & -> & Hne & Hd).
    exists (x :: pre), c, c', post. repeat split; assumption.
  - apply N.eqb_neq in E. apply andb_true_iff in H. destruct H as [Hd Hab].
    apply jsstring_eqb_eq in Hab. subst b.
    exists [], x, y, a. repeat split; assumption.
Qed.

Lemma one_change_neq (differ : code_unit -> code_unit -> bool)
    (a b : jsstring) :
  one_change differ a b = true -> b <> a /\ is_nil b = false.
Proof.
  intros H. destruct (one_change_spec _ _ _ H)
    as (pre & c & c' & post & -> & -> & Hne & _).
  split.
  - intros E. apply app_inv_head in E. injection E as E. congruence.
  - destruct pre; reflexivity.
Qed.

(** ** C9: checksum sensitivity *)

(** The checksum reads only the low byte of each character
    ([charCodeAt(i) & 0xFF]): the payload of serial [A] stays valid when
    its [s] is changed to U+0141, with the checksum of [A]. *)
Lemma checksum_sensitivity_counterexample :
  decodeQRPayload (encodeQRPayload [65%N]) = Returns (success (JString [65%N]))
  /\ one_change any_change [65%N] [321%N] = true
  /\ decodeQRPayload
       (JSON_stringify
          (payload_object [321%N] SOURCE_TAG
             (calculateCRC32 ([65%N] ++ SOURCE_TAG))))
     = Returns (success (JString [321%N])).
Proof. vm_compute. repeat split. Qed.

(** C9, amended.  Take a payload with string fields that
    [decodeQRPayload] accepts, and a second payload that differs from it
    by one character of one field.  A change in [cs] is rejected with
    ChecksumMismatch and a change in [src] with UnknownSource; a change in
    [s] is rejected with ChecksumMismatch when the new character differs
    from the old one in its low byte. *)
Theorem checksum_sensitivity (f : field) (rawData rawData' : jsstring)
    (p p' : json) (old new : jsstring * jsstring * jsstring) :
  JSON_parse rawData = Some p ->
  string_fields p = Some old ->
  decodeQRPayload rawData = Returns (success (JString (fst (fst old)))) ->
  JSON_parse rawData' = Some p' ->
  string_fields p' = Some new ->
  field_changed f old new = true ->
  decodeQRPayload rawData' = Returns (failure (expected_error f)).
Proof.
  destruct old as [[s src] cs], new as [[s' src'] cs'].
  intros Hp Hf Hvalid Hp' Hf' Hch. cbn [fst] in Hvalid.
  rewrite (decode_string_fields _ _ _ _ _ Hp Hf) in Hvalid.
  rewrite (decode_string_fields _ _ _ _ _ Hp' Hf').
  destruct (is_nil s || is_nil src || is_nil cs) eqn:En; [discriminate|].
  destruct (jsstring_eqb src SOURCE_TAG) eqn:Esrc; [|discriminate].
  destruct (jsstring_eqb cs (calculateCRC32 (s ++ SOURCE_TAG))) eqn:Ecs;
    [|discriminate].
  clear Hvalid. apply orb_false_iff in En. destruct En as [En Ecsn].
  apply orb_false_iff in En. destruct En as [Esn Esrcn].
  apply jsstring_eqb_eq in Esrc, Ecs.
  destruct f; cbn [field_changed expected_error] in *;
    apply andb_true_iff in Hch; destruct Hch as [Hch H3];
    apply andb_true_iff in Hch; destruct Hch as [H1 H2].
  - (* s *)
    apply jsstring_eqb_eq in H2, H3. subst src' cs'.
    destruct (one_change_neq _ _ _ H1) as [_ Hn]. rewrite Hn, Esrcn, Ecsn.
    cbn [orb]. rewrite <- Esrc at 1. rewrite jsstring_eqb_refl. cbn [negb].
    rewrite jsstring_eqb_neq; [reflexivity|].
    destruct (one_change_spec _ _ _ H1)
      as (pre & c & c' & post & -> & -> & _ & Hd).
    rewrite Ecs, <- !app_assoc, <- !app_comm_cons.
    apply calculateCRC32_single_change.
    unfold low_byte_change in Hd. apply negb_true_iff, Z.eqb_neq in Hd.
    exact Hd.
  - (* src *)
    apply jsstring_eqb_eq in H1, H3. subst s' cs'.
    destruct (one_change_neq _ _ _ H2) as [Hne Hn]. rewrite Hn, Esn, Ecsn.
    cbn [orb]. rewrite jsstring_eqb_neq by congruence. reflexivity.
  - (* cs *)
    apply jsstring_eqb_eq in H1, H2. subst s' src'.
    destruct (one_change_neq _ _ _ H3) as [Hne Hn]. rewrite Hn, Esn, Esrcn.
    cbn [orb]. rewrite <- Esrc at 1. rewrite jsstring_eqb_refl. cbn [negb].
    rewrite jsstring_eqb_neq by congruence. reflexivity.
Qed.

Lemma checksum_sensitivity_witness :
  decodeQRPayload
    (JSON_stringify
       (payload_object (js "SN-43") SOURCE_TAG
          (calculateCRC32 (js "SN-42" ++ SOURCE_TAG))))
  = Returns (failure ChecksumMismatch).
Proof.
  apply (checksum_sensitivity field_s
           (encodeQRPayload (js "SN-42"))
           (JSON_stringify
              (payload_object (js "SN-43") SOURCE_TAG
                 (calculateCRC32 (js "SN-42" ++ SOURCE_TAG))))
           (payload_object (js "SN-42") SOURCE_TAG
              (calculateCRC32 (js "SN-42" ++ SOURCE_TAG)))
           (payload_object (js "SN-43") SOURCE_TAG
              (calculateCRC32 (js "SN-42" ++ SOURCE_TAG)))
           (js "SN-42", SOURCE_TAG, calculateCRC32 (js "SN-42" ++ SOURCE_TAG))
           (js "SN-43", SOURCE_TAG, calculateCRC32 (js "SN-42" ++ SOURCE_TAG)));
    vm_compute; reflexivity.
Defined.

(** ** C2, C10: payloads that are not objects *)

(** Texts of values that are not payload objects are turned down as the
    specification says: a text that is no JSON at all, an object of
    another scheme, and an array, a number, a string or a boolean. *)
Lemma foreign_payload_rejection :
  decodeQRPayload (js "not json") = Returns (failure NotStructured)
  /\ decodeQRPayload (JSON_stringify (JObject [(js "not", JString (js "ours"))]))
     = Returns (failure MissingFields)
  /\ decodeQRPayload (js "[1,2,3]") = Returns (failure MissingFields)
  /\ decodeQRPayload (js "42") = Returns (failure MissingFields)
  /\ decodeQRPayload (JSON_stringify (JString (js "SN-42")))
     = Returns (failure MissingFields)
  /\ decodeQRPayload (js "true") = Returns (failure MissingFields).
Proof. vm_compute. repeat split. Qed.

(** X7.  The stages on any payload that is not [null]: a field that is absent
    or falsy gives MissingFields; then a [src] other than the tag gives
    UnknownSource; then the checksum of the string form of [s] followed
    by the tag decides between ChecksumMismatch and success. *)
Lemma decode_stages (rawData : jsstring) (p : json) :
  JSON_parse rawData = Some p ->
  p <> JNull ->
  let s := get_property p (js "s") in
  let src := get_property p (js "src") in
  let cs := get_property p (js "cs") in
  (ToBoolean s && ToBoolean src && ToBoolean cs = false ->
   decodeQRPayload rawData = Returns (failure MissingFields))
  /\ (ToBoolean s && ToBoolean src && ToBoolean cs = true ->
      strict_equals_string src SOURCE_TAG = false ->
      decodeQRPayload rawData = Returns (failure UnknownSource))
  /\ (forall sv str,
        ToBoolean s && ToBoolean src && ToBoolean cs = true ->
        strict_equals_string src SOURCE_TAG = true ->
        s = Some sv -> ToString sv = Some str ->
        decodeQRPayload rawData
        = if strict_equals_string cs (calculateCRC32 (str ++ SOURCE_TAG))
          then Returns (success sv)
          else Returns (failure ChecksumMismatch)).
Proof.
  intros Hp Hnull. cbv zeta. unfold decodeQRPayload. rewrite Hp.
  generalize (get_property p (js "s")) as s.
  generalize (get_property p (js "src")) as src.
  generalize (get_property p (js "cs")) as cs.
  intros cs src s.
  assert (Hbody :
    match p with
    | JNull => Throws_TypeError
    | _ =>
        if negb (ToBoolean s) || negb (ToBoolean src) || negb (ToBoolean cs)
        then Returns (failure MissingFields)
        else if negb (strict_equals_string src SOURCE_TAG)
        then Returns (failure UnknownSource)
        else
          match s with
          | None => Returns (failure MissingFields)
          | Some sv =>
              match ToString sv with
              | None => Throws_TypeError
              | Some str =>
                  if negb (strict_equals_string cs
                             (calculateCRC32 (str ++ SOURCE_TAG)))
                  then Returns (failure ChecksumMismatch)
                  else Returns (success sv)
              end
          end
    end
    = if negb (ToBoolean s) || negb (ToBoolean src) || negb (ToBoolean cs)
      then Returns (failure MissingFields)
      else if negb (strict_equals_string src SOURCE_TAG)
      then Returns (failure UnknownSource)
      else
        match s with
        | None => Returns (failure MissingFields)
        | Some sv =>
            match ToString sv with
            | None => Throws_TypeError
            | Some str =>
                if negb (strict_equals_string cs
                           (calculateCRC32 (str ++ SOURCE_TAG)))
                then Returns (failure ChecksumMismatch)
                else Returns (success sv)
            end
        end)
    by (destruct p; try reflexivity; contradiction).
  split; [|split].
  - intros H. etransitivity; [exact Hbody|].
    destruct (ToBoolean s), (ToBoolean src), (ToBoolean cs);
      try discriminate; reflexivity.
  - intros H Hsrc. etransitivity; [exact Hbody|].
    apply andb_true_iff in H. destruct H as [H H3].
    apply andb_true_iff in H. destruct H as [H1 H2].
    rewrite H1, H2, H3, Hsrc. reflexivity.
  - intros sv str H Hsrc Hs Hstr. etransitivity; [exact Hbody|].
    apply andb_true_iff in H. destruct H as [H H3].
    apply andb_true_iff in H. destruct H as [H1 H2].
    rewrite H1, H2, H3, Hsrc, Hs, Hstr. cbn [negb orb].
    destruct (strict_equals_string cs _); reflexivity.
Qed.

(** C10.  The text [null] parses, to the value [null], and
    [decodeQRPayload] then ends with a [TypeError] at [payload.s]
    instead of returning a result record. *)
Theorem decode_null_throws :
  decodeQRPayload (js "null") = Throws_TypeError.
Proof. vm_compute. reflexivity. Qed.

(** A second uncaught [TypeError]: a payload that passes the first three
    checks with an object for [s] that has an own [toString] property,
    at [payload.s + payload.src]. *)
Lemma decode_unprintable_serial_throws :
  decodeQRPayload
    (JSON_stringify
       (JObject [(js "s", JObject [(js "toString", JBool true)]);
                 (js "src", JString SOURCE_TAG);
                 (js "cs", JString (js "00000000"))]))
  = Throws_TypeError.
Proof. vm_compute. reflexivity. Qed.

(** C2.  On the text [null] the first stage passes (the text parses),
    no field is present, and the call returns none of the four errors:
    it ends with a [TypeError] where the second stage should report
    MissingFields. *)
Theorem decode_null_skips_stages :
  JSON_parse (js " null ") = Some JNull
  /\ get_property JNull (js "s") = None
  /\ decodeQRPayload (js " null ") = Throws_TypeError.
Proof. vm_compute. repeat split. Qed.


(** ** What stop, reset and target redefinition clear *)

(** A serial found before [stopScanner] is still in FoundSet after it,
    and [lastFoundTime] keeps its value. *)
Lemma stop_keeps_found_counterexample :
  let st :=
    fst (run [SetOnFoundCallback true; SetOnBorderStateChange true;
              SetTargetSerials (js "SN-42"); StartScanner true true true;
              ScanResults [(barcode_of "SN-42", 1000)];
              RenderTick every_label 1000] initial) in
  isScanning st = true
  /\ foundSerials (fst (stopScanner st)) = [JString (js "SN-42")]
  /\ lastFoundTime (fst (stopScanner st)) = 1000.
Proof. vm_compute. repeat split. Qed.

(** X8.  [setTargetSerials] and [resetFoundSerials] return with
    the VisibleCode map and FoundSet empty and [lastFoundTime] at 0.
    [stopScanner], when scanning is active, returns with the VisibleCode
    map empty and the border state [idle], and leaves FoundSet and
    [lastFoundTime] as they were; when scanning is not active it changes
    nothing. *)
Theorem reset_and_stop_clear (st : scanner) (input : jsstring) :
  (let st' := fst (fst (setTargetSerials input st)) in
   visibleQRs st' = [] /\ foundSerials st' = [] /\ lastFoundTime st' = 0)
  /\ (let st' := fst (resetFoundSerials st) in
      visibleQRs st' = [] /\ foundSerials st' = [] /\ lastFoundTime st' = 0)
  /\ (let st' := fst (stopScanner st) in
      if isScanning st then
        visibleQRs st' = [] /\ currentBorderState st' = idle
        /\ isScanning st' = false
        /\ foundSerials st' = foundSerials st
        /\ lastFoundTime st' = lastFoundTime st
      else st' = st).
Proof.
  split; [|split]; cbv zeta.
  - unfold setTargetSerials. cbn.
    destruct (isScanning st && onBorderStateChange st); cbn; auto.
  - unfold resetFoundSerials. cbn.
    destruct (isScanning st && negb (is_nil (targetSerials st))
              && onBorderStateChange st); cbn; auto.
  - unfold stopScanner. destruct (isScanning st); cbn; auto 6.
Qed.


(** ** Sessions *)

Lemma run_app (ops1 ops2 : list operation) (st : scanner) :
  run (ops1 ++ ops2) st
  = (fst (run ops2 (fst (run ops1 st))),
     snd (run ops1 st) ++ snd (run ops2 (fst (run ops1 st)))).
Proof.
  revert st. induction ops1 as [|op ops1 IH]; intros st.
  - cbn [app run fst snd]. destruct (run ops2 st); reflexivity.
  - cbn [app run]. destruct (step op st) as [st1 evs].
    rewrite IH. destruct (run ops1 st1) as [st2 evs2]. cbn [fst snd].
    rewrite app_assoc. reflexivity.
Qed.

(** What one [processBarcode] does to the sets: nothing, or one new
    target serial at the end of FoundSet, announced with the new set. *)
Lemma processBarcode_sets (b : barcode) (now : Z) (st st' : scanner)
    (evs : list event) :
  processBarcode b now st = Returns (st', evs) ->
  targetSerials st' = targetSerials st
  /\ onFoundCallback st' = onFoundCallback st
  /\ onBorderStateChange st' = onBorderStateChange st
  /\ currentBorderState st' = currentBorderState st
  /\ ((foundSerials st' = foundSerials st /\ evs = [])
      \/ (exists parsed,
            decodeQRPayload (rawValue b) = Returns parsed
            /\ valid parsed = true
            /\ Set_has (targetSerials st) (serialNumber parsed) = true
            /\ Set_has (foundSerials st) (serialNumber parsed) = false
            /\ foundSerials st' = foundSerials st ++ [serialNumber parsed]
            /\ evs = Vibrate ::
                     (if onFoundCallback st
                      then [FoundCall (serialNumber parsed) (foundSerials st')]
                      else []))).
Proof.
  unfold processBarcode.
  destruct (decodeQRPayload (rawValue b)) as [parsed|] eqn:Ed; [|discriminate].
  destruct (valid parsed) eqn:Ev; cbn [negb].
  2:{ intros H. injection H as <- <-.
      repeat (split; [reflexivity|]). left. split; reflexivity. }
  cbn [foundSerials with_visibleQRs targetSerials with_foundSerials
       onFoundCallback].
  destruct (Set_has (targetSerials st) (serialNumber parsed)) eqn:Et;
    cbn [andb].
  2:{ intros H. injection H as <- <-. cbn.
      repeat (split; [reflexivity|]). left. split; reflexivity. }
  destruct (Set_has (foundSerials st) (serialNumber parsed)) eqn:Ef;
    cbn [negb].
  { intros H. injection H as <- <-. cbn.
    repeat (split; [reflexivity|]). left. split; reflexivity. }
  intros H. injection H as <- <-. cbn.
  repeat (split; [reflexivity|]). right.
  exists parsed. unfold Set_add. rewrite Ef.
  repeat (split; [assumption || reflexivity|]). reflexivity.
Qed.

Lemma processBarcodes_sets (bs : list (barcode * Z)) :
  forall st : scanner,
    let st' := fst (processBarcodes bs st) in
    targetSerials st' = targetSerials st
    /\ onFoundCallback st' = onFoundCallback st
    /\ onBorderStateChange st' = onBorderStateChange st
    /\ currentBorderState st' = currentBorderState st
    /\ (exists added,
          foundSerials st' = foundSerials st ++ added
          /\ forallb (Set_has (targetSerials st)) added = true).
Proof.
  induction bs as [|[b now] bs IH]; intros st; cbn [processBarcodes].
  - cbn. repeat (split; [reflexivity|]). exists []. rewrite app_nil_r. auto.
  - destruct (processBarcode b now st) as [[st1 evs]|] eqn:E.
    + destruct (processBarcode_sets _ _ _ _ _ E) as (Ht & Hc & Hb & Hs & Hf).
      specialize (IH st1). cbv zeta in IH.
      destruct (processBarcodes bs st1) as [st2 evs2]. cbn [fst] in *.
      destruct IH as (Ht2 & Hc2 & Hb2 & Hs2 & added & Hf2 & Hin).
      rewrite Ht2, Hc2, Hb2, Hs2. repeat (split; [assumption|]).
      rewrite Ht in Hin.
      destruct Hf as [[Hf _]|(parsed & _ & _ & Hin1 & _ & Hf & _)].
      * exists added. rewrite Hf2, Hf. auto.
      * exists (serialNumber parsed :: added). rewrite Hf2, Hf, <- app_assoc.
        split; [reflexivity|]. cbn [forallb]. rewrite Hin1, Hin. reflexivity.
    + cbn. repeat (split; [reflexivity|]). exists []. rewrite app_nil_r. auto.
Qed.

Lemma drawOverlays_keeps (object_label : json -> bool) (now : Z)
    (st : scanner) :
  let st' := fst (fst (drawOverlays object_label now st)) in
  targetSerials st' = targetSerials st
  /\ foundSerials st' = foundSerials st
  /\ onFoundCallback st' = onFoundCallback st
  /\ onBorderStateChange st' = onBorderStateChange st
  /\ isScanning st' = isScanning st
  /\ overlayReady st' = overlayReady st.
Proof.
  unfold drawOverlays.
  destruct (overlayReady st) eqn:Eo; cbn [negb]; [|cbn; rewrite Eo; auto 6].
  destruct (threw _); [cbn; auto 6|].
  match goal with
  | |- context [if ?c then _ else _] => destruct c
  end; [|cbn; auto 6].
  match goal with
  | |- context [if negb ?c then _ else _] => destruct c
  end; cbn; auto 6.
Qed.

Lemma step_sets (op : operation) (st : scanner) :
  let st' := fst (step op st) in
  (found_within_targets st = true -> found_within_targets st' = true)
  /\ (session_op op = true ->
      targetSerials st' = targetSerials st
      /\ exists added, foundSerials st' = foundSerials st ++ added).
Proof.
  assert (Hsame : forall st' : scanner,
             targetSerials st' = targetSerials st ->
             foundSerials st' = foundSerials st ->
             (found_within_targets st = true -> found_within_targets st' = true)
             /\ (session_op op = true ->
                 targetSerials st' = targetSerials st
                 /\ exists added, foundSerials st' = foundSerials st ++ added)).
  { intros st' Ht Hf. unfold found_within_targets. rewrite Ht, Hf.
    split; [auto|]. intros _. split; [reflexivity|].
    exists []. rewrite app_nil_r. reflexivity. }
  destruct op as [c x m| |input| |cb|cb|bs|ol now]; cbn [step].
  - apply Hsame; unfold startScanner;
      repeat match goal with
             | |- context [if ?c then _ else _] => destruct c
             end; reflexivity.
  - apply Hsame; unfold stopScanner; destruct (isScanning st); reflexivity.
  - split; [|discriminate]. intros _. unfold setTargetSerials.
    destruct (isScanning _ && onBorderStateChange _); reflexivity.
  - split; [|discriminate]. intros _. unfold resetFoundSerials.
    match goal with
    | |- context [if ?c then _ else _] => destruct c
    end; reflexivity.
  - apply Hsame; reflexivity.
  - apply Hsame; reflexivity.
  - destruct (processBarcodes_sets bs st) as (Ht & _ & _ & _ & added & Hf & Hin).
    cbv zeta. unfold found_within_targets. rewrite Ht, Hf. split.
    + intros H. rewrite forallb_app, H, Hin. reflexivity.
    + intros _. split; [reflexivity|]. exists added. reflexivity.
  - destruct (drawOverlays_keeps ol now st) as (Ht & Hf & _).
    apply Hsame; assumption.
Qed.

Lemma run_found_within_targets (ops : list operation) :
  forall st : scanner,
    found_within_targets st = true ->
    found_within_targets (fst (run ops st)) = true.
Proof.
  induction ops as [|op ops IH]; intros st H; cbn [run]; [exact H|].
  pose proof (proj1 (step_sets op st) H) as H1. cbv zeta in H1.
  destruct (step op st) as [st1 evs]. cbn [fst] in H1.
  specialize (IH st1 H1). destruct (run ops st1) as [st2 evs2]. exact IH.
Qed.

Lemma run_session_sets (ops : list operation) :
  forall st : scanner,
    forallb session_op ops = true ->
    targetSerials (fst (run ops st)) = targetSerials st
    /\ exists added, foundSerials (fst (run ops st)) = foundSerials st ++ added.
Proof.
  induction ops as [|op ops IH]; intros st H; cbn [run].
  - split; [reflexivity|]. exists []. rewrite app_nil_r. reflexivity.
  - cbn [forallb] in H. apply andb_true_iff in H. destruct H as [Hop Hops].
    destruct (proj2 (step_sets op st) Hop) as [Ht [added Hf]].
    destruct (step op st) as [st1 evs]. cbn [fst] in Ht, Hf.
    destruct (IH st1 Hops) as [Ht2 [added2 Hf2]].
    destruct (run ops st1) as [st2 evs2]. cbn [fst] in *.
    split; [congruence|]. exists (added ++ added2).
    rewrite Hf2, Hf, app_assoc. reflexivity.
Qed.

(** ** FoundSet within TargetSet, and growing within a session *)

(** X9.  In every reachable state, and after any further call, FoundSet
    is within TargetSet; and across a session (calls other than a reset
    or a redefinition of the targets) TargetSet stays the same and
    FoundSet keeps its elements, in order, new ones coming at the end. *)
Theorem FoundSet_invariant (ops session : list operation) :
  forallb session_op session = true ->
  let st := fst (run ops initial) in
  let st' := fst (run session st) in
  found_within_targets st = true
  /\ (forall op, found_within_targets (fst (step op st)) = true)
  /\ targetSerials st' = targetSerials st
  /\ (exists added, foundSerials st' = foundSerials st ++ added)
  /\ (forall v, In v (foundSerials st) -> In v (foundSerials st')).
Proof.
  intros Hs st st'.
  assert (Hst : found_within_targets st = true)
    by (apply run_found_within_targets; reflexivity).
  destruct (run_session_sets session st Hs) as [Ht [added Hf]].
  split; [exact Hst|]. split.
  - intros op. apply (proj1 (step_sets op st) Hst).
  - split; [exact Ht|]. split; [exists added; exact Hf|].
    intros v Hv. subst st'. rewrite Hf. apply in_or_app. left. exact Hv.
Qed.

Lemma FoundSet_invariant_witness :
  let ops :=
    [SetOnFoundCallback true; SetTargetSerials (js "SN-42,SN-43");
     StartScanner true true true; ScanResults [(barcode_of "SN-42", 1000)]] in
  let session :=
    [RenderTick every_label 1016; ScanResults [(barcode_of "SN-43", 1100)];
     StopScanner] in
  forallb session_op session = true
  /\ foundSerials (fst (run session (fst (run ops initial))))
     = [JString (js "SN-42"); JString (js "SN-43")]
  /\ exists added,
       foundSerials (fst (run session (fst (run ops initial))))
       = foundSerials (fst (run ops initial)) ++ added.
Proof.
  intros ops session.
  split; [reflexivity|]. split; [vm_compute; reflexivity|].
  pose proof (FoundSet_invariant ops session eq_refl) as H. cbv zeta in H.
  exact (proj1 (proj2 (proj2 (proj2 H)))).
Defined.


(** ** Found notifications *)

Lemma sameValueZero_string_r (t : json) (x : jsstring) :
  sameValueZero t (JString x) = true <-> t = JString x.
Proof.
  destruct t; cbn; try (split; discriminate).
  rewrite jsstring_eqb_eq. split; [intros ->; reflexivity|].
  intros H. injection H as ->. reflexivity.
Qed.

Lemma sameValueZero_string_l (t : json) (x : jsstring) :
  sameValueZero (JString x) t = true <-> t = JString x.
Proof.
  destruct t; cbn; try (split; discriminate).
  rewrite jsstring_eqb_eq. split; [intros ->; reflexivity|].
  intros H. injection H as ->. reflexivity.
Qed.

Lemma Set_has_string (l : list json) (x : jsstring) :
  Set_has l (JString x) = true <-> In (JString x) l.
Proof.
  unfold Set_has. rewrite existsb_exists. split.
  - intros [t [Hin Ht]]. apply sameValueZero_string_l in Ht. subst t. exact Hin.
  - intros Hin. exists (JString x). split; [exact Hin|].
    apply sameValueZero_string_l. reflexivity.
Qed.

Lemma Set_has_app (l1 l2 : list json) (v : json) :
  Set_has (l1 ++ l2) v = Set_has l1 v || Set_has l2 v.
Proof. unfold Set_has. apply existsb_app. Qed.

Lemma count_found_app (v : json) (e1 e2 : list event) :
  count_found v (e1 ++ e2) = (count_found v e1 + count_found v e2)%nat.
Proof. unfold count_found. rewrite filter_app, length_app. reflexivity. Qed.

Lemma processBarcode_found (serial : jsstring) (b : barcode) (now : Z)
    (st st' : scanner) (evs : list event) :
  onFoundCallback st = true ->
  processBarcode b now st = Returns (st', evs) ->
  found_count_law serial (foundSerials st) (foundSerials st') evs
  /\ snapshots_between (foundSerials st) (foundSerials st') evs
  /\ exists added, foundSerials st' = foundSerials st ++ added.
Proof.
  intros Hcb E.
  destruct (processBarcode_sets _ _ _ _ _ E)
    as (_ & _ & _ & _ & [[Hf ->]|(parsed & _ & _ & _ & Hnot & Hf & ->)]).
  - rewrite Hf. unfold found_count_law, snapshots_between.
    split; [|split].
    + cbn. destruct (Set_has _ _); reflexivity.
    + intros s snap [].
    + exists []. rewrite app_nil_r. reflexivity.
  - rewrite Hcb, Hf. unfold found_count_law, snapshots_between.
    split; [|split].
    + rewrite Set_has_app.
      change (Set_has [serialNumber parsed] (JString serial))
        with (sameValueZero (JString serial) (serialNumber parsed) || false).
      rewrite orb_false_r.
      unfold count_found. cbn [filter].
      assert (Hrefl : sameValueZero (JString serial) (JString serial) = true)
        by (apply sameValueZero_string_l; reflexivity).
      destruct (sameValueZero (serialNumber parsed) (JString serial)) eqn:Es.
      * apply sameValueZero_string_r in Es. rewrite Es in *.
        rewrite Hnot, Hrefl. reflexivity.
      * destruct (Set_has (foundSerials st) (JString serial));
          [reflexivity|]. cbn [orb].
        destruct (sameValueZero (JString serial) (serialNumber parsed)) eqn:Es';
          [|reflexivity].
        apply sameValueZero_string_l in Es'. rewrite Es' in Es. congruence.
    + intros s snap [H|[H|[]]]; [discriminate|]. injection H as <- <-.
      split; [exists []; reflexivity|]. exists []. rewrite app_nil_r. reflexivity.
    + exists [serialNumber parsed]. reflexivity.
Qed.

Lemma found_count_law_trans (serial : jsstring) (f0 f1 f2 : list json)
    (e1 e2 : list event) :
  (exists a, f1 = f0 ++ a) -> (exists a, f2 = f1 ++ a) ->
  found_count_law serial f0 f1 e1 -> found_count_law serial f1 f2 e2 ->
  found_count_law serial f0 f2 (e1 ++ e2).
Proof.
  unfold found_count_law. intros [a1 ->] [a2 ->] H1 H2.
  rewrite count_found_app, H1, H2, !Set_has_app.
  destruct (Set_has f0 (JString serial)), (Set_has a1 (JString serial)),
    (Set_has a2 (JString serial)); reflexivity.
Qed.

Lemma snapshots_between_trans (f0 f1 f2 : list json) (e1 e2 : list event) :
  (exists a, f1 = f0 ++ a) -> (exists a, f2 = f1 ++ a) ->
  snapshots_between f0 f1 e1 -> snapshots_between f1 f2 e2 ->
  snapshots_between f0 f2 (e1 ++ e2).
Proof.
  unfold snapshots_between. intros [a1 ->] [a2 ->] H1 H2 s snap Hin.
  apply in_app_or in Hin. destruct Hin as [Hin|Hin].
  - destruct (H1 s snap Hin) as [He [later Hl]]. split; [exact He|].
    exists (later ++ a2). rewrite Hl, app_assoc. reflexivity.
  - destruct (H2 s snap Hin) as [[earlier He] Hl]. split; [|exact Hl].
    exists (a1 ++ earlier). rewrite He, <- !app_assoc. reflexivity.
Qed.

Lemma found_laws_quiet (serial : jsstring) (st st' : scanner) :
  foundSerials st' = foundSerials st ->
  found_count_law serial (foundSerials st) (foundSerials st') []
  /\ snapshots_between (foundSerials st) (foundSerials st') []
  /\ exists added, foundSerials st' = foundSerials st ++ added.
Proof.
  intros ->. unfold found_count_law, snapshots_between. split; [|split].
  - cbn. destruct (Set_has _ _); reflexivity.
  - intros s snap [].
  - exists []. rewrite app_nil_r. reflexivity.
Qed.

Lemma processBarcodes_found (serial : jsstring) (bs : list (barcode * Z)) :
  forall st : scanner,
    onFoundCallback st = true ->
    found_count_law serial (foundSerials st)
      (foundSerials (fst (processBarcodes bs st))) (snd (processBarcodes bs st))
    /\ snapshots_between (foundSerials st)
         (foundSerials (fst (processBarcodes bs st)))
         (snd (processBarcodes bs st))
    /\ exists added,
         foundSerials (fst (processBarcodes bs st)) = foundSerials st ++ added.
Proof.
  induction bs as [|[b now] bs IH]; intros st Hcb; cbn [processBarcodes].
  - apply found_laws_quiet. reflexivity.
  - destruct (processBarcode b now st) as [[st1 evs]|] eqn:E.
    + destruct (processBarcode_found serial _ _ _ _ _ Hcb E) as (Hc & Hs & Ha).
      destruct (processBarcode_sets _ _ _ _ _ E) as (_ & Hcb1 & _).
      rewrite Hcb in Hcb1. specialize (IH st1 Hcb1).
      destruct (processBarcodes bs st1) as [st2 evs2]. cbn [fst snd] in *.
      destruct IH as (Hc2 & Hs2 & Ha2).
      split; [|split].
      * eapply found_count_law_trans; eassumption.
      * eapply snapshots_between_trans; eassumption.
      * destruct Ha as [a1 Ha1], Ha2 as [a2 Ha2]. exists (a1 ++ a2).
        rewrite Ha2, Ha1, app_assoc. reflexivity.
    + apply found_laws_quiet. reflexivity.
Qed.

Lemma step_found (serial : jsstring) (op : operation) (st : scanner) :
  scan_op op = true ->
  onFoundCallback st = true ->
  onFoundCallback (fst (step op st)) = true
  /\ found_count_law serial (foundSerials st)
       (foundSerials (fst (step op st))) (snd (step op st))
  /\ snapshots_between (foundSerials st)
       (foundSerials (fst (step op st))) (snd (step op st))
  /\ exists added, foundSerials (fst (step op st)) = foundSerials st ++ added.
Proof.
  intros Hop Hcb.
  assert (Hquiet : forall (st' : scanner) (evs : list event),
             onFoundCallback st' = onFoundCallback st ->
             foundSerials st' = foundSerials st ->
             (forall s snap, ~ In (FoundCall s snap) evs) ->
             count_found (JString serial) evs = 0%nat ->
             onFoundCallback st' = true
             /\ found_count_law serial (foundSerials st) (foundSerials st') evs
             /\ snapshots_between (foundSerials st) (foundSerials st') evs
             /\ exists added, foundSerials st' = foundSerials st ++ added).
  { intros st' evs Hc Hf Hno Hcount. split; [congruence|].
    rewrite Hf. unfold found_count_law, snapshots_between. split; [|split].
    - rewrite Hcount. destruct (Set_has _ _); reflexivity.
    - intros s snap Hin. destruct (Hno s snap Hin).
    - exists []. rewrite app_nil_r. reflexivity. }
  destruct op as [c x m| |input| |cb|cb|bs|ol now]; try discriminate Hop;
    cbn [step].
  - apply Hquiet; unfold startScanner;
      repeat match goal with
             | |- context [if ?c then _ else _] => destruct c
             end; cbn; try reflexivity; intros s snap H;
      repeat (destruct H as [H|H]; try discriminate); exact H.
  - apply Hquiet; unfold stopScanner;
      repeat match goal with
             | |- context [if ?c then _ else _] => destruct c
             end; cbn; try reflexivity; intros s snap H;
      repeat (destruct H as [H|H]; try discriminate); exact H.
  - destruct (processBarcodes_sets bs st) as (_ & Hc & _).
    split; [congruence|]. apply processBarcodes_found. exact Hcb.
  - destruct (drawOverlays_keeps ol now st) as (_ & Hf & Hc & _).
    apply Hquiet; try assumption.
    + unfold drawOverlays.
      repeat match goal with
             | |- context [if ?c then _ else _] => destruct c
             end; cbn; intros s snap H;
      repeat (destruct H as [H|H]; try discriminate); exact H.
    + unfold drawOverlays.
      repeat match goal with
             | |- context [if ?c then _ else _] => destruct c
             end; reflexivity.
Qed.

(** X10.  Across a session of scan results, render ticks, starts and
    stops, with a found callback registered, the found notification for a
    serial fires once if the serial enters FoundSet during the session
    and not at all otherwise (in particular not when it was found
    before); every notification carries its serial as the last element
    of a snapshot that is FoundSet as it was right after the serial was
    added; and a processed detection of a target serial that is not yet
    found adds it, with the notification. *)
Theorem found_notification_once (serial : jsstring)
    (session : list operation) :
  forall st : scanner,
    forallb scan_op session = true ->
    onFoundCallback st = true ->
    let st' := fst (run session st) in
    let evs := snd (run session st) in
    found_count_law serial (foundSerials st) (foundSerials st') evs
    /\ snapshots_between (foundSerials st) (foundSerials st') evs
    /\ (exists added, foundSerials st' = foundSerials st ++ added)
    /\ (forall b now,
          decodeQRPayload (rawValue b) = Returns (success (JString serial)) ->
          Set_has (targetSerials st') (JString serial) = true ->
          Set_has (foundSerials st') (JString serial) = false ->
          processBarcode b now st'
          = Returns
              (with_foundSerials (foundSerials st' ++ [JString serial])
                 (with_visibleQRs
                    (Map_set (visibleQRs st') (JString serial)
                       {| qbounds := extract_bounds b; lastSeen := now;
                          isTarget := true |}) st'),
               [Vibrate;
                FoundCall (JString serial)
                  (foundSerials st' ++ [JString serial])])).
Proof.
  induction session as [|op session IH]; intros st Hs Hcb; cbv zeta.
  - cbn [run fst snd].
    destruct (found_laws_quiet serial st st eq_refl) as (H1 & H2 & H3).
    repeat (split; [assumption|]).
    intros b now Ed Ht Hf. unfold processBarcode. rewrite Ed.
    cbn [valid success negb serialNumber foundSerials with_visibleQRs
         targetSerials onFoundCallback with_foundSerials].
    rewrite Ht, Hf, Hcb. cbn [andb negb]. unfold Set_add. rewrite Hf.
    reflexivity.
  - cbn [forallb] in Hs. apply andb_true_iff in Hs. destruct Hs as [Hop Hs].
    destruct (step_found serial op st Hop Hcb) as (Hcb1 & Hc & Hsn & Ha).
    cbn [run]. destruct (step op st) as [st1 evs1]. cbn [fst snd] in *.
    specialize (IH st1 Hs Hcb1). cbv zeta in IH.
    destruct (run session st1) as [st2 evs2]. cbn [fst snd] in *.
    destruct IH as (Hc2 & Hsn2 & Ha2 & Hnext).
    split; [eapply found_count_law_trans; eassumption|].
    split; [eapply snapshots_between_trans; eassumption|].
    split; [|exact Hnext].
    destruct Ha as [a1 Ha1], Ha2 as [a2 Ha2]. exists (a1 ++ a2).
    rewrite Ha2, Ha1, app_assoc. reflexivity.
Qed.

Lemma found_notification_once_witness :
  let st :=
    fst (run [SetOnFoundCallback true; SetTargetSerials (js "SN-42")]
           initial) in
  let session :=
    [StartScanner true true true;
     ScanResults [(barcode_of "SN-42", 1000); (barcode_of "SN-42", 1100)];
     RenderTick every_label 1116;
     ScanResults [(barcode_of "SN-42", 1200)]] in
  forallb scan_op session = true
  /\ onFoundCallback st = true
  /\ count_found (JString (js "SN-42")) (snd (run session st)) = 1%nat.
Proof.
  intros st session. split; [reflexivity|]. split; [reflexivity|].
  pose proof (found_notification_once (js "SN-42") session st eq_refl eq_refl)
    as H. cbv zeta in H. destruct H as [H _]. unfold found_count_law in H.
  rewrite H. vm_compute. reflexivity.
Defined.


(** ** The overlay loop: expiry *)

Lemma draw_loop_entries (object_label : json -> bool) (now : Z)
    (entries : list (json * qrdata)) :
  forall (hasTarget : bool) (lft : Z),
    let res := draw_loop object_label now entries hasTarget lft in
    (forall e, In e (entries_live res) ->
               In e entries /\ now - lastSeen (snd e) <= 500)
    /\ (forall e, In e (entries_left res) -> In e entries)
    /\ (forall e, In e entries -> now - lastSeen (snd e) <= 500 ->
                  In e (entries_left res))
    /\ (threw res = false ->
        forall e, In e (entries_left res) ->
                  now - lastSeen (snd e) <= 500 /\ In e (entries_live res)).
Proof.
  induction entries as [|[serial data] rest IH]; intros hasTarget lft;
    cbn [draw_loop].
  - cbn. repeat split; intros; contradiction.
  - unfold QR_VISIBILITY_TIMEOUT.
    destruct (now - lastSeen data >? 500) eqn:Eexp.
    + apply Z.gtb_lt in Eexp.
      specialize (IH hasTarget lft). cbv zeta in IH.
      destruct IH as (H1 & H2 & H3 & H4). cbv zeta.
      split; [|split; [|split]].
      * intros e He. destruct (H1 e He). split; [right|]; assumption.
      * intros e He. right. apply H2. exact He.
      * intros e [<-|He] Hage; [cbn in Hage; lia|]. apply H3; assumption.
      * exact H4.
    + assert (Hage : now - lastSeen data <= 500).
      { destruct (Z.gtb_spec (now - lastSeen data) 500); [discriminate|lia]. }
      match goal with
      | |- context [if ?c then _ else _] => destruct c eqn:Edrawn
      end.
      * match goal with
        | |- context [draw_loop object_label now rest ?h ?l] =>
            specialize (IH h l)
        end.
        cbv zeta in IH. destruct IH as (H1 & H2 & H3 & H4).
        cbv zeta. cbn [entries_live entries_left threw].
        split; [|split; [|split]].
        -- intros e [<-|He]; [split; [left; reflexivity|exact Hage]|].
           destruct (H1 e He). split; [right|]; assumption.
        -- intros e [<-|He]; [left; reflexivity|]. right. apply H2. exact He.
        -- intros e [<-|He] Hage'; [left; reflexivity|].
           right. apply H3; assumption.
        -- intros Ht e [<-|He]; [split; [exact Hage|left; reflexivity]|].
           destruct (H4 Ht e He). split; [|right]; assumption.
      * cbv zeta. cbn [entries_live entries_left threw].
        split; [|split; [|split]].
        -- intros e [<-|[]]. split; [left; reflexivity|exact Hage].
        -- auto.
        -- auto.
        -- discriminate.
Qed.

Lemma drawOverlays_visible (object_label : json -> bool) (now : Z)
    (st : scanner) :
  overlayReady st = true ->
  let res :=
    draw_loop object_label now (visibleQRs st) false (lastFoundTime st) in
  visibleQRs (fst (fst (drawOverlays object_label now st))) = entries_left res
  /\ lastFoundTime (fst (fst (drawOverlays object_label now st)))
     = loop_lastFoundTime res
  /\ snd (drawOverlays object_label now st) = threw res.
Proof.
  intros Ho. unfold drawOverlays. rewrite Ho. cbn [negb]. cbv zeta.
  destruct (threw _); [cbn; auto|].
  match goal with
  | |- context [if ?c then _ else _] => destruct c
  end; [|cbn; auto].
  match goal with
  | |- context [if negb ?c then _ else _] => destruct c
  end; cbn; auto.
Qed.

(** X11.  In one call of [drawOverlays] on a session that has its
    drawing surface, an entry last seen no more than 500 ms ago stays in
    the VisibleCode map and, if the call runs to its end, is read as
    visible; an entry last seen more than 500 ms ago is not read as
    visible and, if the call runs to its end, is gone from the map.  No
    entry read as visible is older than 500 ms. *)
Theorem visible_code_expiry (object_label : json -> bool) (now : Z)
    (st : scanner) (serial : json) (data : qrdata) :
  overlayReady st = true ->
  In (serial, data) (visibleQRs st) ->
  let st' := fst (fst (drawOverlays object_label now st)) in
  let completed := negb (snd (drawOverlays object_label now st)) in
  let read := entries_read object_label now st in
  (now - lastSeen data <= 500 ->
   In (serial, data) (visibleQRs st')
   /\ (completed = true -> In (serial, data) read))
  /\ (500 < now - lastSeen data ->
      ~ In (serial, data) read
      /\ (completed = true -> ~ In (serial, data) (visibleQRs st')))
  /\ (forall e, In e read -> now - lastSeen (snd e) <= 500).
Proof.
  intros Ho Hin. cbv zeta. unfold entries_read. rewrite Ho.
  destruct (drawOverlays_visible object_label now st Ho) as (Hv & _ & Ht).
  rewrite Hv, Ht.
  destruct (draw_loop_entries object_label now (visibleQRs st) false
              (lastFoundTime st)) as (H1 & H2 & H3 & H4).
  split; [|split].
  - intros Hage. split; [apply H3; assumption|].
    intros Hc. apply negb_true_iff in Hc.
    apply (H4 Hc (serial, data)). apply H3; assumption.
  - intros Hage. split.
    + intros Hr. apply H1 in Hr. cbn in Hr. lia.
    + intros Hc Hl. apply negb_true_iff in Hc.
      destruct (H4 Hc _ Hl) as [Hage' _]. cbn in Hage'. lia.
  - intros e He. apply (H1 e He).
Qed.

Lemma visible_code_expiry_witness :
  let entry :=
    (JString (js "SN-42"),
     {| qbounds := None; lastSeen := 1000; isTarget := true |}) in
  let st := with_visibleQRs [entry] (with_overlayReady true initial) in
  overlayReady st = true
  /\ In entry (visibleQRs st)
  /\ In entry (visibleQRs (fst (fst (drawOverlays every_label 1499 st))))
  /\ ~ In entry (visibleQRs (fst (fst (drawOverlays every_label 1501 st)))).
Proof.
  intros entry st.
  assert (Ho : overlayReady st = true) by reflexivity.
  assert (Hin : In entry (visibleQRs st)) by (left; reflexivity).
  split; [exact Ho|]. split; [exact Hin|]. split.
  - pose proof (visible_code_expiry every_label 1499 st _ _ Ho Hin) as H.
    cbv zeta in H. destruct H as [H _].
    assert (Hage : 1499 - 1000 <= 500) by lia. exact (proj1 (H Hage)).
  - pose proof (visible_code_expiry every_label 1501 st _ _ Ho Hin) as H.
    cbv zeta in H. destruct H as (_ & H & _).
    assert (Hage : 500 < 1501 - 1000) by lia.
    exact (proj2 (H Hage) eq_refl).
Defined.

(** ** The border callback *)

Lemma last_reported_from_app (b : BorderState) (e1 e2 : list event) :
  last_reported_from b (e1 ++ e2)
  = last_reported_from (last_reported_from b e1) e2.
Proof. unfold last_reported_from. apply fold_left_app. Qed.

Lemma last_reported_is_from (evs : list event) :
  last_reported evs = last_reported_from idle evs.
Proof. reflexivity. Qed.

Lemma BorderState_eqb_eq (a b : BorderState) :
  BorderState_eqb a b = true <-> a = b.
Proof. destruct a, b; cbn; split; congruence. Qed.

(** What one render tick reports: nothing, leaving the border state as
    it is, or one state that differs from the current one and becomes
    the current one. *)
Lemma drawOverlays_reports (object_label : json -> bool) (now : Z)
    (st : scanner) :
  let st' := fst (fst (drawOverlays object_label now st)) in
  let evs := snd (fst (drawOverlays object_label now st)) in
  (evs = [] /\ currentBorderState st' = currentBorderState st)
  \/ (exists b, evs = [BorderCall b] /\ b <> currentBorderState st
                /\ currentBorderState st' = b
                /\ onBorderStateChange st = true).
Proof.
  unfold drawOverlays. cbv zeta.
  destruct (overlayReady st); cbn [negb]; [|left; split; reflexivity].
  destruct (threw _); [left; split; reflexivity|].
  cbn [targetSerials onBorderStateChange with_lastFoundTime with_visibleQRs
       currentBorderState].
  destruct (negb (is_nil (targetSerials st)) && onBorderStateChange st) eqn:Ec;
    [|left; split; reflexivity].
  apply andb_true_iff in Ec. destruct Ec as [_ Hcb].
  match goal with
  | |- context [BorderState_eqb ?n (currentBorderState st)] =>
      destruct (BorderState_eqb n (currentBorderState st)) eqn:Eb
  end; cbn [negb]; [left; split; reflexivity|].
  right. eexists. split; [reflexivity|]. split; [|split; [reflexivity|exact Hcb]].
  intros H. apply BorderState_eqb_eq in H. congruence.
Qed.

Lemma processBarcodes_no_border (bs : list (barcode * Z)) :
  forall (st : scanner) (b : BorderState),
    last_reported_from b (snd (processBarcodes bs st)) = b.
Proof.
  induction bs as [|[bc now] bs IH]; intros st b; cbn [processBarcodes];
    [reflexivity|].
  destruct (processBarcode bc now st) as [[st1 evs]|] eqn:E; [|reflexivity].
  specialize (IH st1). destruct (processBarcodes bs st1) as [st2 evs2].
  cbn [snd] in *. rewrite last_reported_from_app, IH.
  destruct (processBarcode_sets _ _ _ _ _ E)
    as (_ & _ & _ & _ & [[_ ->]|(parsed & _ & _ & _ & _ & _ & ->)]);
    [reflexivity|].
  destruct (onFoundCallback st); reflexivity.
Qed.

Lemma step_border (op : operation) (st : scanner) (b : BorderState) :
  keeps_border_callback op = true ->
  border_in_step st b ->
  border_in_step (fst (step op st)) (last_reported_from b (snd (step op st))).
Proof.
  intros Hop [Hcur Hnone]. unfold border_in_step.
  destruct op as [c x m| |input| |cb|cb|bs|ol now]; cbn [step].
  - unfold startScanner.
    repeat match goal with
           | |- context [if ?c then _ else _] => destruct c eqn:?
           end; cbn; try (split; [assumption|assumption]).
    split; [reflexivity|].
    match goal with
    | H : _ && onBorderStateChange _ = true |- _ =>
        apply andb_true_iff in H; destruct H as [_ H]; cbn in H
    end. congruence.
  - unfold stopScanner. destruct (isScanning st); cbn [negb fst snd];
      [|split; assumption].
    cbn [onBorderStateChange with_currentBorderState with_visibleQRs
         with_isScanning currentBorderState].
    destruct (onBorderStateChange st) eqn:Ecb; cbn.
    + split; [reflexivity|discriminate].
    + split; [symmetry; apply Hnone; reflexivity|intros _; apply Hnone; reflexivity].
  - unfold setTargetSerials. cbv zeta.
    cbn [isScanning onBorderStateChange with_lastFoundTime with_visibleQRs
         with_foundSerials with_targetSerials].
    destruct (isScanning st && onBorderStateChange st) eqn:Ec; cbn.
    + apply andb_true_iff in Ec. destruct Ec as [_ Ecb].
      split; [reflexivity|congruence].
    + split; assumption.
  - unfold resetFoundSerials. cbv zeta.
    cbn [isScanning onBorderStateChange with_lastFoundTime with_visibleQRs
         with_foundSerials targetSerials].
    destruct (isScanning st && negb (is_nil (targetSerials st))
              && onBorderStateChange st) eqn:Ec; cbn.
    + apply andb_true_iff in Ec. destruct Ec as [_ Ecb].
      split; [reflexivity|congruence].
    + split; assumption.
  - cbn. split; assumption.
  - destruct cb; [|discriminate]. cbn. split; [assumption|discriminate].
  - rewrite processBarcodes_no_border.
    destruct (processBarcodes_sets bs st) as (_ & _ & Hb & Hs & _).
    cbv zeta in Hb, Hs. rewrite Hb, Hs. split; assumption.
  - destruct (drawOverlays_keeps ol now st) as (_ & _ & _ & Hb & _).
    cbv zeta in Hb. rewrite Hb.
    destruct (drawOverlays_reports ol now st)
      as [[-> Hs]|(b' & -> & _ & Hs & Hcb)]; cbv zeta in Hs; cbn.
    + rewrite Hs. split; assumption.
    + split; [exact Hs|]. congruence.
Qed.

Lemma run_border (ops : list operation) :
  forall (st : scanner) (b : BorderState),
    forallb keeps_border_callback ops = true ->
    border_in_step st b ->
    border_in_step (fst (run ops st)) (last_reported_from b (snd (run ops st))).
Proof.
  induction ops as [|op ops IH]; intros st b Hops Hst; cbn [run].
  - exact Hst.
  - cbn [forallb] in Hops. apply andb_true_iff in Hops.
    destruct Hops as [Hop Hops].
    pose proof (step_border op st b Hop Hst) as H1.
    destruct (step op st) as [st1 evs]. cbn [fst snd] in H1.
    specialize (IH st1 _ Hops H1).
    destruct (run ops st1) as [st2 evs2]. cbn [fst snd] in *.
    rewrite last_reported_from_app. exact IH.
Qed.

(** X13.  In a session in which the border callback is never taken away,
    the border state is always the state last reported to the callback
    ([idle] before the first report), and a render tick calls the
    callback at most once, with a state that differs from the state last
    reported. *)
Theorem render_tick_reports_changes (ops : list operation)
    (object_label : json -> bool) (now : Z) :
  forallb keeps_border_callback ops = true ->
  let st := fst (run ops initial) in
  let log := snd (run ops initial) in
  let evs := snd (fst (drawOverlays object_label now st)) in
  currentBorderState st = last_reported log
  /\ (evs = []
      \/ exists b, evs = [BorderCall b] /\ b <> last_reported log).
Proof.
  intros Hops. cbv zeta.
  assert (Hinit : border_in_step initial idle) by (split; auto).
  destruct (run_border ops initial idle Hops Hinit) as [Hcur _].
  rewrite last_reported_is_from, <- Hcur. split; [reflexivity|].
  destruct (drawOverlays_reports object_label now (fst (run ops initial)))
    as [[He _]|(b & He & Hne & _)]; cbv zeta in He.
  - left. exact He.
  - right. exists b. split; assumption.
Qed.

(** [setTargetSerials], by contrast, reports the state it sets whether or
    not it changed: the same targets set twice report [searching]
    twice. *)
Lemma setTargetSerials_reports_again :
  snd (run [SetOnBorderStateChange true; StartScanner true true true;
            SetTargetSerials (js "SN-42"); SetTargetSerials (js "SN-42")]
         initial)
  = [BorderCall searching; BorderCall searching].
Proof. vm_compute. reflexivity. Qed.

Lemma render_tick_reports_changes_witness :
  let ops :=
    [SetOnBorderStateChange true; SetTargetSerials (js "SN-42");
     StartScanner true true true; RenderTick every_label 1000] in
  forallb keeps_border_callback ops = true
  /\ currentBorderState (fst (run ops initial))
     = last_reported (snd (run ops initial)).
Proof.
  intros ops. split; [reflexivity|].
  pose proof (render_tick_reports_changes ops every_label 1016 eq_refl) as H.
  cbv zeta in H. exact (proj1 H).
Defined.


(** ** The border state after one sighting *)

Lemma draw_single_sighting (object_label : json -> bool) (serial : jsstring)
    (T0 now : Z) (bounds : option bounds) (st : scanner) (removed : bool) :
  sighting_state serial T0 bounds st removed ->
  let st' := fst (fst (drawOverlays object_label now st)) in
  let seen := negb removed && (now - T0 <=? 500) in
  sighting_state serial T0 bounds st' (negb seen)
  /\ lastFoundTime st' = (if seen then now else lastFoundTime st)
  /\ currentBorderState st'
     = if seen then found
       else if now - lastFoundTime st <? 300 then found else searching.
Proof.
  intros (Ho & Hcb & Ht & Hv). cbv zeta. unfold drawOverlays.
  rewrite Ho, Hv. cbn [negb].
  destruct removed; cbn [negb andb draw_loop].
  - cbn [threw targetSerials onBorderStateChange with_lastFoundTime
         with_visibleQRs hasVisibleTarget loop_lastFoundTime entries_left
         lastFoundTime currentBorderState].
    rewrite Ht, Hcb. cbn [negb andb]. unfold BORDER_DEBOUNCE_MS.
    destruct (now - lastFoundTime st <? 300);
      match goal with
      | |- context [BorderState_eqb ?n (currentBorderState st)] =>
          destruct (BorderState_eqb n (currentBorderState st)) eqn:Eb
      end; cbn [negb fst snd];
      try apply BorderState_eqb_eq in Eb;
      unfold sighting_state; cbn; rewrite ?Ho, ?Hcb, ?Ht; auto 8.
  - cbn [lastSeen isTarget qbounds]. unfold QR_VISIBILITY_TIMEOUT.
    assert (Hlabel : match bounds with
                     | Some _ => label_completes object_label (JString serial)
                     | None => true
                     end = true) by (destruct bounds; reflexivity).
    rewrite Hlabel.
    destruct (Z.gtb_spec (now - T0) 500) as [Hgt|Hle].
    + assert (E : (now - T0 <=? 500) = false) by (apply Z.leb_gt; lia).
      rewrite E.
      cbn [threw targetSerials onBorderStateChange with_lastFoundTime
           with_visibleQRs hasVisibleTarget loop_lastFoundTime entries_left
           lastFoundTime currentBorderState draw_loop].
      rewrite Ht, Hcb. cbn [negb andb]. unfold BORDER_DEBOUNCE_MS.
      destruct (now - lastFoundTime st <? 300);
        match goal with
        | |- context [BorderState_eqb ?n (currentBorderState st)] =>
            destruct (BorderState_eqb n (currentBorderState st)) eqn:Eb
        end; cbn [negb fst snd];
        try apply BorderState_eqb_eq in Eb;
        unfold sighting_state; cbn; rewrite ?Ho, ?Hcb, ?Ht; auto 8.
    + assert (E : (now - T0 <=? 500) = true) by (apply Z.leb_le; lia).
      rewrite E.
      cbn [threw targetSerials onBorderStateChange with_lastFoundTime
           with_visibleQRs hasVisibleTarget loop_lastFoundTime entries_left
           lastFoundTime currentBorderState draw_loop].
      rewrite Ht, Hcb. cbn [negb andb].
      match goal with
      | |- context [BorderState_eqb ?n (currentBorderState st)] =>
          destruct (BorderState_eqb n (currentBorderState st)) eqn:Eb
      end; cbn [negb fst snd];
      try apply BorderState_eqb_eq in Eb;
      unfold sighting_state; cbn; rewrite ?Ho, ?Hcb, ?Ht; auto 8.
Qed.

Lemma seen_by_tick (T0 from now : Z) (removed : bool) :
  (removed = true -> 500 < from - T0) -> from <= now ->
  negb removed && (now - T0 <=? 500) = (now - T0 <=? 500).
Proof.
  intros Hr Hle. destruct removed; [|reflexivity]. cbn.
  symmetry. apply Z.leb_gt. specialize (Hr eq_refl). lia.
Qed.

Lemma border_after_ticks (object_label : json -> bool) (serial : jsstring)
    (T0 t : Z) (bounds : option bounds) (ts : list Z) :
  forall (st : scanner) (removed : bool) (from : Z),
    sighting_state serial T0 bounds st removed ->
    (removed = true -> 500 < from - T0) ->
    nondecreasing from (ts ++ [t]) = true ->
    currentBorderState
      (fst (fst (drawOverlays object_label t
                   (render_ticks object_label ts st))))
    = if t - T0 <=? 500 then found
      else if t - last_sighting T0 (lastFoundTime st) ts <? 300 then found
      else searching.
Proof.
  induction ts as [|x ts IH]; intros st removed from Hst Hr Hnd.
  - cbn [app nondecreasing] in Hnd. rewrite andb_true_r in Hnd.
    apply Z.leb_le in Hnd. cbn [render_ticks last_sighting fold_left].
    destruct (draw_single_sighting object_label serial T0 t bounds st removed
                Hst) as (_ & _ & Hb).
    cbv zeta in Hb. rewrite Hb, (seen_by_tick T0 from t removed Hr Hnd).
    reflexivity.
  - cbn [app nondecreasing] in Hnd. apply andb_true_iff in Hnd.
    destruct Hnd as [Hx Hnd]. apply Z.leb_le in Hx.
    cbn [render_ticks].
    destruct (draw_single_sighting object_label serial T0 x bounds st removed
                Hst) as (Hst' & Hl & _).
    cbv zeta in Hst', Hl.
    rewrite (seen_by_tick T0 from x removed Hr Hx) in Hst', Hl.
    rewrite (IH _ _ x Hst'); [|
      intros Hrem; apply negb_true_iff, Z.leb_gt in Hrem; lia | exact Hnd].
    rewrite Hl. unfold last_sighting. cbn [fold_left].
    unfold QR_VISIBILITY_TIMEOUT. reflexivity.
Qed.

(** X12.  A target serial is detected once, at [T0], by a session that
    has its drawing surface, a border callback and no other visible
    code; render ticks follow at the times [ts] and then at [t], in
    order.  The border state after the tick at [t] is [found] if [t] is
    no more than 500 ms after [T0] (the entry is still visible, and the
    tick refreshes [lastFoundTime]); later it is [found] while [t] is
    less than 300 ms after the last tick that saw the entry, and
    [searching] from then on. *)
Theorem border_after_sighting (object_label : json -> bool)
    (serial : jsstring) (b : barcode) (T0 t : Z) (ts : list Z)
    (st : scanner) :
  decodeQRPayload (rawValue b) = Returns (success (JString serial)) ->
  Set_has (targetSerials st) (JString serial) = true ->
  visibleQRs st = [] ->
  overlayReady st = true ->
  onBorderStateChange st = true ->
  nondecreasing T0 (ts ++ [t]) = true ->
  exists st1 evs,
    processBarcode b T0 st = Returns (st1, evs)
    /\ currentBorderState
         (fst (fst (drawOverlays object_label t
                      (render_ticks object_label ts st1))))
       = if t - T0 <=? 500 then found
         else if t - last_sighting T0 (lastFoundTime st) ts <? 300 then found
         else searching.
Proof.
  intros Ed Ht Hv Ho Hcb Hnd.
  assert (Hnil : is_nil (targetSerials st) = false).
  { destruct (targetSerials st); [discriminate Ht|reflexivity]. }
  unfold processBarcode. rewrite Ed.
  cbn [valid success negb serialNumber foundSerials with_visibleQRs
       targetSerials onFoundCallback with_foundSerials].
  rewrite Ht, Hv. cbn [Map_set andb].
  destruct (negb (Set_has (foundSerials st) (JString serial)));
    eexists; eexists; (split; [reflexivity|]);
    (erewrite border_after_ticks with (removed := false) (from := T0);
     [reflexivity| |discriminate|exact Hnd]);
    unfold sighting_state; cbn; auto.
Qed.

Lemma border_after_sighting_witness :
  let st :=
    with_overlayReady true
      (with_onBorderStateChange true
         (with_targetSerials [JString (js "SN-42")] initial)) in
  exists st1 evs,
    processBarcode (barcode_of "SN-42") 1000 st = Returns (st1, evs)
    /\ currentBorderState
         (fst (fst (drawOverlays every_label 1300
                      (render_ticks every_label [1016; 1299] st1))))
       = found.
Proof.
  intros st.
  assert (Ed : decodeQRPayload (rawValue (barcode_of "SN-42"))
               = Returns (success (JString (js "SN-42"))))
    by (vm_compute; reflexivity).
  exact (border_after_sighting every_label (js "SN-42") (barcode_of "SN-42")
           1000 1300 [1016; 1299] st Ed eq_refl eq_refl eq_refl eq_refl
           eq_refl).
Defined.

(** With a render tick at every instant named by the specification's
    debounce example and at the two timeouts: [found] from the detection
    through 799 ms after it, [searching] from 800 ms. *)
Lemma border_after_sighting_timeline :
  let st :=
    fst (run [SetOnBorderStateChange true; SetTargetSerials (js "SN-42");
              StartScanner true true true;
              ScanResults [(barcode_of "SN-42", 1000)]] initial) in
  map (fun t =>
         currentBorderState
           (render_ticks every_label
              (filter (fun x => x <=? t) [1000; 1299; 1300; 1500; 1501; 1799; 1800])
              st))
      [1000; 1299; 1300; 1500; 1501; 1799; 1800]
  = [found; found; found; found; found; found; searching].
Proof. vm_compute. reflexivity. Qed.


(** ** More on the codec *)

Lemma decode_stages_witness :
  let rawData := encodeQRPayload (js "SN-42") in
  let p :=
    payload_object (js "SN-42") SOURCE_TAG
      (calculateCRC32 (js "SN-42" ++ SOURCE_TAG)) in
  JSON_parse rawData = Some p /\ p <> JNull
  /\ decodeQRPayload rawData = Returns (success (JString (js "SN-42"))).
Proof.
  intros rawData p.
  assert (Hp : JSON_parse rawData = Some p) by (vm_compute; reflexivity).
  assert (Hn : p <> JNull) by discriminate.
  split; [exact Hp|]. split; [exact Hn|].
  pose proof (decode_stages rawData p Hp Hn) as H. cbv zeta in H.
  destruct H as (_ & _ & H).
  rewrite (H (JString (js "SN-42")) (js "SN-42"));
    vm_compute; reflexivity.
Defined.

(** X1.  Decoding an encoded serial gives the serial back, except for
    the empty serial, whose payload is turned down for a missing
    field. *)
Theorem decode_encode (S : jsstring) :
  decodeQRPayload (encodeQRPayload S)
  = if is_nil S then Returns (failure MissingFields)
    else Returns (success (JString S)).
Proof.
  unfold encodeQRPayload.
  change (JObject _)
    with (payload_object S SOURCE_TAG (calculateCRC32 (S ++ SOURCE_TAG))).
  rewrite decode_payload_object.
  destruct S as [|c S']; [reflexivity|].
  rewrite calculateCRC32_not_nil, !jsstring_eqb_refl. reflexivity.
Qed.

Lemma JSON_parse_encodeQRPayload (S : jsstring) :
  JSON_parse (encodeQRPayload S)
  = Some (payload_object S SOURCE_TAG (calculateCRC32 (S ++ SOURCE_TAG))).
Proof. unfold encodeQRPayload. apply JSON_parse_stringify_payload. Qed.

(** X2.  Different serials have different payload texts. *)
Theorem encodeQRPayload_injective (S1 S2 : jsstring) :
  S1 <> S2 -> encodeQRPayload S1 <> encodeQRPayload S2.
Proof.
  intros Hne E. apply (f_equal JSON_parse) in E.
  rewrite !JSON_parse_encodeQRPayload in E.
  unfold payload_object in E. injection E as E _. contradiction.
Qed.

Lemma encodeQRPayload_injective_witness :
  js "SN-42" <> js "SN-43"
  /\ encodeQRPayload (js "SN-42") <> encodeQRPayload (js "SN-43").
Proof.
  assert (H : js "SN-42" <> js "SN-43") by discriminate.
  split; [exact H|]. exact (encodeQRPayload_injective _ _ H).
Defined.

Lemma to_radix_length (fuel : nat) :
  forall (k : nat) (n : Z) (acc : jsstring),
    (1 <= k)%nat -> 0 <= n < 16 ^ Z.of_nat k ->
    (List.length (to_radix 16 fuel n acc) <= k + List.length acc)%nat.
Proof.
  induction fuel as [|f IH]; intros k n acc Hk Hn; cbn [to_radix]; [lia|].
  destruct (n <? 16) eqn:E.
  - cbn [List.length]. lia.
  - apply Z.ltb_ge in E. destruct k as [|k]; [lia|].
    destruct k as [|k]; [cbn in Hn; lia|].
    eapply Nat.le_trans; [apply (IH (S k)); [lia|]|cbn [List.length]; lia].
    rewrite (Nat2Z.inj_succ (S k)), Z.pow_succ_r in Hn by lia.
    split; [apply Z.div_pos; lia|]. apply Z.div_lt_upper_bound; lia.
Qed.

Lemma radix_digit_hex (d : Z) :
  0 <= d < 16 -> is_lower_hex (radix_digit d) = true.
Proof.
  intros H. unfold is_lower_hex, radix_digit.
  destruct (d <? 10) eqn:E.
  - apply Z.ltb_lt in E. apply orb_true_iff. left.
    apply andb_true_iff. split; apply N.leb_le; lia.
  - apply Z.ltb_ge in E. apply orb_true_iff. right.
    apply andb_true_iff. split; apply N.leb_le; lia.
Qed.

Lemma to_radix_hex (fuel : nat) :
  forall (n : Z) (acc : jsstring),
    forallb is_lower_hex acc = true ->
    forallb is_lower_hex (to_radix 16 fuel n acc) = true.
Proof.
  induction fuel as [|f IH]; intros n acc Hacc; cbn [to_radix]; [exact Hacc|].
  assert (Hd : forallb is_lower_hex (radix_digit (n mod 16) :: acc) = true).
  { cbn [forallb]. rewrite Hacc, radix_digit_hex; [reflexivity|].
    apply Z.mod_pos_bound. lia. }
  destruct (n <? 16); [exact Hd|]. apply IH. exact Hd.
Qed.

(** X3.  A checksum is a string of exactly eight characters, each a
    digit or a letter from [a] to [f]. *)
Theorem calculateCRC32_format (str : jsstring) :
  List.length (calculateCRC32 str) = 8%nat
  /\ forallb is_lower_hex (calculateCRC32 str) = true.
Proof.
  unfold calculateCRC32. rewrite ushr_shiftr by lia. rewrite Z.shiftr_0_r.
  set (crc := ToUint32 _).
  assert (Hcrc : 0 <= crc < 2 ^ 32) by apply ToUint32_range.
  assert (Hlen : (List.length (integer_toString 16 crc) <= 8)%nat).
  { unfold integer_toString.
    pose proof (to_radix_length (S (Z.to_nat (Z.log2 crc))) 8 crc []) as H.
    cbn [List.length] in H. rewrite Nat.add_0_r in H. apply H; [lia|].
    change (16 ^ Z.of_nat 8) with (2 ^ 32). exact Hcrc. }
  unfold padStart. split.
  - rewrite length_app, repeat_length. lia.
  - rewrite forallb_app. apply andb_true_iff. split.
    + induction (8 - List.length (integer_toString 16 crc))%nat as [|m IHm];
        [reflexivity|exact IHm].
    + unfold integer_toString. apply to_radix_hex. reflexivity.
Qed.

Lemma fold_crc_low_bytes (s1 : jsstring) :
  forall (s2 : jsstring) (a b : Z),
    map low_byte s1 = map low_byte s2 ->
    ToUint32 a = ToUint32 b ->
    ToUint32 (fold_left crc_step s1 a) = ToUint32 (fold_left crc_step s2 b).
Proof.
  induction s1 as [|c s1 IH]; intros [|c' s2] a b Hm E; try discriminate Hm.
  - exact E.
  - cbn [map] in Hm. injection Hm as Hc Hm. rewrite !fold_left_cons.
    apply IH; [exact Hm|]. rewrite !ToUint32_crc_step, Hc, E. reflexivity.
Qed.

Lemma calculateCRC32_of_state (str : jsstring) :
  calculateCRC32 str
  = padStart 8 48%N
      (integer_toString 16
         (Z.lxor (ToUint32 (fold_left crc_step str 0xFFFFFFFF)) 0xFFFFFFFF)).
Proof.
  unfold calculateCRC32. rewrite ushr_shiftr by lia.
  rewrite Z.shiftr_0_r, ToUint32_bitxor. reflexivity.
Qed.

(** X4.  The checksum reads only the low byte of each character: two
    strings whose characters agree in their low bytes have the same
    checksum. *)
Theorem calculateCRC32_low_bytes (s1 s2 : jsstring) :
  map low_byte s1 = map low_byte s2 ->
  calculateCRC32 s1 = calculateCRC32 s2.
Proof.
  intros H. rewrite !calculateCRC32_of_state.
  rewrite (fold_crc_low_bytes s1 s2 0xFFFFFFFF 0xFFFFFFFF H eq_refl).
  reflexivity.
Qed.

Lemma calculateCRC32_low_bytes_witness :
  map low_byte [65%N] = map low_byte [321%N]
  /\ calculateCRC32 [65%N] = calculateCRC32 [321%N].
Proof.
  assert (H : map low_byte [65%N] = map low_byte [321%N]) by reflexivity.
  split; [exact H|]. exact (calculateCRC32_low_bytes _ _ H).
Defined.

(** X5.  Two strings of the same length that differ at one position
    only, by characters with different low bytes, have different
    checksums. *)
Theorem calculateCRC32_detects_one_change (a b : jsstring) :
  one_change low_byte_change a b = true ->
  calculateCRC32 a <> calculateCRC32 b.
Proof.
  intros H. destruct (one_change_spec _ _ _ H)
    as (pre & c & c' & post & -> & -> & _ & Hd).
  apply calculateCRC32_single_change.
  unfold low_byte_change in Hd. apply negb_true_iff, Z.eqb_neq in Hd.
  exact Hd.
Qed.

Lemma calculateCRC32_detects_one_change_witness :
  one_change low_byte_change (js "SN-42") (js "SN-43") = true
  /\ calculateCRC32 (js "SN-42") <> calculateCRC32 (js "SN-43").
Proof.
  assert (H : one_change low_byte_change (js "SN-42") (js "SN-43") = true)
    by reflexivity.
  split; [exact H|]. exact (calculateCRC32_detects_one_change _ _ H).
Defined.




(** ** Frames of detections *)

(** X14.  Codes of other schemes have no effect on a frame: the frame
    gives the same state and the same callbacks as the frame without
    them. *)
Theorem foreign_codes_ignored (bs : list (barcode * Z)) :
  forall st : scanner,
    processBarcodes bs st
    = processBarcodes (filter (fun x => negb (is_foreign (fst x))) bs) st.
Proof.
  induction bs as [|[b now] bs IH]; intros st; [reflexivity|].
  cbn [filter fst]. unfold is_foreign at 1.
  destruct (decodeQRPayload (rawValue b)) as [parsed|] eqn:Ed.
  - destruct (valid parsed) eqn:Ev; cbn [negb].
    + cbn [processBarcodes].
      destruct (processBarcode b now st) as [[st1 evs]|]; [|reflexivity].
      rewrite IH. reflexivity.
    + cbn [processBarcodes]. unfold processBarcode at 1. rewrite Ed, Ev.
      cbn [negb]. rewrite IH.
      destruct (processBarcodes _ st) as [st2 evs2]. reflexivity.
  - cbn [negb processBarcodes]. unfold processBarcode. rewrite Ed. reflexivity.
Qed.

(** X15.  A code whose payload makes [decodeQRPayload] throw ends the
    frame: the codes listed after it are not processed, the ones before
    it are. *)
Theorem throwing_code_ends_frame (before after : list (barcode * Z))
    (b : barcode) (now : Z) (st : scanner) :
  decodeQRPayload (rawValue b) = Throws_TypeError ->
  processBarcodes (before ++ (b, now) :: after) st
  = processBarcodes before st.
Proof.
  intros Ed. revert st.
  induction before as [|[b0 now0] before IH]; intros st.
  - cbn [app processBarcodes]. unfold processBarcode. rewrite Ed. reflexivity.
  - cbn [app processBarcodes].
    destruct (processBarcode b0 now0 st) as [[st1 evs]|]; [|reflexivity].
    rewrite IH. reflexivity.
Qed.

Lemma throwing_code_ends_frame_witness :
  let null_code :=
    {| rawValue := js "null"; cornerPoints := None; boundingBox := None |} in
  decodeQRPayload (rawValue null_code) = Throws_TypeError
  /\ processBarcodes [(null_code, 1000); (barcode_of "SN-42", 1000)]
       (with_targetSerials [JString (js "SN-42")] initial)
     = (with_targetSerials [JString (js "SN-42")] initial, []).
Proof.
  intros null_code.
  assert (Ed : decodeQRPayload (rawValue null_code) = Throws_TypeError)
    by (vm_compute; reflexivity).
  split; [exact Ed|].
  exact (throwing_code_ends_frame [] [(barcode_of "SN-42", 1000)] null_code
           1000 (with_targetSerials [JString (js "SN-42")] initial) Ed).
Defined.


(** ** Well-formed sets *)

Lemma is_string_inv (v : json) :
  is_string v = true -> exists x, v = JString x.
Proof. destruct v; try discriminate. intros _. eexists. reflexivity. Qed.

Lemma Set_has_strings (l : list json) (v : json) :
  forallb is_string l = true ->
  Set_has l v = true -> In v l /\ is_string v = true.
Proof.
  intros Hl Hv. unfold Set_has in Hv. apply existsb_exists in Hv.
  destruct Hv as [t [Hin Ht]].
  pose proof (proj1 (forallb_forall _ _) Hl t Hin) as Hs.
  apply is_string_inv in Hs. destruct Hs as [x ->].
  apply sameValueZero_string_r in Ht. subst v. split; [exact Hin|reflexivity].
Qed.

Lemma Set_add_strings (l : list json) (x : jsstring) :
  forallb is_string l = true -> NoDup l ->
  forallb is_string (Set_add l (JString x)) = true
  /\ NoDup (Set_add l (JString x))
  /\ (forall v, In v (Set_add l (JString x)) <-> In v l \/ v = JString x).
Proof.
  intros Hs Hn. unfold Set_add.
  destruct (Set_has l (JString x)) eqn:E.
  - split; [exact Hs|]. split; [exact Hn|].
    apply Set_has_string in E. intros v. split; [auto|].
    intros [H| ->]; assumption.
  - split; [rewrite forallb_app, Hs; reflexivity|]. split.
    + apply NoDup_app; [exact Hn|repeat constructor; intros []|].
      intros v Hv [<-|[]]. apply Set_has_string in Hv. congruence.
    + intros v. rewrite in_app_iff. cbn. split.
      * intros [H|[<-|[]]]; auto.
      * intros [H| ->]; auto.
Qed.

Lemma Set_of_strings (serials : list jsstring) :
  forallb is_string (Set_of (map JString serials)) = true
  /\ NoDup (Set_of (map JString serials))
  /\ (forall v, In v (Set_of (map JString serials))
                <-> In v (map JString serials)).
Proof.
  unfold Set_of.
  assert (H : forall (l : list jsstring) (acc : list json),
             forallb is_string acc = true -> NoDup acc ->
             forallb is_string (fold_left Set_add (map JString l) acc) = true
             /\ NoDup (fold_left Set_add (map JString l) acc)
             /\ (forall v, In v (fold_left Set_add (map JString l) acc)
                           <-> In v acc \/ In v (map JString l))).
  { induction l as [|x l IH]; intros acc Hs Hn; cbn [map fold_left].
    - split; [exact Hs|]. split; [exact Hn|]. intros v. cbn. tauto.
    - destruct (Set_add_strings acc x Hs Hn) as (Hs' & Hn' & Hin').
      destruct (IH _ Hs' Hn') as (Hs2 & Hn2 & Hin2).
      split; [exact Hs2|]. split; [exact Hn2|].
      intros v. rewrite Hin2, Hin'. cbn. intuition. }
  destruct (H serials [] eq_refl (NoDup_nil _)) as (Hs & Hn & Hin).
  split; [exact Hs|]. split; [exact Hn|].
  intros v. rewrite Hin. cbn. tauto.
Qed.

Lemma sets_well_formed_same (st st' : scanner) :
  targetSerials st' = targetSerials st ->
  foundSerials st' = foundSerials st ->
  sets_well_formed st -> sets_well_formed st'.
Proof. unfold sets_well_formed. intros -> ->. auto. Qed.

Lemma processBarcode_well_formed (b : barcode) (now : Z) (st st' : scanner)
    (evs : list event) :
  processBarcode b now st = Returns (st', evs) ->
  sets_well_formed st -> sets_well_formed st'.
Proof.
  intros E (Hs & Hnt & Hn & Hi).
  destruct (processBarcode_sets _ _ _ _ _ E)
    as (Ht & _ & _ & _ & [[Hf _]|(parsed & _ & _ & Hin & Hnot & Hf & _)]).
  - apply (sets_well_formed_same st); try assumption. repeat split; assumption.
  - unfold sets_well_formed. rewrite Ht, Hf.
    destruct (Set_has_strings _ _ Hs Hin) as [Hin' Hstr].
    apply is_string_inv in Hstr. destruct Hstr as [x Hx]. rewrite Hx in *.
    split; [exact Hs|]. split; [exact Hnt|]. split.
    + apply NoDup_app; [exact Hn|repeat constructor; intros []|].
      intros v Hv [<-|[]]. apply Set_has_string in Hv. congruence.
    + intros v Hv. apply in_app_or in Hv. destruct Hv as [Hv|[<-|[]]];
        [apply Hi; exact Hv|exact Hin'].
Qed.

Lemma processBarcodes_well_formed (bs : list (barcode * Z)) :
  forall st : scanner,
    sets_well_formed st -> sets_well_formed (fst (processBarcodes bs st)).
Proof.
  induction bs as [|[b now] bs IH]; intros st H; cbn [processBarcodes];
    [exact H|].
  destruct (processBarcode b now st) as [[st1 evs]|] eqn:E; [|exact H].
  pose proof (processBarcode_well_formed _ _ _ _ _ E H) as H1.
  specialize (IH st1 H1). destruct (processBarcodes bs st1). exact IH.
Qed.

Lemma step_well_formed (op : operation) (st : scanner) :
  sets_well_formed st -> sets_well_formed (fst (step op st)).
Proof.
  intros H.
  destruct op as [c x m| |input| |cb|cb|bs|ol now]; cbn [step].
  - apply (sets_well_formed_same st); [| |exact H]; unfold startScanner;
      repeat match goal with
             | |- context [if ?c then _ else _] => destruct c
             end; reflexivity.
  - apply (sets_well_formed_same st); [| |exact H]; unfold stopScanner;
      destruct (isScanning st); reflexivity.
  - assert (Hw : sets_well_formed
                   (with_lastFoundTime 0
                      (with_visibleQRs []
                         (with_foundSerials []
                            (with_targetSerials
                               (Set_of (map JString (parse_serials input)))
                               st))))).
    { destruct (Set_of_strings (parse_serials input)) as (Hs & Hn & _).
      unfold sets_well_formed. cbn.
      split; [exact Hs|]. split; [exact Hn|]. split; [constructor|].
      intros v []. }
    unfold setTargetSerials. cbv zeta.
    destruct (isScanning _ && onBorderStateChange _); cbn [fst];
      [|exact Hw].
    apply (sets_well_formed_same _ _ eq_refl eq_refl Hw).
  - destruct H as (Hs & Hnt & _ & _).
    assert (Hw : sets_well_formed
                   (with_lastFoundTime 0
                      (with_visibleQRs [] (with_foundSerials [] st)))).
    { unfold sets_well_formed. cbn.
      split; [exact Hs|]. split; [exact Hnt|]. split; [constructor|].
      intros v []. }
    unfold resetFoundSerials. cbv zeta.
    match goal with
    | |- context [if ?c then _ else _] => destruct c
    end; cbn [fst]; [|exact Hw].
    apply (sets_well_formed_same _ _ eq_refl eq_refl Hw).
  - exact H.
  - exact H.
  - apply processBarcodes_well_formed. exact H.
  - destruct (drawOverlays_keeps ol now st) as (Ht & Hf & _).
    apply (sets_well_formed_same st); assumption.
Qed.

Lemma run_well_formed (ops : list operation) :
  forall st : scanner,
    sets_well_formed st -> sets_well_formed (fst (run ops st)).
Proof.
  induction ops as [|op ops IH]; intros st H; cbn [run]; [exact H|].
  pose proof (step_well_formed op st H) as H1.
  destruct (step op st) as [st1 evs]. cbn [fst] in H1.
  specialize (IH st1 H1). destruct (run ops st1). exact IH.
Qed.

(** X17.  In every reachable state the sets hold serial strings, each
    once, and the state report never counts more found serials than
    targets; the counts are equal exactly when every target is found. *)
Theorem found_count_within_target_count (ops : list operation) :
  let st := fst (run ops initial) in
  sets_well_formed st
  /\ (foundCount (getScannerState st) <= targetCount (getScannerState st))%nat
  /\ (foundCount (getScannerState st) = targetCount (getScannerState st)
      <-> forall v, In v (targetSerials st) -> In v (foundSerials st)).
Proof.
  cbv zeta.
  assert (Hinit : sets_well_formed initial).
  { unfold sets_well_formed. cbn. repeat split; try constructor.
    intros v []. }
  pose proof (run_well_formed ops initial Hinit) as H.
  split; [exact H|]. destruct H as (_ & Hnt & Hn & Hi).
  cbn [getScannerState foundCount targetCount]. split.
  - apply NoDup_incl_length; assumption.
  - split.
    + intros Hlen. apply NoDup_length_incl; [exact Hn|lia|exact Hi].
    + intros Hall. apply Nat.le_antisymm.
      * apply NoDup_incl_length; assumption.
      * apply NoDup_incl_length; assumption.
Qed.


(** ** The flags of visible entries *)

Lemma Map_set_In (m : list (json * qrdata)) (serial : json) (data : qrdata) :
  forall k d,
    In (k, d) (Map_set m serial data) ->
    In (k, d) m
    \/ (d = data
        /\ (k = serial \/ sameValueZero k serial = true)).
Proof.
  induction m as [|[k0 d0] m IH]; intros k d Hin; cbn [Map_set] in Hin.
  - destruct Hin as [H|[]]. injection H as <- <-. right. auto.
  - destruct (sameValueZero k0 serial) eqn:E.
    + destruct Hin as [H|H].
      * injection H as <- <-. right. auto.
      * left. right. exact H.
    + destruct Hin as [H|H].
      * left. left. exact H.
      * destruct (IH k d H) as [H'|H']; [left; right; exact H'|right; exact H'].
Qed.

Lemma Set_has_same_key (l : list json) (k serial : json) :
  forallb is_string l = true ->
  sameValueZero k serial = true ->
  Set_has l k = Set_has l serial.
Proof.
  intros Hl Hk.
  destruct (Set_has l serial) eqn:Es.
  - destruct (Set_has_strings l serial Hl Es) as [_ Hstr].
    apply is_string_inv in Hstr. destruct Hstr as [x ->].
    apply sameValueZero_string_r in Hk. subst k. exact Es.
  - destruct (Set_has l k) eqn:Ek; [|reflexivity].
    destruct (Set_has_strings l k Hl Ek) as [_ Hstr].
    apply is_string_inv in Hstr. destruct Hstr as [x ->].
    apply sameValueZero_string_l in Hk. subst serial. congruence.
Qed.

Lemma processBarcode_flags (b : barcode) (now : Z) (st st' : scanner)
    (evs : list event) :
  processBarcode b now st = Returns (st', evs) ->
  sets_well_formed st -> visible_flags_agree st -> visible_flags_agree st'.
Proof.
  unfold processBarcode. intros E (Hs & _ & _ & Hi) Hflags.
  destruct (decodeQRPayload (rawValue b)) as [parsed|]; [|discriminate].
  destruct (valid parsed); cbn [negb] in E;
    [|injection E as <- <-; exact Hflags].
  set (serial := serialNumber parsed) in *.
  set (target := Set_has (targetSerials st) serial) in *.
  cbn [foundSerials with_visibleQRs onFoundCallback with_foundSerials] in E.
  assert (Hfound : forall f' : list json,
             (forall v, Set_has (foundSerials st) v = true ->
                        Set_has f' v = true) ->
             (target = true -> Set_has f' serial = true) ->
             forall k d,
               In (k, d)
                 (Map_set (visibleQRs st) serial
                    {| qbounds := extract_bounds b; lastSeen := now;
                       isTarget := target |}) ->
               isTarget d = Set_has (targetSerials st) k
               /\ (isTarget d = true -> Set_has f' k = true)).
  { intros f' Hmono Hnew k d Hin.
    apply Map_set_In in Hin. destruct Hin as [Hin|[-> Hk]].
    - destruct (Hflags k d Hin) as [H1 H2]. split; [exact H1|]. auto.
    - cbn [isTarget].
      assert (Hsame : Set_has (targetSerials st) k = target
                      /\ (target = true -> k = serial)).
      { destruct Hk as [->|Hk]; [split; reflexivity|].
        split; [apply Set_has_same_key; assumption|].
        intros Ht. unfold target in Ht.
        destruct (Set_has_strings _ _ Hs Ht) as [_ Hstr].
        apply is_string_inv in Hstr. destruct Hstr as [x Hx].
        rewrite Hx in Hk. apply sameValueZero_string_r in Hk. congruence. }
      destruct Hsame as [H1 H2]. split; [symmetry; exact H1|].
      intros Ht. rewrite (H2 Ht). apply Hnew. exact Ht. }
  destruct (target && negb (Set_has (foundSerials st) serial)) eqn:Ec;
    injection E as <- <-; unfold visible_flags_agree;
    cbn [visibleQRs targetSerials foundSerials with_visibleQRs
         with_foundSerials].
  - apply andb_true_iff in Ec. destruct Ec as [Ht Hnf].
    apply negb_true_iff in Hnf. apply Hfound.
    + intros v Hv. unfold Set_add. rewrite Hnf, Set_has_app, Hv. reflexivity.
    + intros _. unfold Set_add. rewrite Hnf, Set_has_app.
      unfold target in Ht.
      destruct (Set_has_strings _ _ Hs Ht) as [_ Hstr].
      apply is_string_inv in Hstr. destruct Hstr as [x Hx]. rewrite Hx.
      apply orb_true_iff. right. apply Set_has_string. left. reflexivity.
  - apply Hfound; [auto|]. intros Ht. rewrite Ht in Ec. cbn [andb] in Ec.
    apply negb_false_iff in Ec. exact Ec.
Qed.

Lemma processBarcodes_flags (bs : list (barcode * Z)) :
  forall st : scanner,
    sets_well_formed st -> visible_flags_agree st ->
    visible_flags_agree (fst (processBarcodes bs st)).
Proof.
  induction bs as [|[b now] bs IH]; intros st Hw H; cbn [processBarcodes];
    [exact H|].
  destruct (processBarcode b now st) as [[st1 evs]|] eqn:E; [|exact H].
  pose proof (processBarcode_well_formed _ _ _ _ _ E Hw) as Hw1.
  pose proof (processBarcode_flags _ _ _ _ _ E Hw H) as H1.
  specialize (IH st1 Hw1 H1). destruct (processBarcodes bs st1). exact IH.
Qed.

Lemma step_flags (op : operation) (st : scanner) :
  sets_well_formed st -> visible_flags_agree st ->
  visible_flags_agree (fst (step op st)).
Proof.
  intros Hw H.
  assert (Hempty : forall st' : scanner,
             visibleQRs st' = [] -> visible_flags_agree st').
  { intros st' Hv k d Hin. rewrite Hv in Hin. destruct Hin. }
  assert (Hsame : forall st' : scanner,
             targetSerials st' = targetSerials st ->
             foundSerials st' = foundSerials st ->
             (forall e, In e (visibleQRs st') -> In e (visibleQRs st)) ->
             visible_flags_agree st').
  { intros st' Ht Hf Hv k d Hin. rewrite Ht, Hf. apply H, Hv, Hin. }
  destruct op as [c x m| |input| |cb|cb|bs|ol now]; cbn [step].
  - apply Hsame; unfold startScanner;
      repeat match goal with
             | |- context [if ?c then _ else _] => destruct c
             end; cbn; auto.
  - unfold stopScanner. destruct (isScanning st); cbn [negb fst];
      [apply Hempty; reflexivity|exact H].
  - apply Hempty. unfold setTargetSerials. cbv zeta.
    destruct (isScanning _ && onBorderStateChange _); reflexivity.
  - apply Hempty. unfold resetFoundSerials. cbv zeta.
    match goal with
    | |- context [if ?c then _ else _] => destruct c
    end; reflexivity.
  - exact H.
  - exact H.
  - apply processBarcodes_flags; assumption.
  - destruct (drawOverlays_keeps ol now st) as (Ht & Hf & _ & _ & _ & Ho).
    apply Hsame; try assumption.
    destruct (overlayReady st) eqn:Eo.
    + destruct (drawOverlays_visible ol now st Eo) as (Hv & _).
      cbv zeta in Hv. rewrite Hv. intros e He.
      apply (draw_loop_entries ol now (visibleQRs st) false (lastFoundTime st)).
      exact He.
    + unfold drawOverlays. rewrite Eo. cbn. auto.
Qed.

(** X16.  In every reachable state, the target flag of each visible
    entry tells whether its serial is in the current TargetSet, and the
    serial of every visible target entry is in FoundSet. *)
Theorem visible_flags_current (ops : list operation) :
  visible_flags_agree (fst (run ops initial)).
Proof.
  assert (H : forall (l : list operation) (st : scanner),
             sets_well_formed st -> visible_flags_agree st ->
             visible_flags_agree (fst (run l st))).
  { induction l as [|op l IH]; intros st Hw Hf; cbn [run]; [exact Hf|].
    pose proof (step_well_formed op st Hw) as Hw1.
    pose proof (step_flags op st Hw Hf) as Hf1.
    destruct (step op st) as [st1 evs]. cbn [fst] in *.
    specialize (IH st1 Hw1 Hf1). destruct (run l st1). exact IH. }
  apply H.
  - unfold sets_well_formed. cbn. repeat split; try constructor. intros v [].
  - intros k d [].
Qed.

(** ** Idle precedence *)

Lemma Set_of_nil (serials : list jsstring) :
  is_nil (Set_of (map JString serials)) = is_nil serials.
Proof.
  destruct serials as [|x l]; [reflexivity|].
  destruct (Set_of_strings (x :: l)) as (_ & _ & Hin).
  destruct (Set_of (map JString (x :: l))) as [|v r]; [|reflexivity].
  exfalso. apply (proj2 (Hin (JString x))). left. reflexivity.
Qed.

Lemma step_idle (op : operation) (st : scanner) :
  keeps_border_callback op = true ->
  match op with RenderTick _ _ => isScanning st | _ => true end = true ->
  idle_when_inactive st -> idle_when_inactive (fst (step op st)).
Proof.
  intros Hop Htick (Hcb & Hoff & Hnil). unfold idle_when_inactive.
  destruct op as [c x m| |input| |cb|cb|bs|ol now]; cbn [step].
  - unfold startScanner.
    destruct (isScanning st) eqn:Es; cbn [fst];
      [rewrite Es; repeat split; auto|].
    assert (Hidle : currentBorderState st = idle) by (apply Hoff; reflexivity).
    destruct (negb c); cbn [fst]; [rewrite Es; repeat split; auto|].
    destruct (negb m); cbn [fst]; [cbn; repeat split; auto|].
    cbn [targetSerials onBorderStateChange with_isScanning with_overlayReady].
    destruct (negb (is_nil (targetSerials st)) && onBorderStateChange st)
      eqn:Ec; cbn.
    + apply andb_true_iff in Ec. destruct Ec as [Hn Hc].
      apply negb_true_iff in Hn.
      repeat split; intros H; congruence.
    + repeat split; intros _; exact Hidle.
  - unfold stopScanner. destruct (isScanning st) eqn:Es; cbn [negb fst].
    + cbn. repeat split; reflexivity.
    + rewrite Es. repeat split; auto.
  - unfold setTargetSerials. cbv zeta.
    cbn [isScanning onBorderStateChange with_lastFoundTime with_visibleQRs
         with_foundSerials with_targetSerials].
    destruct (isScanning st && onBorderStateChange st) eqn:Ec; cbn.
    + apply andb_true_iff in Ec. destruct Ec as [Hs Hc].
      rewrite Set_of_nil.
      repeat split; intros H; try congruence. rewrite H. reflexivity.
    + apply andb_false_iff in Ec.
      assert (Hidle : currentBorderState st = idle)
        by (destruct Ec as [E|E]; auto).
      repeat split; intros _; exact Hidle.
  - unfold resetFoundSerials. cbv zeta.
    cbn [isScanning onBorderStateChange with_lastFoundTime with_visibleQRs
         with_foundSerials targetSerials].
    destruct (isScanning st && negb (is_nil (targetSerials st))
              && onBorderStateChange st) eqn:Ec; cbn.
    + apply andb_true_iff in Ec. destruct Ec as [Ec Hc].
      apply andb_true_iff in Ec. destruct Ec as [Hs Hn].
      apply negb_true_iff in Hn. repeat split; intros H; congruence.
    + repeat split; auto.
  - cbn. repeat split; auto.
  - destruct cb; [|discriminate]. cbn. repeat split; auto. discriminate.
  - destruct (processBarcodes_sets bs st) as (Ht & _ & Hb & Hs & _).
    cbv zeta in Ht, Hb, Hs. rewrite Ht, Hb, Hs.
    assert (Hsc : isScanning (fst (processBarcodes bs st)) = isScanning st).
    { clear. revert st. induction bs as [|[b now] bs IH]; intros st;
        cbn [processBarcodes]; [reflexivity|].
      destruct (processBarcode b now st) as [[st1 evs]|] eqn:E; [|reflexivity].
      specialize (IH st1). destruct (processBarcodes bs st1). cbn [fst] in *.
      rewrite IH. unfold processBarcode in E.
      destruct (decodeQRPayload (rawValue b)) as [parsed|]; [|discriminate].
      destruct (negb (valid parsed)); [injection E as <- _; reflexivity|].
      destruct (_ && _); injection E as <- _; reflexivity. }
    rewrite Hsc. repeat split; auto.
  - destruct (drawOverlays_keeps ol now st) as (Ht & _ & _ & Hb & Hs & _).
    cbv zeta in Ht, Hb, Hs. rewrite Ht, Hb, Hs.
    destruct (drawOverlays_reports ol now st)
      as [[_ Hcur]|(b' & He & _ & _ & Hc)].
    + cbv zeta in Hcur. rewrite Hcur. repeat split; auto.
    + (* a report needs targets, a callback and, by the guard, scanning *)
      assert (Hn : is_nil (targetSerials st) = false).
      { unfold drawOverlays in He. cbv zeta in He.
        destruct (overlayReady st); cbn [negb] in He; [|discriminate].
        destruct (threw _); [discriminate|].
        cbn [targetSerials onBorderStateChange with_lastFoundTime
             with_visibleQRs] in He.
        destruct (is_nil (targetSerials st)); [discriminate|reflexivity]. }
      repeat split; intros H; congruence.
Qed.

(** X18.  In a session in which the border callback is never taken away
    and render ticks happen only while scanning, the border state is
    [idle] whenever scanning is off and whenever TargetSet is empty,
    whatever the tracker holds. *)
Theorem idle_precedence (ops : list operation) :
  forallb keeps_border_callback ops = true ->
  ticks_while_scanning ops initial = true ->
  let st := fst (run ops initial) in
  (isScanning st = false -> currentBorderState st = idle)
  /\ (targetSerials st = [] -> currentBorderState st = idle).
Proof.
  intros Hk Ht. cbv zeta.
  assert (H : forall (l : list operation) (st : scanner),
             forallb keeps_border_callback l = true ->
             ticks_while_scanning l st = true ->
             idle_when_inactive st ->
             idle_when_inactive (fst (run l st))).
  { induction l as [|op l IH]; intros st Hkl Htl Hst; cbn [run]; [exact Hst|].
    cbn [forallb ticks_while_scanning] in Hkl, Htl.
    apply andb_true_iff in Hkl. destruct Hkl as [Hop Hkl].
    apply andb_true_iff in Htl. destruct Htl as [Htick Htl].
    pose proof (step_idle op st Hop Htick Hst) as H1.
    destruct (step op st) as [st1 evs]. cbn [fst] in *.
    specialize (IH st1 Hkl Htl H1). destruct (run l st1). exact IH. }
  destruct (H ops initial Hk Ht) as (_ & Hoff & Hnil).
  { unfold idle_when_inactive. cbn. auto. }
  split; [exact Hoff|]. intros E. apply Hnil. rewrite E. reflexivity.
Qed.

Lemma idle_precedence_witness :
  let ops :=
    [SetOnBorderStateChange true; SetTargetSerials (js "SN-42");
     StartScanner true true true; RenderTick every_label 1000;
     SetTargetSerials (js " , ")] in
  forallb keeps_border_callback ops = true
  /\ ticks_while_scanning ops initial = true
  /\ targetSerials (fst (run ops initial)) = []
  /\ currentBorderState (fst (run ops initial)) = idle.
Proof.
  intros ops.
  assert (Hk : forallb keeps_border_callback ops = true) by reflexivity.
  assert (Ht : ticks_while_scanning ops initial = true)
    by (vm_compute; reflexivity).
  assert (He : targetSerials (fst (run ops initial)) = [])
    by (vm_compute; reflexivity).
  split; [exact Hk|]. split; [exact Ht|]. split; [exact He|].
  exact (proj2 (idle_precedence ops Hk Ht) He).
Defined.


(** ** Serial lists *)

Lemma split_no_separator (sep : code_unit -> bool) (inp : jsstring) :
  forall piece, In piece (split sep inp) ->
                forallb (fun c => negb (sep c)) piece = true.
Proof.
  induction inp as [|c r IH]; intros piece Hin; cbn [split] in Hin.
  - destruct Hin as [<-|[]]. reflexivity.
  - destruct (sep c) eqn:E.
    + destruct Hin as [<-|Hin]; [reflexivity|apply IH; exact Hin].
    + destruct (split sep r) as [|h t] eqn:Es.
      * destruct Hin as [<-|[]]. cbn. rewrite E. reflexivity.
      * destruct Hin as [<-|Hin].
        -- cbn [forallb]. rewrite E. cbn. apply IH. left. reflexivity.
        -- apply IH. right. exact Hin.
Qed.

Lemma trim_start_suffix (s : jsstring) :
  exists pre, s = pre ++ trim_start s.
Proof.
  induction s as [|c r [pre IH]]; cbn [trim_start]; [exists []; reflexivity|].
  destruct (is_trimmed c).
  - exists (c :: pre). cbn. rewrite <- IH. reflexivity.
  - exists []. reflexivity.
Qed.

Lemma trim_start_head (s : jsstring) :
  match trim_start s with
  | c :: _ => is_trimmed c = false
  | [] => True
  end.
Proof.
  induction s as [|c r IH]; cbn [trim_start]; [exact I|].
  destruct (is_trimmed c) eqn:E; [exact IH|exact E].
Qed.

Lemma trim_start_fixed (s : jsstring) :
  match s with c :: _ => is_trimmed c = false | [] => True end ->
  trim_start s = s.
Proof. destruct s as [|c r]; [reflexivity|]. cbn. intros ->. reflexivity. Qed.

Lemma forallb_trim (P : code_unit -> bool) (s : jsstring) :
  forallb P s = true -> forallb P (trim s) = true.
Proof.
  intros H. unfold trim.
  assert (Hsuf : forall l, forallb P l = true ->
                           forallb P (trim_start l) = true).
  { intros l Hl. destruct (trim_start_suffix l) as [pre E].
    rewrite E, forallb_app in Hl. apply andb_true_iff in Hl. apply Hl. }
  assert (Hrev : forall l, forallb P l = true -> forallb P (rev l) = true).
  { intros l Hl. apply forallb_forall. intros x Hx. apply in_rev in Hx.
    apply (proj1 (forallb_forall _ _) Hl x Hx). }
  auto.
Qed.

Lemma trim_trimmed (s : jsstring) : trimmed (trim s).
Proof.
  unfold trimmed, trim. rewrite rev_involutive. split.
  - (* the head of the result is the head of [trim_start s] *)
    pose proof (trim_start_head s) as Hh.
    pose proof (trim_start_head (rev (trim_start s))) as Hl.
    destruct (trim_start_suffix (rev (trim_start s))) as [pre E].
    apply (f_equal (@rev code_unit)) in E.
    rewrite rev_involutive, rev_app_distr in E.
    destruct (rev (trim_start (rev (trim_start s)))) as [|c r] eqn:Er;
      [exact I|].
    rewrite E in Hh. cbn in Hh. exact Hh.
  - apply trim_start_head.
Qed.

(** X19.  Every serial that [setTargetSerials] reads from an input text
    is non-empty, has no white space at either end and contains neither
    a comma nor a newline; the count that
    [setTargetSerials] returns is the number of serials read, and
    TargetSet holds exactly these serials, each once. *)
Theorem parsed_serials_clean (input : jsstring) (st : scanner) :
  (forall s, In s (parse_serials input) ->
             s <> [] /\ trimmed s
             /\ forallb (fun c => negb ((c =? 10)%N || (c =? 44)%N)) s = true)
  /\ snd (setTargetSerials input st) = List.length (parse_serials input)
  /\ (forall v, In v (targetSerials (fst (fst (setTargetSerials input st))))
                <-> exists s, v = JString s /\ In s (parse_serials input))
  /\ NoDup (targetSerials (fst (fst (setTargetSerials input st))))
  /\ (List.length (targetSerials (fst (fst (setTargetSerials input st))))
      <= snd (setTargetSerials input st))%nat.
Proof.
  assert (Htargets :
    targetSerials (fst (fst (setTargetSerials input st)))
    = Set_of (map JString (parse_serials input))).
  { unfold setTargetSerials. cbv zeta.
    destruct (isScanning _ && onBorderStateChange _); reflexivity. }
  assert (Hcount :
    snd (setTargetSerials input st) = List.length (parse_serials input)).
  { unfold setTargetSerials. cbv zeta.
    destruct (isScanning _ && onBorderStateChange _); reflexivity. }
  destruct (Set_of_strings (parse_serials input)) as (_ & Hn & Hin).
  split; [|split; [exact Hcount|split; [|split]]].
  - intros s Hs. unfold parse_serials in Hs. apply filter_In in Hs.
    destruct Hs as [Hs Hne]. apply in_map_iff in Hs.
    destruct Hs as [piece [<- Hpiece]].
    split; [intros E; rewrite E in Hne; discriminate|].
    split; [apply trim_trimmed|].
    apply forallb_trim.
    apply (split_no_separator (fun c => (c =? 10)%N || (c =? 44)%N) input).
    exact Hpiece.
  - intros v. rewrite Htargets, Hin, in_map_iff. split.
    + intros [s [<- Hs]]. exists s. auto.
    + intros [s [-> Hs]]. exists s. auto.
  - rewrite Htargets. exact Hn.
  - rewrite Htargets, Hcount.
    rewrite <- (length_map JString (parse_serials input)).
    apply NoDup_incl_length; [exact Hn|].
    intros v Hv. apply Hin. exact Hv.
Qed.

(** X20.  The generator reads serial lists as [setTargetSerials] does,
    and a label printed for a serial of an input list is recognised
    when the same list is the search input: after [setTargetSerials],
    one processed detection of the label's payload puts the serial in
    the VisibleCode map as a target and in FoundSet. *)
Theorem printed_label_is_found (input : jsstring) (serial : jsstring)
    (st : scanner) (b : barcode) (now : Z) :
  In serial (parseSerialNumbers input) ->
  rawValue b = encodeQRPayload serial ->
  let st0 := fst (fst (setTargetSerials input st)) in
  exists st1 evs,
    processBarcode b now st0 = Returns (st1, evs)
    /\ foundSerials st1 = [JString serial]
    /\ visibleQRs st1
       = [(JString serial,
           {| qbounds := extract_bounds b; lastSeen := now;
              isTarget := true |})]
    /\ evs = Vibrate ::
             (if onFoundCallback st
              then [FoundCall (JString serial) [JString serial]] else []).
Proof.
  intros Hin Hraw. cbv zeta.
  change (parseSerialNumbers input) with (parse_serials input) in Hin.
  assert (Hne : is_nil serial = false).
  { unfold parse_serials in Hin. apply filter_In in Hin.
    destruct Hin as [_ H]. apply negb_true_iff in H. exact H. }
  assert (Ed : decodeQRPayload (rawValue b)
               = Returns (success (JString serial))).
  { rewrite Hraw. unfold encodeQRPayload.
    change (JObject _)
      with (payload_object serial SOURCE_TAG
              (calculateCRC32 (serial ++ SOURCE_TAG))).
    rewrite decode_payload_object, Hne, calculateCRC32_not_nil,
      !jsstring_eqb_refl. reflexivity. }
  set (st0 := fst (fst (setTargetSerials input st))).
  assert (Hst0 : targetSerials st0 = Set_of (map JString (parse_serials input))
                 /\ foundSerials st0 = [] /\ visibleQRs st0 = []
                 /\ onFoundCallback st0 = onFoundCallback st).
  { unfold st0, setTargetSerials. cbv zeta.
    destruct (isScanning _ && onBorderStateChange _); cbn; auto. }
  destruct Hst0 as (Ht & Hf & Hv & Hcb).
  assert (Htarget : Set_has (targetSerials st0) (JString serial) = true).
  { rewrite Ht. apply Set_has_string.
    apply (proj2 (proj2 (Set_of_strings (parse_serials input)))).
    apply in_map. exact Hin. }
  unfold processBarcode. rewrite Ed.
  cbn [valid success negb serialNumber foundSerials with_visibleQRs
       targetSerials onFoundCallback with_foundSerials visibleQRs].
  rewrite Htarget, Hf, Hv, Hcb. cbn [Set_has existsb negb andb Map_set Set_add].
  eexists. eexists. split; [reflexivity|].
  cbn. repeat split; reflexivity.
Qed.

Lemma printed_label_is_found_witness :
  exists st1 evs,
    processBarcode (barcode_of "SN-42") 1000
      (fst (fst (setTargetSerials (js "SN-41, SN-42") initial)))
    = Returns (st1, evs)
    /\ foundSerials st1 = [JString (js "SN-42")]
    /\ visibleQRs st1
       = [(JString (js "SN-42"),
           {| qbounds := extract_bounds (barcode_of "SN-42");
              lastSeen := 1000; isTarget := true |})]
    /\ evs = Vibrate ::
             (if onFoundCallback initial
              then [FoundCall (JString (js "SN-42")) [JString (js "SN-42")]]
              else []).
Proof.
  assert (Hin : In (js "SN-42") (parseSerialNumbers (js "SN-41, SN-42")))
    by (vm_compute; auto).
  exact (printed_label_is_found (js "SN-41, SN-42") (js "SN-42") initial
           (barcode_of "SN-42") 1000 Hin eq_refl).
Defined.


(** ** The label generator *)

Lemma grid_constants : COLS = 3 /\ ROWS = 5 /\ PER_PAGE = 15.
Proof. repeat split. Qed.

(** X21.  The label of index [i] goes to page [i / 15], row and column
    [(i mod 15) / 3] and [(i mod 15) mod 3] of a grid of 3 columns and 5
    rows: its cell lies within the page margins, the QR image and the
    baseline of the text lie within the cell, and the cells of two
    different labels do not overlap. *)
Theorem label_layout (i j : Z) :
  0 <= i -> 0 <= j ->
  let p := place i in
  (0 <= col p < 3 /\ 0 <= row p < 5
   /\ i = pageIndex p * 15 + row p * 3 + col p)
  /\ (MARGIN_MM <= cell_x p
      /\ cell_x p + CELL_WIDTH_MM <= A4_WIDTH_MM - MARGIN_MM
      /\ MARGIN_MM <= cell_y p
      /\ cell_y p + CELL_HEIGHT_MM <= A4_HEIGHT_MM - MARGIN_MM)
  /\ (cell_x p <= qr_x p
      /\ qr_x p + QR_SIZE_MM <= cell_x p + CELL_WIDTH_MM
      /\ qr_y p = cell_y p
      /\ qr_y p + QR_SIZE_MM <= textY p
      /\ textY p <= cell_y p + CELL_HEIGHT_MM)
  /\ (i <> j -> cells_overlap (place i) (place j) = false).
Proof.
  intros Hi Hj. cbv zeta. unfold cells_overlap, place.
  cbn [pageIndex positionOnPage col row qr_x qr_y textY cell_x cell_y].
  change PER_PAGE with 15. change COLS with 3.
  change MARGIN_MM with 10. change CELL_WIDTH_MM with 50.
  change CELL_HEIGHT_MM with 53. change QR_SIZE_MM with 40.
  change A4_WIDTH_MM with 210. change A4_HEIGHT_MM with 297.
  change ((50 - 40) / 2) with 5.
  pose proof (Z.div_mod i 15 ltac:(lia)) as Hdi.
  pose proof (Z.mod_pos_bound i 15 ltac:(lia)) as Hri.
  pose proof (Z.div_mod (i mod 15) 3 ltac:(lia)) as Hdi'.
  pose proof (Z.mod_pos_bound (i mod 15) 3 ltac:(lia)) as Hri'.
  pose proof (Z.div_mod j 15 ltac:(lia)) as Hdj.
  pose proof (Z.mod_pos_bound j 15 ltac:(lia)) as Hrj.
  pose proof (Z.div_mod (j mod 15) 3 ltac:(lia)) as Hdj'.
  pose proof (Z.mod_pos_bound (j mod 15) 3 ltac:(lia)) as Hrj'.
  set (pi := i / 15) in *. set (ri := i mod 15) in *.
  set (ci := ri mod 3) in *. set (wi := ri / 3) in *.
  set (pj := j / 15) in *. set (rj := j mod 15) in *.
  set (cj := rj mod 3) in *. set (wj := rj / 3) in *.
  assert (Hwi : 0 <= wi < 5) by lia.
  assert (Hwj : 0 <= wj < 5) by lia.
  split; [lia|]. split; [lia|]. split; [lia|].
  intros Hne.
  destruct (pi =? pj) eqn:Ep; [|reflexivity]. apply Z.eqb_eq in Ep.
  cbn [andb].
  destruct (Z.eq_dec ci cj) as [Ec|Ec].
  - assert (Hw : wi <> wj) by lia.
    destruct (Z.lt_total wi wj) as [H|[H|H]]; [| contradiction |].
    + replace (10 + wj * 53 <? 10 + wi * 53 + 53) with false
        by (symmetry; apply Z.ltb_ge; lia).
      rewrite !andb_false_r. reflexivity.
    + replace (10 + wi * 53 <? 10 + wj * 53 + 53) with false
        by (symmetry; apply Z.ltb_ge; lia).
      rewrite !andb_false_r. reflexivity.
  - destruct (Z.lt_total ci cj) as [H|[H|H]]; [| contradiction |].
    + replace (10 + cj * 50 <? 10 + ci * 50 + 50) with false
        by (symmetry; apply Z.ltb_ge; lia).
      rewrite !andb_false_r. reflexivity.
    + replace (10 + ci * 50 <? 10 + cj * 50 + 50) with false
        by (symmetry; apply Z.ltb_ge; lia).
      reflexivity.
Qed.

Lemma label_layout_witness :
  0 <= 16 /\ 0 <= 17
  /\ pageIndex (place 16) = 1 /\ row (place 16) = 0 /\ col (place 16) = 1
  /\ cells_overlap (place 16) (place 17) = false.
Proof.
  assert (H16 : 0 <= 16) by lia. assert (H17 : 0 <= 17) by lia.
  split; [exact H16|]. split; [exact H17|].
  repeat (split; [reflexivity|]).
  pose proof (label_layout 16 17 H16 H17) as H. cbv zeta in H.
  apply (proj2 (proj2 (proj2 H))). discriminate.
Defined.










(** ** The store and the scanner *)

Lemma on_events_app (ui : store) (e1 e2 : list event) :
  on_events ui (e1 ++ e2) = on_events (on_events ui e1) e2.
Proof. unfold on_events. apply fold_left_app. Qed.

Lemma on_events_other_fields (evs : list event) :
  forall ui : store,
    mode (on_events ui evs) = mode ui
    /\ scannerActive (on_events ui evs) = scannerActive ui
    /\ searchInput (on_events ui evs) = searchInput ui
    /\ store_targetCount (on_events ui evs) = store_targetCount ui.
Proof.
  induction evs as [|e evs IH]; intros ui; [cbn; auto|].
  change (on_events ui (e :: evs)) with (on_events (on_event ui e) evs).
  destruct (IH (on_event ui e)) as (H1 & H2 & H3 & H4).
  rewrite H1, H2, H3, H4. destruct e; cbn; auto.
Qed.

Lemma processBarcode_isScanning (b : barcode) (now : Z) (st st' : scanner)
    (evs : list event) :
  processBarcode b now st = Returns (st', evs) ->
  isScanning st' = isScanning st.
Proof.
  unfold processBarcode.
  destruct (decodeQRPayload (rawValue b)) as [parsed|]; [|discriminate].
  destruct (negb (valid parsed)); [intros H; injection H as <- _; reflexivity|].
  cbv zeta. destruct (_ && _); intros H; injection H as <- _; reflexivity.
Qed.

Lemma processBarcodes_isScanning (bs : list (barcode * Z)) :
  forall st : scanner,
    isScanning (fst (processBarcodes bs st)) = isScanning st.
Proof.
  induction bs as [|[b now] bs IH]; intros st; cbn [processBarcodes];
    [reflexivity|].
  destruct (processBarcode b now st) as [[st1 evs]|] eqn:E; [|reflexivity].
  specialize (IH st1). destruct (processBarcodes bs st1) as [st2 evs2].
  cbn [fst] in *. rewrite IH. exact (processBarcode_isScanning _ _ _ _ _ E).
Qed.

Lemma processBarcodes_store (bs : list (barcode * Z)) :
  forall (st : scanner) (ui : store),
    onFoundCallback st = true ->
    store_foundSerials ui = foundSerials st ->
    store_foundSerials (on_events ui (snd (processBarcodes bs st)))
    = foundSerials (fst (processBarcodes bs st))
    /\ borderState (on_events ui (snd (processBarcodes bs st)))
       = borderState ui.
Proof.
  induction bs as [|[b now] bs IH]; intros st ui Hcb Hui;
    cbn [processBarcodes]; [cbn; auto|].
  destruct (processBarcode b now st) as [[st1 evs]|] eqn:E; [|cbn; auto].
  destruct (processBarcode_sets _ _ _ _ _ E) as (_ & Hc & _ & _ & Hf).
  assert (Hcb1 : onFoundCallback st1 = true) by (rewrite Hc; exact Hcb).
  assert (H1 : store_foundSerials (on_events ui evs) = foundSerials st1
               /\ borderState (on_events ui evs) = borderState ui).
  { destruct Hf as [[Hf ->]|(parsed & _ & _ & _ & _ & Hf & ->)].
    - cbn. rewrite Hf. auto.
    - rewrite Hcb. cbn. auto. }
  destruct H1 as [H1 H2].
  specialize (IH st1 (on_events ui evs) Hcb1 H1).
  destruct (processBarcodes bs st1) as [st2 evs2]. cbn [fst snd] in *.
  rewrite on_events_app. destruct IH as [IH1 IH2].
  split; [exact IH1|]. rewrite IH2. exact H2.
Qed.

Lemma drawOverlays_store (object_label : json -> bool) (now : Z)
    (st : scanner) (ui : store) :
  borderState ui = currentBorderState st ->
  let st' := fst (fst (drawOverlays object_label now st)) in
  let evs := snd (fst (drawOverlays object_label now st)) in
  borderState (on_events ui evs) = currentBorderState st'
  /\ store_foundSerials (on_events ui evs) = store_foundSerials ui.
Proof.
  intros Hui. cbv zeta.
  destruct (drawOverlays_reports object_label now st)
    as [[-> Hb]|(b & -> & _ & Hb & _)]; rewrite Hb; cbn; auto.
Qed.

Lemma setTargetSerials_store (input : jsstring) (st : scanner) (ui : store) :
  onBorderStateChange st = true ->
  borderState ui = currentBorderState st ->
  let st' := fst (fst (setTargetSerials input st)) in
  let evs := snd (fst (setTargetSerials input st)) in
  borderState (on_events ui evs) = currentBorderState st'
  /\ foundSerials st' = []
  /\ onFoundCallback st' = onFoundCallback st
  /\ onBorderStateChange st' = onBorderStateChange st
  /\ isScanning st' = isScanning st
  /\ (List.length (targetSerials st') <= snd (setTargetSerials input st))%nat.
Proof.
  intros Hcb Hui. cbv zeta.
  assert (Hlen : (List.length (Set_of (map JString (parse_serials input)))
                  <= List.length (parse_serials input))%nat).
  { destruct (Set_of_strings (parse_serials input)) as (_ & Hn & Hin).
    rewrite <- (length_map JString (parse_serials input)).
    apply NoDup_incl_length; [exact Hn|]. intros v Hv. apply Hin, Hv. }
  unfold setTargetSerials. cbv zeta.
  destruct (isScanning _ && onBorderStateChange _); cbn; auto 7.
Qed.

Lemma resetFoundSerials_store (st : scanner) (ui : store) :
  borderState ui = currentBorderState st ->
  let st' := fst (resetFoundSerials st) in
  let evs := snd (resetFoundSerials st) in
  borderState (on_events ui evs) = currentBorderState st'
  /\ foundSerials st' = []
  /\ onFoundCallback st' = onFoundCallback st
  /\ onBorderStateChange st' = onBorderStateChange st
  /\ isScanning st' = isScanning st
  /\ targetSerials st' = targetSerials st.
Proof.
  intros Hui. cbv zeta. unfold resetFoundSerials. cbv zeta.
  destruct (_ && _); cbn; auto 7.
Qed.

Lemma stopScanner_store (st : scanner) :
  isScanning st = true ->
  let st' := fst (stopScanner st) in
  currentBorderState st' = idle
  /\ isScanning st' = false
  /\ foundSerials st' = foundSerials st
  /\ onFoundCallback st' = onFoundCallback st
  /\ onBorderStateChange st' = onBorderStateChange st
  /\ targetSerials st' = targetSerials st.
Proof.
  intros Hs. cbv zeta. unfold stopScanner. rewrite Hs. cbn. auto 7.
Qed.

Lemma on_events_found_border (ui : store) (evs : list event) :
  (forall e, In e evs -> exists b, e = BorderCall b) ->
  store_foundSerials (on_events ui evs) = store_foundSerials ui.
Proof.
  revert ui. induction evs as [|e evs IH]; intros ui H; [reflexivity|].
  change (on_events ui (e :: evs)) with (on_events (on_event ui e) evs).
  rewrite IH by (intros e' He'; apply H; right; exact He').
  destruct (H e (or_introl eq_refl)) as [b ->]. reflexivity.
Qed.

Lemma startScanner_store (c x m : bool) (st : scanner) (ui : store) :
  isScanning st = false ->
  borderState ui = currentBorderState st ->
  let st' := fst (startScanner c x m st) in
  let evs := snd (startScanner c x m st) in
  borderState (on_events ui evs) = currentBorderState st'
  /\ store_foundSerials (on_events ui evs) = store_foundSerials ui
  /\ isScanning st' = c && m
  /\ foundSerials st' = foundSerials st
  /\ onFoundCallback st' = onFoundCallback st
  /\ onBorderStateChange st' = onBorderStateChange st
  /\ targetSerials st' = targetSerials st.
Proof.
  intros Hs Hui. cbv zeta. unfold startScanner. rewrite Hs.
  destruct c; cbn [negb]; [|cbn; rewrite Hs; auto 8].
  destruct m; cbn [negb]; [|cbn; rewrite Hs; auto 8].
  destruct (_ && _); cbn; auto 8.
Qed.

Lemma ui_updateSearchTargets_mirrors (a : app_state) :
  store_mirrors a -> store_mirrors (ui_updateSearchTargets a).
Proof.
  destruct a as [ui sc]. intros (Hf & Hb & Hfound & Hborder & Hact & Hcount).
  unfold ui_updateSearchTargets.
  destruct (setTargetSerials_store (searchInput ui) sc ui Hb Hborder)
    as (H1 & H2 & H3 & H4 & H5 & H6).
  destruct (on_events_other_fields
              (snd (fst (setTargetSerials (searchInput ui) sc))) ui)
    as (_ & Ha & _ & _).
  destruct (setTargetSerials (searchInput ui) sc) as [[sc1 evs] count].
  cbn [fst snd] in *. unfold store_mirrors. cbn.
  rewrite H2, H3, H4, H5, Ha. auto 7.
Qed.

Lemma ui_stopScanner_mirrors (a : app_state) :
  store_mirrors a -> store_mirrors (ui_stopScanner a).
Proof.
  destruct a as [ui sc]. intros (Hf & Hb & Hfound & Hborder & Hact & Hcount).
  unfold ui_stopScanner.
  destruct (scannerActive ui) eqn:Ea; cbn [negb];
    [|unfold store_mirrors; rewrite Ea; auto 7].
  symmetry in Hact.
  destruct (stopScanner_store sc Hact) as (H1 & H2 & H3 & H4 & H5 & H6).
  assert (Hev : forall e, In e (snd (stopScanner sc)) ->
                          exists b, e = BorderCall b).
  { unfold stopScanner. rewrite Hact. cbn. rewrite Hb.
    intros e [<-|[]]. eexists; reflexivity. }
  pose proof (on_events_found_border ui _ Hev) as Hfe.
  pose proof (on_events_other_fields (snd (stopScanner sc)) ui)
    as (_ & _ & _ & Hc).
  destruct (stopScanner sc) as [sc1 evs]. cbn [fst snd] in *.
  unfold store_mirrors. cbn. rewrite H1, H2, H3, H4, H5, H6, Hfe, Hc. auto 7.
Qed.

Lemma ui_startScanner_mirrors (c x m : bool) (msg : jsstring)
    (a : app_state) :
  store_mirrors a -> store_mirrors (ui_startScanner c x m msg a).
Proof.
  destruct a as [ui sc]. intros Ha.
  pose proof Ha as (Hf & Hb & Hfound & Hborder & Hact & Hcount).
  unfold ui_startScanner.
  destruct (scannerActive ui) eqn:Ea; [exact Ha|]. cbv zeta.
  symmetry in Hact.
  destruct (startScanner_store c x m sc (set_scannerError None ui) Hact Hborder)
    as (H1 & H2 & H3 & H4 & H5 & H6 & H7).
  pose proof (on_events_other_fields (snd (startScanner c x m sc))
                (set_scannerError None ui)) as (_ & Hsa & _ & Hc).
  destruct (startScanner c x m sc) as [sc1 evs]. cbn [fst snd] in *.
  rewrite Hact.
  destruct c; cbn [negb andb] in *.
  2:{ unfold store_mirrors. cbn. rewrite H1, H2, H3, H4, H5, H6, H7, Hsa, Hc.
      cbn. rewrite Ea. auto 7. }
  destruct m; cbn [negb] in *.
  2:{ unfold store_mirrors. cbn. rewrite H1, H2, H3, H4, H5, H6, H7, Hsa, Hc.
      cbn. rewrite Ea. auto 7. }
  assert (Hm : store_mirrors
                 (set_scannerActive true
                    (on_events (set_scannerError None ui) evs), sc1)).
  { unfold store_mirrors. cbn. rewrite H1, H2, H3, H4, H5, H6, H7, Hc.
    cbn. auto 7. }
  destruct (negb _); [apply ui_updateSearchTargets_mirrors|]; exact Hm.
Qed.

Lemma ui_step_mirrors (act : ui_action) (a : app_state) :
  store_mirrors a -> store_mirrors (ui_step act a).
Proof.
  intros Ha. destruct act as [cam|c x m msg| |t| | |nm|bs|ol now];
    cbn [ui_step].
  - destruct a as [ui sc]. destruct Ha as (Hf & Hb & H). cbn. auto.
  - apply ui_startScanner_mirrors, Ha.
  - apply ui_stopScanner_mirrors, Ha.
  - destruct a as [ui sc]. exact Ha.
  - apply ui_updateSearchTargets_mirrors, Ha.
  - destruct a as [ui sc].
    destruct Ha as (Hf & Hb & Hfound & Hborder & Hact & Hcount).
    unfold ui_resetSearch.
    destruct (resetFoundSerials_store sc ui Hborder)
      as (H1 & H2 & H3 & H4 & H5 & H6).
    pose proof (on_events_other_fields (snd (resetFoundSerials sc)) ui)
      as (_ & Hsa & _ & Hc).
    destruct (resetFoundSerials sc) as [sc1 evs]. cbn [fst snd] in *.
    unfold store_mirrors. cbn. rewrite H2, H3, H4, H5, H6, Hsa, Hc. auto 7.
  - destruct a as [ui sc]. unfold ui_switchMode.
    destruct (app_mode_eqb nm (mode ui)); [exact Ha|].
    assert (Hm : store_mirrors
                   (if app_mode_eqb (mode ui) mode_scanner && scannerActive ui
                    then ui_stopScanner (ui, sc) else (ui, sc))).
    { destruct (_ && _); [apply ui_stopScanner_mirrors|]; exact Ha. }
    destruct (if app_mode_eqb (mode ui) mode_scanner && scannerActive ui
              then ui_stopScanner (ui, sc) else (ui, sc)) as [ui1 sc1].
    exact Hm.
  - destruct a as [ui sc].
    destruct Ha as (Hf & Hb & Hfound & Hborder & Hact & Hcount).
    cbn [fst snd].
    destruct (processBarcodes_store bs sc ui Hf Hfound) as [H1 H2].
    destruct (processBarcodes_sets bs sc) as (Ht & Hc1 & Hc2 & Hcur & _).
    pose proof (on_events_other_fields (snd (processBarcodes bs sc)) ui)
      as (_ & Hsa & _ & Hc).
    assert (Hscan : isScanning (fst (processBarcodes bs sc)) = isScanning sc).
    { apply processBarcodes_isScanning. }
    destruct (processBarcodes bs sc) as [sc1 evs]. cbn [fst snd] in *.
    unfold store_mirrors. rewrite H1, H2, Ht, Hc1, Hc2, Hcur, Hsa, Hc, Hscan.
    auto 7.
  - destruct a as [ui sc].
    destruct Ha as (Hf & Hb & Hfound & Hborder & Hact & Hcount).
    cbn [fst snd].
    destruct (drawOverlays_store ol now sc ui Hborder) as [H1 H2].
    destruct (drawOverlays_keeps ol now sc) as (Ht & Hfs & Hc1 & Hc2 & Hs & _).
    pose proof (on_events_other_fields
                  (snd (fst (drawOverlays ol now sc))) ui)
      as (_ & Hsa & _ & Hc).
    destruct (drawOverlays ol now sc) as [[sc1 evs] thrown].
    cbn [fst snd] in *.
    unfold store_mirrors. rewrite H1, H2, Ht, Hfs, Hc1, Hc2, Hs, Hsa, Hc.
    auto 7.
Qed.

Lemma on_events_scannerError (evs : list event) :
  forall ui : store, scannerError (on_events ui evs) = scannerError ui.
Proof.
  induction evs as [|e evs IH]; intros ui; [reflexivity|].
  change (on_events ui (e :: evs)) with (on_events (on_event ui e) evs).
  rewrite IH. destruct e; reflexivity.
Qed.

Lemma ui_updateSearchTargets_keeps (a : app_state) :
  scannerError (fst (ui_updateSearchTargets a)) = scannerError (fst a)
  /\ scannerActive (fst (ui_updateSearchTargets a)) = scannerActive (fst a)
  /\ isScanning (snd (ui_updateSearchTargets a)) = isScanning (snd a).
Proof.
  destruct a as [ui sc]. unfold ui_updateSearchTargets.
  pose proof (on_events_scannerError
                (snd (fst (setTargetSerials (searchInput ui) sc))) ui) as He.
  pose proof (on_events_other_fields
                (snd (fst (setTargetSerials (searchInput ui) sc))) ui)
    as (_ & Ha & _ & _).
  assert (Hs : isScanning (fst (fst (setTargetSerials (searchInput ui) sc)))
               = isScanning sc).
  { unfold setTargetSerials. cbv zeta.
    destruct (isScanning _ && onBorderStateChange _); reflexivity. }
  destruct (setTargetSerials (searchInput ui) sc) as [[sc1 evs] count].
  cbn [fst snd] in *. cbn. auto.
Qed.

(** X23.  Once [init] has registered its two callbacks, the store shows
    what the scanner holds after every sequence of store actions, scan
    results and animation frames, each run to completion before the
    next: the store's list of found serials is the scanner's found set in
    insertion order, its border state is the scanner's current border
    state, its [scannerActive] flag is the scanner's [isScanning], and
    its target count is at least the size of the scanner's target set. *)
Theorem store_mirrors_scanner (camera : bool) (acts : list ui_action) :
  store_mirrors (ui_run (Init camera :: acts) (initial_store, initial)).
Proof.
  unfold ui_run. cbn [fold_left].
  assert (H0 : store_mirrors (ui_step (Init camera) (initial_store, initial))).
  { cbn. auto 7. }
  revert H0. generalize (ui_step (Init camera) (initial_store, initial)).
  induction acts as [|act acts IH]; intros a Ha; [exact Ha|].
  cbn [fold_left]. apply IH, ui_step_mirrors, Ha.
Qed.

(** X24.  Outcome of the store's [startScanner] from a state in which the
    store mirrors the scanner and the scanner is not active: the store and
    the scanner become active exactly when the container element exists
    and the camera starts, and then the error is cleared; when the camera
    fails the error is the message derived from the camera's error text;
    when the container element is missing the message shown is the one
    for a missing camera, because the text of that error contains
    [not found]. *)
Theorem start_outcome (c x m : bool) (msg : jsstring) (a : app_state) :
  store_mirrors a ->
  scannerActive (fst a) = false ->
  let a' := ui_startScanner c x m msg a in
  scannerActive (fst a') = c && m
  /\ isScanning (snd a') = c && m
  /\ scannerError (fst a') =
     if c && m then None
     else if c then Some (getCameraErrorMessage msg)
     else Some (js "No camera found on this device.").
Proof.
  destruct a as [ui sc]. cbn [fst snd].
  intros (Hf & Hb & Hfound & Hborder & Hact & Hcount) Ea. cbv zeta.
  unfold ui_startScanner. rewrite Ea. cbv zeta.
  rewrite Ea in Hact. symmetry in Hact.
  destruct (startScanner_store c x m sc (set_scannerError None ui) Hact Hborder)
    as (_ & _ & H3 & _).
  pose proof (on_events_other_fields (snd (startScanner c x m sc))
                (set_scannerError None ui)) as (_ & Hsa & _ & _).
  pose proof (on_events_scannerError (snd (startScanner c x m sc))
                (set_scannerError None ui)) as Hse.
  destruct (startScanner c x m sc) as [sc1 evs]. cbn [fst snd] in *.
  rewrite Hact.
  destruct c; cbn [negb andb] in *.
  2:{ cbn. rewrite Hsa. cbn. rewrite Ea. auto. }
  destruct m; cbn [negb] in *.
  2:{ cbn. rewrite Hsa. cbn. rewrite Ea. auto. }
  destruct (negb _).
  - destruct (ui_updateSearchTargets_keeps
                (set_scannerActive true
                   (on_events (set_scannerError None ui) evs), sc1))
      as (K1 & K2 & K3).
    rewrite K1, K2, K3. cbn. rewrite Hse. cbn. auto.
  - cbn. rewrite Hse. cbn. auto.
Qed.

Lemma start_outcome_witness :
  scannerError
    (fst (ui_startScanner false true true (js "x")
            (ui_run [Init true] (initial_store, initial))))
  = Some (js "No camera found on this device.").
Proof.
  assert (Hm : store_mirrors (ui_run [Init true] (initial_store, initial))).
  { cbn. repeat (split; [reflexivity|]). apply le_n. }
  assert (Ha : scannerActive (fst (ui_run [Init true] (initial_store, initial)))
               = false) by reflexivity.
  pose proof (start_outcome false true true (js "x") _ Hm Ha) as H.
  cbv zeta in H. exact (proj2 (proj2 H)).
Defined.
